(** * Kotlin tag parser (parsers/kotlin.c): lexer, skippers and declaration recognizer

    A shallow embedding of the hand-written Kotlin parser of ctags.  The C code
    reads characters from the host's input file, one at a time, and reports
    tags to the host's tag sink.  Every loop of the source is a [while (true)];
    here each of them is a [Fixpoint] over a fuel argument that bounds the
    number of iterations, and a run that needs more iterations than the fuel
    allows yields no result. *)

From Stdlib Require Import ZArith List String Ascii Bool Lia.
Import ListNotations.

Local Open Scope string_scope.
Local Open Scope Z_scope.

(** ** Characters

    The source keeps characters in [int] variables: a byte of the file is a
    value in 0..255 and [EOF] is negative. *)

Definition EOF : Z := -1.

Definition chr (a : ascii) : Z := Z.of_N (N_of_ascii a).
Arguments chr a%_char_scope.

(** The cast [(char) c] performed when a character is stored in a [vString]. *)
Definition ascii_of_int (c : Z) : ascii := ascii_of_N (Z.to_N c).

(** ** The enumerations of the source *)

Inductive DeclarationKind : Type :=
| kind_class
| kind_function
| kind_typealias
| kind_const.

Inductive KeywordType : Type :=
| keyword_package
| keyword_import
| keyword_class
| keyword_interface
| keyword_typealias
| keyword_fun
| keyword_val
| keyword_var
| keyword_object
| keyword_other
| modifier_private
| modifier_protected
| modifier_public
| modifier_internal
| modifier_sealed
| modifier_enum
| modifier_abstract
| modifier_open
| modifier_override
| modifier_final
| modifier_suspend
| modifier_const.

Inductive TokenType : Type :=
| token_keyword
| token_identifier
| token_string
| token_number
| token_par_open
| token_par_close
| token_curly_open
| token_curly_close
| token_square_open
| token_square_close
| token_arrow_open
| token_arrow_close
| token_sem
| token_comma
| token_dot
| token_star
| token_eof
| token_comment_start
| token_comment_end
| token_comment_line
| token_colon
| token_bax
| token_other.

(** ** The keyword table *)

Definition KotlinKeywordTable : list (string * KeywordType) :=
  [ ("package", keyword_package);
    ("import", keyword_import);
    ("class", keyword_class);
    ("interface", keyword_interface);
    ("typealias", keyword_typealias);
    ("fun", keyword_fun);
    ("val", keyword_val);
    ("var", keyword_var);
    ("object", keyword_object);
    ("private", modifier_private);
    ("protected", modifier_protected);
    ("public", modifier_public);
    ("internal", modifier_internal);
    ("sealed", modifier_sealed);
    ("enum", modifier_enum);
    ("abstract", modifier_abstract);
    ("open", modifier_open);
    ("override", modifier_override);
    ("final", modifier_final);
    ("suspend", modifier_suspend);
    ("const", modifier_const) ].

(** Modelled from the spec: the host's keyword lookup [lookupKeyword] of
    keyword.h, which is not part of this parser.  The spec gives
    [lookup(text, language_id) -> keyword_code | NONE] over the table the
    parser registers; [KEYWORD_NONE] is [None] here, and the language
    identifier selects the table of this parser. *)
Fixpoint lookupKeywordIn (table : list (string * KeywordType)) (text : string)
  : option KeywordType :=
  match table with
  | [] => None
  | (spelling, code) :: table' =>
      if String.eqb text spelling then Some code else lookupKeywordIn table' text
  end.

Definition lookupKeyword (text : string) : option KeywordType :=
  lookupKeywordIn KotlinKeywordTable text.

(** ** The delimiter table

    [static int delimiters[128]], filled by [init_delimiters]: the table is
    cleared and thirteen entries are set. *)

Fixpoint array_set (a : list Z) (i : nat) (v : Z) : list Z :=
  match a, i with
  | [], _ => []
  | _ :: a', O => v :: a'
  | x :: a', S i' => x :: array_set a' i' v
  end.

Definition set_delimiter (a : list Z) (c : Z) : list Z :=
  array_set a (Z.to_nat c) 1.

Definition init_delimiters : list Z :=
  let d := repeat 0 128 in
  let d := set_delimiter d (chr " ") in
  let d := set_delimiter d (chr "013") in
  let d := set_delimiter d (chr "010") in
  let d := set_delimiter d (chr "009") in
  let d := set_delimiter d (chr ";") in
  let d := set_delimiter d (chr ",") in
  let d := set_delimiter d (chr "(") in
  let d := set_delimiter d (chr ")") in
  let d := set_delimiter d (chr "{") in
  let d := set_delimiter d (chr "}") in
  let d := set_delimiter d (chr "<") in
  let d := set_delimiter d (chr ">") in
  let d := set_delimiter d (chr ".") in
  d.

(** The table once [KotlinParser] has called [init_delimiters]. *)
Definition delimiters : list Z := Eval vm_compute in init_delimiters.

(** ** The character source *)

(** Modelled from the spec: the host's input file of read.h, which is not part
    of this parser.  The spec gives [get_char() -> char|EOF], a pushback
    [unget_char(char)], [current_line()] and [current_position()].  The
    pushed-back characters are read again first, the most recent one first;
    at the end of the text every read yields [EOF].  A line is counted when
    its newline has been read, the position is the number of characters read
    from the text. *)
Record inputFile : Type := mkInputFile {
  ungetchBuf : list Z;
  content : list ascii;
  currentLine : Z;
  currentPosition : Z
}.

Definition openInputFile (text : string) : inputFile :=
  {| ungetchBuf := [];
     content := list_ascii_of_string text;
     currentLine := 1;
     currentPosition := 0 |}.

(** ** The reader monad of the lexer

    A computation reads the input file and may run out of fuel ([None]). *)

Definition M (A : Type) : Type := inputFile -> option (A * inputFile).

Definition ret {A : Type} (a : A) : M A := fun f => Some (a, f).

Definition bind {A B : Type} (m : M A) (k : A -> M B) : M B :=
  fun f => match m f with
           | Some (a, f') => k a f'
           | None => None
           end.

Definition out_of_fuel {A : Type} : M A := fun _ => None.

Notation "x <- m ;; k" := (bind m (fun x => k))
  (at level 61, m at next level, right associativity).
Notation "m ;; k" := (bind m (fun _ => k))
  (at level 61, right associativity).

Definition getcFromInputFile : M Z := fun f =>
  match ungetchBuf f with
  | c :: pushed =>
      Some (c, {| ungetchBuf := pushed; content := content f;
                  currentLine := currentLine f;
                  currentPosition := currentPosition f |})
  | [] =>
      match content f with
      | [] => Some (EOF, f)
      | a :: rest =>
          Some (chr a,
                {| ungetchBuf := [];
                   content := rest;
                   currentLine := if chr a =? chr "010"
                                  then currentLine f + 1 else currentLine f;
                   currentPosition := currentPosition f + 1 |})
      end
  end.

Definition ungetcToInputFile (c : Z) : M unit := fun f =>
  Some (tt, {| ungetchBuf := c :: ungetchBuf f; content := content f;
               currentLine := currentLine f;
               currentPosition := currentPosition f |}).

Definition getInputLineNumber : M Z := fun f => Some (currentLine f, f).

Definition getInputFilePosition : M Z := fun f => Some (currentPosition f, f).

(** ** Tokens *)

Record Token : Type := mkToken {
  keyword : option KeywordType;
  token : TokenType;
  line_number : Z;
  file_position : Z;
  buffer : string
}.

Definition set_token (t : Token) (k : TokenType) : Token :=
  {| keyword := keyword t; token := k; line_number := line_number t;
     file_position := file_position t; buffer := buffer t |}.

Definition set_keyword (t : Token) (k : option KeywordType) : Token :=
  {| keyword := k; token := token t; line_number := line_number t;
     file_position := file_position t; buffer := buffer t |}.

Definition set_location (t : Token) (line pos : Z) : Token :=
  {| keyword := keyword t; token := token t; line_number := line;
     file_position := pos; buffer := buffer t |}.

Definition set_buffer (t : Token) (b : string) : Token :=
  {| keyword := keyword t; token := token t; line_number := line_number t;
     file_position := file_position t; buffer := b |}.

(** Modelled from the spec: [vStringPut] of vstring.h, which is not part of
    this parser.  The spec has the characters accumulate into the buffer of
    the token: the character is appended. *)
Definition vStringPut (b : string) (ch : Z) : string :=
  String.append b (String (ascii_of_int ch) EmptyString).

(** ** parse_number *)

(** The first loop of [parse_number]; the result carries the flag [end]. *)
Fixpoint parse_number_integral (fuel : nat) (b : string) : M (string * Z) :=
  match fuel with
  | O => out_of_fuel
  | S fuel' =>
      ch <- getcFromInputFile ;;
      if (ch >=? chr "0") && (ch <=? chr "9") then
        parse_number_integral fuel' (vStringPut b ch)
      else if ch =? chr "_" then
        parse_number_integral fuel' (vStringPut b ch)
      else if ch =? chr "." then
        ret (vStringPut b ch, 0)
      else
        ungetcToInputFile ch ;;
        ret (b, 1)
  end.

(** The second loop of [parse_number], entered when [end == 0]. *)
Fixpoint parse_number_fraction (fuel : nat) (b : string) : M string :=
  match fuel with
  | O => out_of_fuel
  | S fuel' =>
      ch <- getcFromInputFile ;;
      if (ch >=? chr "0") && (ch <=? chr "9") then
        parse_number_fraction fuel' (vStringPut b ch)
      else if ch =? chr "_" then
        parse_number_fraction fuel' (vStringPut b ch)
      else if ch =? chr "f" then
        ret (vStringPut b ch)
      else
        ungetcToInputFile ch ;;
        ret b
  end.

Definition parse_number (fuel : nat) (t : Token) : M Token :=
  r <- parse_number_integral fuel (buffer t) ;;
  b <- (if snd r =? 0 then parse_number_fraction fuel (fst r) else ret (fst r)) ;;
  ret (set_token (set_buffer t b) token_number).

(** ** parse_token *)

(** The first loop of [parse_token]: blanks are skipped; the result is the
    first other character, or [None] when the input ends first. *)
Fixpoint parse_token_first (fuel : nat) : M (option Z) :=
  match fuel with
  | O => out_of_fuel
  | S fuel' =>
      ch <- getcFromInputFile ;;
      if (ch =? chr " ") || (ch =? chr "013") || (ch =? chr "010")
         || (ch =? chr "009")
      then parse_token_first fuel'
      else if ch =? EOF then ret None
      else ret (Some ch)
  end.

(** The [switch (first)] of [parse_token]. *)
Definition single_char_token (first : Z) : option TokenType :=
  if first =? chr "(" then Some token_par_open
  else if first =? chr ")" then Some token_par_close
  else if first =? chr "{" then Some token_curly_open
  else if first =? chr "}" then Some token_curly_close
  else if first =? chr "[" then Some token_square_open
  else if first =? chr "]" then Some token_square_close
  else if first =? chr "." then Some token_dot
  else if first =? chr "," then Some token_comma
  else if first =? chr "<" then Some token_arrow_open
  else if first =? chr ">" then Some token_arrow_close
  else if first =? chr ";" then Some token_sem
  else if first =? chr ":" then Some token_colon
  else if first =? chr "$" then Some token_bax
  else None.

(** [ch >= 0 && ch < 128 && dd[ch] == 1] *)
Definition is_delimiter (ch : Z) : bool :=
  (ch >=? 0) && (ch <? 128) && (nth (Z.to_nat ch) delimiters 0 =? 1).

(** The last loop of [parse_token]: the rest of a word is accumulated. *)
Fixpoint parse_token_word (fuel : nat) (b : string) : M string :=
  match fuel with
  | O => out_of_fuel
  | S fuel' =>
      ch <- getcFromInputFile ;;
      if ch =? EOF then ret b
      else if is_delimiter ch then
        ungetcToInputFile ch ;;
        ret b
      else parse_token_word fuel' (vStringPut b ch)
  end.

Definition parse_token (fuel : nat) : M Token :=
  line0 <- getInputLineNumber ;;
  pos0 <- getInputFilePosition ;;
  let t0 := {| keyword := Some keyword_other; token := token_other;
               line_number := line0; file_position := pos0;
               buffer := EmptyString |} in
  start <- parse_token_first fuel ;;
  match start with
  | None => ret (set_token t0 token_eof)
  | Some first =>
      line <- getInputLineNumber ;;
      pos <- getInputFilePosition ;;
      let t := set_location t0 line pos in
      match single_char_token first with
      | Some k => ret (set_token t k)
      | None =>
          if first =? chr "/" then
            second <- getcFromInputFile ;;
            if second =? chr "/" then ret (set_token t token_comment_line)
            else if second =? chr "*" then ret (set_token t token_comment_start)
            else
              ungetcToInputFile second ;;
              ret (set_token t token_other)
          else if (first >=? chr "0") && (first <=? chr "9") then
            parse_number fuel (set_buffer t (vStringPut (buffer t) first))
          else
            b <- parse_token_word fuel (vStringPut (buffer t) first) ;;
            let t' := set_keyword (set_buffer t b) (lookupKeyword b) in
            match keyword t' with
            | None => ret (set_token t' token_identifier)
            | Some _ => ret (set_token t' token_keyword)
            end
      end
  end.

(** ** The skippers *)

Fixpoint skip_comment_block_loop (fuel : nat) (c : Z) : M unit :=
  match fuel with
  | O => out_of_fuel
  | S fuel' =>
      first <- getcFromInputFile ;;
      if (first =? chr "*") && (c =? 0) then
        second <- getcFromInputFile ;;
        if second =? chr "/" then ret tt
        else if second =? chr "*" then skip_comment_block_loop fuel' 1
        else skip_comment_block_loop fuel' 0
      else if (first =? chr "/") && (c =? 1) then ret tt
      else skip_comment_block_loop fuel' 0
  end.

Definition skip_comment_block (fuel : nat) : M unit :=
  skip_comment_block_loop fuel 0.

Fixpoint skip_until_eol (fuel : nat) : M unit :=
  match fuel with
  | O => out_of_fuel
  | S fuel' =>
      ch <- getcFromInputFile ;;
      if (ch =? EOF) || (ch =? chr "010") then ret tt
      else skip_until_eol fuel'
  end.

(** The four nesting counters of [skip_open_close]. *)
Record counters : Type := mkCounters {
  curly : Z;
  square : Z;
  pars : Z;
  arrows : Z
}.

Definition all_zero (n : counters) : bool :=
  (pars n =? 0) && (square n =? 0) && (curly n =? 0) && (arrows n =? 0).

(** The increments made before the loop of [skip_open_close]. *)
Definition expect (expected_close : Z) : counters :=
  let n := {| curly := 0; square := 0; pars := 0; arrows := 0 |} in
  if expected_close =? chr ")" then
    {| curly := curly n; square := square n; pars := pars n + 1; arrows := arrows n |}
  else if expected_close =? chr "}" then
    {| curly := curly n + 1; square := square n; pars := pars n; arrows := arrows n |}
  else if expected_close =? chr "]" then
    {| curly := curly n; square := square n + 1; pars := pars n; arrows := arrows n |}
  else if expected_close =? chr ">" then
    {| curly := curly n; square := square n; pars := pars n; arrows := arrows n + 1 |}
  else n.

Fixpoint skip_open_close_loop (fuel : nat) (expected_close : Z) (n : counters)
  : M unit :=
  match fuel with
  | O => out_of_fuel
  | S fuel' =>
      ch <- getcFromInputFile ;;
      if ch =? EOF then ret tt
      else
        n' <- (if ch =? chr "(" then
                 ret {| curly := curly n; square := square n;
                        pars := pars n + 1; arrows := arrows n |}
               else if ch =? chr ")" then
                 ret {| curly := curly n; square := square n;
                        pars := pars n - 1; arrows := arrows n |}
               else if ch =? chr "{" then
                 ret {| curly := curly n + 1; square := square n;
                        pars := pars n; arrows := arrows n |}
               else if ch =? chr "}" then
                 ret {| curly := curly n - 1; square := square n;
                        pars := pars n; arrows := arrows n |}
               else if ch =? chr "[" then
                 ret {| curly := curly n; square := square n + 1;
                        pars := pars n; arrows := arrows n |}
               else if ch =? chr "]" then
                 ret {| curly := curly n; square := square n - 1;
                        pars := pars n; arrows := arrows n |}
               else if ch =? chr "<" then
                 ret {| curly := curly n; square := square n;
                        pars := pars n; arrows := arrows n + 1 |}
               else if ch =? chr ">" then
                 ret {| curly := curly n; square := square n;
                        pars := pars n; arrows := arrows n - 1 |}
               else if ch =? chr "/" then
                 next <- getcFromInputFile ;;
                 (if next =? chr "/" then skip_until_eol fuel
                  else if next =? chr "*" then skip_comment_block fuel
                  else ret tt) ;;
                 ret n
               else ret n) ;;
        if (ch =? expected_close) && all_zero n' then ret tt
        else skip_open_close_loop fuel' expected_close n'
  end.

Definition skip_open_close (fuel : nat) (expected_close : Z) : M unit :=
  skip_open_close_loop fuel expected_close (expect expected_close).

(** ** The tag sink *)

(** Modelled from the spec: the host's tag record [tagEntryInfo] of entry.h,
    which is not part of this parser.  The spec gives the record
    [(name, kind, line, position)]. *)
Record tagEntryInfo : Type := mkTagEntry {
  name : string;
  kind : DeclarationKind;
  lineNumber : Z;
  filePosition : Z
}.

(** The body of [make_tag_entry]: the record handed to [makeTagEntry]. *)
Definition tag_entry (t : Token) (k : DeclarationKind) : tagEntryInfo :=
  let e := {| name := buffer t; kind := k; lineNumber := 0; filePosition := 0 |} in
  {| name := name e; kind := kind e;
     lineNumber := line_number t; filePosition := file_position t |}.

(** A call of [make_tag_entry], with the token as it is at the call. *)
Definition tagCall : Type := (Token * DeclarationKind)%type.

Definition entry_of_call (c : tagCall) : tagEntryInfo :=
  tag_entry (fst c) (snd c).

(** ** The monad of the recognizer

    The recognizer reads the input file through the lexer and reports tags.
    The calls of [make_tag_entry] made so far are kept when the fuel runs
    out, since the sink has received them by then. *)

Definition D (A : Type) : Type :=
  inputFile -> list tagCall * option (A * inputFile).

Definition retD {A : Type} (a : A) : D A := fun f => ([], Some (a, f)).

Definition bindD {A B : Type} (m : D A) (k : A -> D B) : D B :=
  fun f => match m f with
           | (calls, Some (a, f')) =>
               let (calls', r) := k a f' in (calls ++ calls', r)%list
           | (calls, None) => (calls, None)
           end.

Definition lift {A : Type} (m : M A) : D A := fun f => ([], m f).

Definition out_of_fuelD {A : Type} : D A := fun _ => ([], None).

Notation "x <~ m ;; k" := (bindD m (fun x => k))
  (at level 61, m at next level, right associativity).
Notation "m ;;; k" := (bindD m (fun _ => k))
  (at level 61, right associativity).

Definition make_tag_entry (t : Token) (k : DeclarationKind) : D unit :=
  fun f => ([(t, k)], Some (tt, f)).

(** ** find_kotlin_tags *)

(** One turn of the loop of [find_kotlin_tags] after the end-of-input test:
    the chain of tests on the token just read. *)
Definition find_kotlin_tags_dispatch (fuel : nat) (t : Token) : D unit :=
  match token t with
  | token_comment_start => lift (skip_comment_block fuel)
  | token_comment_line => lift (skip_until_eol fuel)
  | token_keyword =>
      match keyword t with
      | Some modifier_public | Some modifier_internal
      | Some modifier_private | Some modifier_abstract
      | Some modifier_protected
      | Some modifier_open
      | Some modifier_final
      | Some modifier_override
      | Some modifier_sealed
      | Some modifier_suspend => retD tt
      | Some keyword_class | Some keyword_interface | Some keyword_object =>
          t <~ lift (parse_token fuel) ;;
          (match token t with
           | token_identifier => make_tag_entry t kind_class
           | _ => retD tt
           end) ;;;
          lift (skip_until_eol fuel)
      | Some keyword_typealias =>
          t <~ lift (parse_token fuel) ;;
          match token t with
          | token_identifier => make_tag_entry t kind_typealias
          | _ => retD tt
          end
      | Some modifier_const =>
          t <~ lift (parse_token fuel) ;;
          (match keyword t with
           | Some keyword_val =>
               t <~ lift (parse_token fuel) ;;
               match token t with
               | token_identifier => make_tag_entry t kind_const
               | _ => retD tt
               end
           | _ => retD tt
           end) ;;;
          lift (skip_until_eol fuel)
      | Some keyword_fun =>
          t <~ lift (parse_token fuel) ;;
          t <~ (match token t with
                | token_arrow_open =>
                    lift (skip_open_close fuel (chr ">")) ;;;
                    lift (parse_token fuel)
                | _ => retD t
                end) ;;
          match token t with
          | token_identifier =>
              sub <~ lift (parse_token fuel) ;;
              match token sub with
              | token_dot =>
                  sub <~ lift (parse_token fuel) ;;
                  match token sub with
                  | token_identifier => make_tag_entry sub kind_function
                  | _ => retD tt
                  end
              | token_par_open => make_tag_entry t kind_function
              | _ => lift (skip_until_eol fuel)
              end
          | _ => lift (skip_until_eol fuel)
          end
      | _ => lift (skip_until_eol fuel)
      end
  | _ => retD tt
  end.

Fixpoint find_kotlin_tags (fuel : nat) : D unit :=
  match fuel with
  | O => out_of_fuelD
  | S fuel' =>
      t <~ lift (parse_token fuel) ;;
      match token t with
      | token_eof => retD tt
      | _ => find_kotlin_tags_dispatch fuel t ;;; find_kotlin_tags fuel'
      end
  end.

(** The tags a run over [text] reports, and whether the run has returned. *)
Definition tags_of (fuel : nat) (text : string) : list tagEntryInfo :=
  map entry_of_call (fst (find_kotlin_tags fuel (openInputFile text))).

Definition returns (fuel : nat) (text : string) : bool :=
  match snd (find_kotlin_tags fuel (openInputFile text)) with
  | Some _ => true
  | None => false
  end.

(** ** The registration of the parser *)

(** Modelled from the spec: the host's [kindDefinition] and
    [parserDefinition] of parse.h, which are not part of this parser; the
    fields the parser sets are kept. *)
Record kindDefinition : Type := mkKind {
  enabled : bool;
  letter : ascii;
  kindName : string;
  description : string
}.

Definition KotlinKinds : list kindDefinition :=
  [ {| enabled := true; letter := "c"; kindName := "class";
       description := "classes" |};
    {| enabled := true; letter := "f"; kindName := "function";
       description := "functions" |};
    {| enabled := true; letter := "t"; kindName := "typealias";
       description := "typealiases" |};
    {| enabled := true; letter := "C"; kindName := "const";
       description := "constants" |} ].

(** The value of an enumerator of [DeclarationKind], the index that
    [make_tag_entry] hands to [initTagEntry]. *)
Definition kind_index (k : DeclarationKind) : nat :=
  match k with
  | kind_class => 0
  | kind_function => 1
  | kind_typealias => 2
  | kind_const => 3
  end.

Definition extensions : list string := [ "kt"; "kts" ].

Record parserDefinition : Type := mkParser {
  parserName : string;
  kindTable : list kindDefinition;
  kindCount : nat;
  parserExtensions : list string;
  parser : nat -> D unit;
  useCork : bool;
  keywordTable : list (string * KeywordType);
  keywordCount : nat
}.

Definition KotlinParser : parserDefinition :=
  {| parserName := "Kotlin";
     kindTable := KotlinKinds;
     kindCount := List.length KotlinKinds;
     parserExtensions := extensions;
     parser := find_kotlin_tags;
     useCork := true;
     keywordTable := KotlinKeywordTable;
     keywordCount := List.length KotlinKeywordTable |}.

(** * The vocabulary of the statements *)

(** ** The input left to read and the fuel *)

(** The characters the next reads return, before [EOF] for ever. *)
Definition pending (f : inputFile) : list Z :=
  (ungetchBuf f ++ map chr (content f))%list.

(** How many characters are left to read. *)
Definition avail (f : inputFile) : nat := List.length (pending f).

(** Whatever [m] returns, [m'] returns as well. *)
Definition le_res {A : Type} (m m' : M A) : Prop :=
  forall f r, m f = Some r -> m' f = Some r.

Definition le_resD {A : Type} (m m' : D A) : Prop :=
  forall f calls r, m f = (calls, Some r) -> m' f = (calls, Some r).

(** When [m] returns it leaves no more characters than it found. *)
Definition shrinks {A : Type} (m : M A) : Prop :=
  forall f a f', m f = Some (a, f') -> (avail f' <= avail f)%nat.

(** What is left of the pending characters once the rest of the line,
    through its newline, or the rest of the input is dropped. *)
Fixpoint after_eol (l : list Z) : list Z :=
  match l with
  | [] => []
  | c :: l' => if (c =? EOF) || (c =? chr "010") then l' else after_eol l'
  end.

(** A [*/] is among the characters [l]. *)
Fixpoint has_close (l : list Z) : bool :=
  match l with
  | [] => false
  | c :: l' =>
      match l' with
      | [] => false
      | d :: _ => ((c =? chr "*") && (d =? chr "/")) || has_close l'
      end
  end.

(** ** Tokens as the lexer classifies them *)

(** The three ways a token leaves [parse_token]: as an identifier (the
    keyword lookup failed), as a keyword (the lookup gave its code), or as
    another kind, for which no lookup is made. *)
Definition identifier_token (t : Token) : Prop :=
  token t = token_identifier /\ keyword t = None
  /\ lookupKeyword (buffer t) = None.

Definition keyword_token (t : Token) : Prop :=
  token t = token_keyword /\ keyword t <> None
  /\ keyword t = lookupKeyword (buffer t).

Definition plain_token (t : Token) : Prop :=
  token t <> token_identifier /\ token t <> token_keyword
  /\ keyword t = Some keyword_other.

(** A token as [parse_token] leaves it: classified as an identifier only
    when the keyword lookup of its text failed. *)
Definition lexed (t : Token) : Prop :=
  token t = token_identifier -> identifier_token t.

Definition identifier_call (c : tagCall) : Prop := identifier_token (fst c).

(** The characters the spec lists as ending a word: blank, carriage return,
    newline, tab, semicolon, comma, parentheses, braces, angle brackets and
    dot. *)
Definition delimiter_characters : list Z :=
  [ chr " "; chr "013"; chr "010"; chr "009"; chr ";"; chr ",";
    chr "("; chr ")"; chr "{"; chr "}"; chr "<"; chr ">"; chr "." ].

(** The reserved words of the spec's data model, in the spec's order. *)
Definition spec_reserved_words : list string :=
  [ "package"; "import"; "class"; "interface"; "object"; "typealias"; "fun";
    "val"; "var"; "private"; "protected"; "public"; "internal"; "sealed";
    "enum"; "abstract"; "open"; "override"; "final"; "suspend"; "const" ].

(** ** What a run reports *)

(** Every call of [make_tag_entry] made by [m] satisfies [P], whether or
    not [m] returns. *)
Definition emits (P : tagCall -> Prop) {A : Type} (m : D A) : Prop :=
  forall f, Forall P (fst (m f)).

(** Every value [m] returns satisfies [Q]. *)
Definition postD {A : Type} (Q : A -> Prop) (m : D A) : Prop :=
  forall f calls a f', m f = (calls, Some (a, f')) -> Q a.

(** The run over [text] returns, having reported [tags] in this order. *)
Definition reported (text : string) (tags : list tagEntryInfo) : Prop :=
  exists fuel calls r,
    find_kotlin_tags fuel (openInputFile text) = (calls, Some r)
    /\ map entry_of_call calls = tags.

Definition DeclarationKind_eqb (a b : DeclarationKind) : bool :=
  match a, b with
  | kind_class, kind_class
  | kind_function, kind_function
  | kind_typealias, kind_typealias
  | kind_const, kind_const => true
  | _, _ => false
  end.

(** The kind and the name of a tag. *)
Definition label (e : tagEntryInfo) : DeclarationKind * string :=
  (kind e, name e).

(** How many of [tags] have kind [k] and name [n]. *)
Definition tag_count (k : DeclarationKind) (n : string)
    (tags : list tagEntryInfo) : nat :=
  List.length
    (filter (fun e => DeclarationKind_eqb (kind e) k && String.eqb (name e) n)
       tags).

(** How many of [tags] have kind [k]. *)
Definition kind_count (k : DeclarationKind) (tags : list tagEntryInfo) : nat :=
  List.length (filter (fun e => DeclarationKind_eqb (kind e) k) tags).

(** ** Nesting, as the bracket skipper is meant to count it *)

(** The nesting of one kind of bracket over the characters [pre]: openers
    less closers. *)
Definition depth (open close : ascii) (pre : list ascii) : Z :=
  Z.of_nat (count_occ ascii_dec pre open)
  - Z.of_nat (count_occ ascii_dec pre close).

(** The four counters once [pre] has been read, each kind counted on its own
    and the kind closed by [e] counted one deeper from the start. *)
Definition nesting (e : ascii) (pre : list ascii) : counters :=
  {| curly := (if ascii_dec e "}" then 1 else 0) + depth "{" "}" pre;
     square := (if ascii_dec e "]" then 1 else 0) + depth "[" "]" pre;
     pars := (if ascii_dec e ")" then 1 else 0) + depth "(" ")" pre;
     arrows := (if ascii_dec e ">" then 1 else 0) + depth "<" ">" pre |}.

(** The skipper stops when it has read [pre]: the last character read is the
    expected closing character and the four counters are zero. *)
Definition stops_after (e : ascii) (pre : list ascii) : Prop :=
  (exists pre', pre = (pre' ++ [e])%list)
  /\ curly (nesting e pre) = 0 /\ square (nesting e pre) = 0
  /\ pars (nesting e pre) = 0 /\ arrows (nesting e pre) = 0.

(** What the chain of tests of [skip_open_close] does to the counters for a
    character other than [/]. *)
Definition bump (ch : Z) (n : counters) : counters :=
  if ch =? chr "(" then
    {| curly := curly n; square := square n; pars := pars n + 1; arrows := arrows n |}
  else if ch =? chr ")" then
    {| curly := curly n; square := square n; pars := pars n - 1; arrows := arrows n |}
  else if ch =? chr "{" then
    {| curly := curly n + 1; square := square n; pars := pars n; arrows := arrows n |}
  else if ch =? chr "}" then
    {| curly := curly n - 1; square := square n; pars := pars n; arrows := arrows n |}
  else if ch =? chr "[" then
    {| curly := curly n; square := square n + 1; pars := pars n; arrows := arrows n |}
  else if ch =? chr "]" then
    {| curly := curly n; square := square n - 1; pars := pars n; arrows := arrows n |}
  else if ch =? chr "<" then
    {| curly := curly n; square := square n; pars := pars n; arrows := arrows n + 1 |}
  else if ch =? chr ">" then
    {| curly := curly n; square := square n; pars := pars n; arrows := arrows n - 1 |}
  else n.

(** ** Tokens and states of the worked inputs *)

(** The token [const] as the lexer delivers it at the head of a file. *)
Definition const_keyword_token : Token :=
  {| keyword := Some modifier_const; token := token_keyword;
     line_number := 1; file_position := 1; buffer := "const" |}.

(** The tokens and the states of the lexer over [ String.reversed(): String],
    what follows the keyword [fun] in [fun String.reversed(): String]. *)
Definition fun_keyword_token : Token :=
  {| keyword := Some keyword_fun; token := token_keyword;
     line_number := 1; file_position := 1; buffer := "fun" |}.

Definition receiver_token : Token :=
  {| keyword := None; token := token_identifier;
     line_number := 1; file_position := 2; buffer := "String" |}.

Definition after_receiver : inputFile :=
  {| ungetchBuf := [chr "."];
     content := list_ascii_of_string "reversed(): String";
     currentLine := 1; currentPosition := 8 |}.

Definition dot_token : Token :=
  {| keyword := Some keyword_other; token := token_dot;
     line_number := 1; file_position := 8; buffer := "" |}.

Definition after_dot : inputFile :=
  {| ungetchBuf := [];
     content := list_ascii_of_string "reversed(): String";
     currentLine := 1; currentPosition := 8 |}.

(** ** Reading, as a relation between states of the input *)

(** How many characters are pushed back. *)
Definition ungot (f : inputFile) : nat := List.length (ungetchBuf f).

(** From [f] to [f']: what is left to read is a part of what was left, from
    some point on, or it is the end of input pushed back after everything
    was read; and at most one character is pushed back, unless more were
    before. *)
Definition reads (f f' : inputFile) : Prop :=
  ((exists k, pending f' = skipn k (pending f)) \/ pending f' = [EOF])
  /\ (ungot f' <= Nat.max (ungot f) 1)%nat.

(** Every return of [m] is a reading. *)
Definition follows {A : Type} (m : M A) : Prop :=
  forall f a f', m f = Some (a, f') -> reads f f'.

(** Every return of [m], run after a read that gave [ch], is a reading from
    before that read. *)
Definition follows_after {A : Type} (ch : Z) (m : M A) : Prop :=
  forall f f1 a f',
    getcFromInputFile f = Some (ch, f1) -> m f1 = Some (a, f') -> reads f f'.

(** No [/*] is among the characters [l]. *)
Fixpoint no_open (l : list Z) : bool :=
  match l with
  | [] => true
  | c :: l' =>
      match l' with
      | [] => true
      | d :: _ => negb ((c =? chr "/") && (d =? chr "*")) && no_open l'
      end
  end.

(** The blanks [parse_token] skips. *)
Definition is_blank (ch : Z) : bool :=
  (ch =? chr " ") || (ch =? chr "013") || (ch =? chr "010")
  || (ch =? chr "009").

(** ** Runs that are sure to return *)

(** A state from which the lexer is sure to return with [fuel]: no block
    comment opens in what is left to read, and the fuel exceeds it. *)
Definition good (fuel : nat) (f : inputFile) : Prop :=
  no_open (pending f) = true /\ (avail f < fuel)%nat /\ (1 < fuel)%nat.

(** From a good state [m] returns, and that return is a reading. *)
Definition safe (fuel : nat) {A : Type} (m : M A) : Prop :=
  forall f, good fuel f ->
    exists a f', m f = Some (a, f') /\ reads f f'.

Definition safeD (fuel : nat) {A : Type} (m : D A) : Prop :=
  forall f, good fuel f ->
    exists calls a f', m f = (calls, Some (a, f')) /\ reads f f'.

(** Every return of the recognizer's [m] is a reading. *)
Definition followsD {A : Type} (m : D A) : Prop :=
  forall f calls a f', m f = (calls, Some (a, f')) -> reads f f'.

(** ** Words and numbers *)

(** The characters with which [parse_token] starts a word: no blank, none of
    the one-character tokens, no slash and no digit. *)
Definition starts_word (ch : Z) : bool :=
  negb (is_blank ch)
  && match single_char_token ch with Some _ => false | None => true end
  && negb (ch =? chr "/")
  && negb ((ch >=? chr "0") && (ch <=? chr "9")).

(** Digits and underscores, the characters of the two runs of a number. *)
Definition is_digit_or_underscore (a : ascii) : bool :=
  ((chr a >=? chr "0") && (chr a <=? chr "9")) || (chr a =? chr "_").

(** The kinds [parse_token] gives to a token that is neither a word nor a
    number. *)
Definition plain_kinds : list TokenType :=
  [ token_eof; token_par_open; token_par_close; token_curly_open;
    token_curly_close; token_square_open; token_square_close;
    token_arrow_open; token_arrow_close; token_sem; token_comma; token_dot;
    token_colon; token_bax; token_comment_start; token_comment_line;
    token_other ].

(** The texts of number tokens: a digit, a run of digits and underscores,
    and then nothing or a dot, a second run and, possibly, a final [f]. *)
Definition number_text (s : string) : Prop :=
  exists d ds tail,
    list_ascii_of_string s = (d :: ds ++ tail)%list
    /\ (chr d >=? chr "0") && (chr d <=? chr "9") = true
    /\ Forall (fun a => is_digit_or_underscore a = true) ds
    /\ (tail = []
        \/ exists fs e,
             tail = ("."%char :: fs ++ e)%list
             /\ Forall (fun a => is_digit_or_underscore a = true) fs
             /\ (e = [] \/ e = [ "f"%char ])).

(** ** Declarations *)

(** The kind of tag a keyword stands for, when it starts a declaration the
    recognizer reports. *)
Definition declares (k : option KeywordType) : option DeclarationKind :=
  match k with
  | Some keyword_class | Some keyword_interface | Some keyword_object =>
      Some kind_class
  | Some keyword_typealias => Some kind_typealias
  | Some modifier_const => Some kind_const
  | Some keyword_fun => Some kind_function
  | _ => None
  end.

(** [m] makes at most [n] calls of [make_tag_entry]. *)
Definition emits_at_most (n : nat) {A : Type} (m : D A) : Prop :=
  forall f, (List.length (fst (m f)) <= n)%nat.

(** The modifiers the recognizer passes over. *)
Definition is_modifier (k : option KeywordType) : bool :=
  match k with
  | Some modifier_public | Some modifier_internal | Some modifier_private
  | Some modifier_abstract | Some modifier_protected | Some modifier_open
  | Some modifier_final | Some modifier_override | Some modifier_sealed
  | Some modifier_suspend => true
  | _ => false
  end.

(** Characters in which the end of input stands at the end only: none of
    them is [EOF], or they are the pushed-back [EOF] alone. *)
Definition proper (l : list Z) : Prop :=
  Forall (fun c => c <> EOF) l \/ l = [EOF].

(** * Properties *)

(** ** Characters *)

Lemma chr_range (a : ascii) : 0 <= chr a < 256.
Proof.
  unfold chr. pose proof (N_ascii_bounded a). lia.
Qed.

Lemma chr_inj (a b : ascii) : chr a = chr b -> a = b.
Proof.
  unfold chr. intros H.
  rewrite <- (ascii_N_embedding a), <- (ascii_N_embedding b).
  f_equal. lia.
Qed.

Lemma ascii_of_int_chr (a : ascii) : ascii_of_int (chr a) = a.
Proof.
  unfold ascii_of_int, chr. rewrite N2Z.id. apply ascii_N_embedding.
Qed.

Lemma chr_not_EOF (a : ascii) : (chr a =? EOF) = false.
Proof.
  pose proof (chr_range a). unfold EOF. lia.
Qed.

(** ** What is left to read *)

Lemma getc_pending (f : inputFile) :
  match pending f with
  | [] => getcFromInputFile f = Some (EOF, f)
  | c :: l => exists f', getcFromInputFile f = Some (c, f') /\ pending f' = l
  end.
Proof.
  unfold pending, getcFromInputFile.
  destruct (ungetchBuf f) as [|c u] eqn:Eu; simpl.
  - destruct (content f) as [|a rest] eqn:Ec; simpl; [reflexivity|].
    eexists. split; [reflexivity|]. reflexivity.
  - eexists. split; [reflexivity|]. reflexivity.
Qed.

Lemma getc_total (f : inputFile) :
  exists ch f', getcFromInputFile f = Some (ch, f')
    /\ ((S (avail f') = avail f) \/ (avail f = O /\ ch = EOF /\ f' = f)).
Proof.
  pose proof (getc_pending f) as H. unfold avail.
  destruct (pending f) as [|c l] eqn:E.
  - exists EOF, f. split; [assumption|]. right. auto.
  - destruct H as (f' & H1 & H2). exists c, f'. split; [assumption|].
    left. rewrite H2. reflexivity.
Qed.

Lemma ungetc_pending (c : Z) (f : inputFile) :
  exists f', ungetcToInputFile c f = Some (tt, f') /\ pending f' = c :: pending f.
Proof.
  eexists. split; [reflexivity|]. reflexivity.
Qed.

(** ** More fuel never changes a result *)

Lemma le_res_refl {A : Type} (m : M A) : le_res m m.
Proof. intros f r H. exact H. Qed.

Lemma le_res_out_of_fuel {A : Type} (m : M A) : le_res out_of_fuel m.
Proof. intros f r H. discriminate H. Qed.

Lemma le_res_bind {A B : Type} (m m' : M A) (k k' : A -> M B) :
  le_res m m' -> (forall a, le_res (k a) (k' a)) ->
  le_res (bind m k) (bind m' k').
Proof.
  intros Hm Hk f r. unfold bind.
  destruct (m f) as [[a f1]|] eqn:E; [|discriminate].
  rewrite (Hm _ _ E). apply Hk.
Qed.

Create HintDb fuel discriminated.
Create HintDb reading discriminated.

#[local] Hint Resolve le_res_refl le_res_out_of_fuel le_res_bind : fuel.

Ltac fuel_cases :=
  repeat match goal with
    | |- le_res (if ?c then _ else _) (if ?c then _ else _) => destruct c
    | |- le_res (match ?x with _ => _ end) (match ?x with _ => _ end) =>
        destruct x
    | |- le_res (bind _ _) (bind _ _) => apply le_res_bind
    | |- forall _, _ => intro
    end;
  auto with fuel.

Ltac fuel_induction n :=
  induction n as [|n IH]; intros;
  [ apply le_res_out_of_fuel
  | match goal with
    | H : (S n <= ?n')%nat |- _ =>
        destruct n' as [|n']; [lia|];
        assert (n <= n')%nat by lia; simpl; fuel_cases
    end ].

Lemma parse_number_integral_mono (n : nat) :
  forall n' b, (n <= n')%nat ->
    le_res (parse_number_integral n b) (parse_number_integral n' b).
Proof. fuel_induction n. Qed.

Lemma parse_number_fraction_mono (n : nat) :
  forall n' b, (n <= n')%nat ->
    le_res (parse_number_fraction n b) (parse_number_fraction n' b).
Proof. fuel_induction n. Qed.

Lemma parse_token_first_mono (n : nat) :
  forall n', (n <= n')%nat ->
    le_res (parse_token_first n) (parse_token_first n').
Proof. fuel_induction n. Qed.

Lemma parse_token_word_mono (n : nat) :
  forall n' b, (n <= n')%nat ->
    le_res (parse_token_word n b) (parse_token_word n' b).
Proof. fuel_induction n. Qed.

Lemma skip_comment_block_loop_mono (n : nat) :
  forall n' c, (n <= n')%nat ->
    le_res (skip_comment_block_loop n c) (skip_comment_block_loop n' c).
Proof. fuel_induction n. Qed.

Lemma skip_until_eol_mono (n : nat) :
  forall n', (n <= n')%nat -> le_res (skip_until_eol n) (skip_until_eol n').
Proof. fuel_induction n. Qed.

Lemma skip_comment_block_mono (n n' : nat) :
  (n <= n')%nat -> le_res (skip_comment_block n) (skip_comment_block n').
Proof. apply skip_comment_block_loop_mono. Qed.

#[local] Hint Resolve parse_number_integral_mono parse_number_fraction_mono
  parse_token_first_mono parse_token_word_mono skip_until_eol_mono
  skip_comment_block_mono : fuel.

Lemma parse_number_mono (n n' : nat) (t : Token) :
  (n <= n')%nat -> le_res (parse_number n t) (parse_number n' t).
Proof. intros. unfold parse_number. fuel_cases. Qed.

#[local] Hint Resolve parse_number_mono : fuel.

Lemma parse_token_mono (n n' : nat) :
  (n <= n')%nat -> le_res (parse_token n) (parse_token n').
Proof. intros. unfold parse_token. fuel_cases. Qed.

Lemma skip_open_close_loop_mono (n : nat) :
  forall n' e k, (n <= n')%nat ->
    le_res (skip_open_close_loop n e k) (skip_open_close_loop n' e k).
Proof.
  induction n as [|n IH]; intros n' e k Hle; [apply le_res_out_of_fuel|].
  destruct n' as [|n']; [lia|].
  assert (n <= n')%nat by lia. simpl. fuel_cases.
Qed.

Lemma skip_open_close_mono (n n' : nat) (e : Z) :
  (n <= n')%nat -> le_res (skip_open_close n e) (skip_open_close n' e).
Proof. apply skip_open_close_loop_mono. Qed.

#[local] Hint Resolve parse_token_mono skip_open_close_mono : fuel.

Lemma le_resD_refl {A : Type} (m : D A) : le_resD m m.
Proof. intros f calls r H. exact H. Qed.

Lemma le_resD_out_of_fuel {A : Type} (m : D A) : le_resD out_of_fuelD m.
Proof. intros f calls r H. discriminate H. Qed.

Lemma le_resD_lift {A : Type} (m m' : M A) :
  le_res m m' -> le_resD (lift m) (lift m').
Proof.
  intros Hm f calls r H. unfold lift in *.
  inversion H as [[H1 H2]]. rewrite H2. rewrite (Hm _ _ H2). reflexivity.
Qed.

Lemma le_resD_bind {A B : Type} (m m' : D A) (k k' : A -> D B) :
  le_resD m m' -> (forall a, le_resD (k a) (k' a)) ->
  le_resD (bindD m k) (bindD m' k').
Proof.
  intros Hm Hk f calls r. unfold bindD.
  destruct (m f) as [c [[a f1]|]] eqn:E; [|discriminate].
  rewrite (Hm _ _ _ E).
  destruct (k a f1) as [c' [r'|]] eqn:E'; [|discriminate].
  rewrite (Hk _ _ _ _ E'). trivial.
Qed.

#[local] Hint Resolve le_resD_refl le_resD_out_of_fuel le_resD_lift
  le_resD_bind : fuel.

Ltac fuel_casesD :=
  repeat match goal with
    | |- le_resD (match ?x with _ => _ end) (match ?x with _ => _ end) =>
        destruct x
    | |- le_resD (bindD _ _) (bindD _ _) => apply le_resD_bind
    | |- le_resD (lift _) (lift _) => apply le_resD_lift
    | |- forall _, _ => intro
    end;
  auto with fuel.

Lemma find_kotlin_tags_dispatch_mono (n n' : nat) (t : Token) :
  (n <= n')%nat ->
  le_resD (find_kotlin_tags_dispatch n t) (find_kotlin_tags_dispatch n' t).
Proof. intros. unfold find_kotlin_tags_dispatch. fuel_casesD. Qed.

#[local] Hint Resolve find_kotlin_tags_dispatch_mono : fuel.

Lemma find_kotlin_tags_mono (n : nat) :
  forall n', (n <= n')%nat -> le_resD (find_kotlin_tags n) (find_kotlin_tags n').
Proof.
  induction n as [|n IH]; intros n' Hle; [apply le_resD_out_of_fuel|].
  destruct n' as [|n']; [lia|].
  assert (n <= n')%nat by lia.
  cbn [find_kotlin_tags]. fuel_casesD.
Qed.

(** A run that returns is the same run at every fuel for which it returns. *)
Lemma find_kotlin_tags_stable (n n' : nat) (f : inputFile) calls calls' r r' :
  find_kotlin_tags n f = (calls, Some r) ->
  find_kotlin_tags n' f = (calls', Some r') ->
  calls' = calls /\ r' = r.
Proof.
  intros H H'.
  apply (find_kotlin_tags_mono n (Nat.max n n')) in H; [|lia].
  apply (find_kotlin_tags_mono n' (Nat.max n n')) in H'; [|lia].
  rewrite H in H'. inversion H'. auto.
Qed.

(** ** Enough fuel gives a result *)

Lemma bind_eq {A B : Type} (m : M A) (k : A -> M B) f a f' :
  m f = Some (a, f') -> bind m k f = k a f'.
Proof. intros H. unfold bind. rewrite H. reflexivity. Qed.

Lemma after_eol_length (l : list Z) :
  (List.length (after_eol l) <= List.length l)%nat.
Proof.
  induction l as [|c l IH]; simpl; [lia|].
  destruct ((c =? EOF) || (c =? chr "010")); lia.
Qed.

Lemma skip_until_eol_total (fuel : nat) :
  forall f, (avail f < fuel)%nat ->
    exists f', skip_until_eol fuel f = Some (tt, f')
      /\ pending f' = after_eol (pending f).
Proof.
  induction fuel as [|fuel IH]; intros f Hlt; [lia|].
  cbn [skip_until_eol]. unfold avail in Hlt.
  pose proof (getc_pending f) as Hg.
  destruct (pending f) as [|c l] eqn:E.
  - rewrite (bind_eq _ _ _ _ _ Hg). simpl. exists f. auto.
  - destruct Hg as (f1 & Hg & Hp). rewrite (bind_eq _ _ _ _ _ Hg).
    cbn [after_eol].
    destruct ((c =? EOF) || (c =? chr "010")).
    + exists f1. auto.
    + destruct (IH f1) as (f' & H1 & H2).
      * unfold avail. rewrite Hp. simpl in Hlt. lia.
      * exists f'. rewrite <- Hp. auto.
Qed.

Lemma parse_number_integral_total (fuel : nat) :
  forall b f, (avail f < fuel)%nat ->
    exists r f', parse_number_integral fuel b f = Some (r, f')
      /\ (avail f' <= Nat.max (avail f) 1)%nat
      /\ (snd r = 0 -> (avail f' <= avail f)%nat).
Proof.
  induction fuel as [|fuel IH]; intros b f Hlt; [lia|].
  cbn [parse_number_integral].
  destruct (getc_total f) as (ch & f1 & Hg & Hc).
  rewrite (bind_eq _ _ _ _ _ Hg).
  assert (Hrec : forall b', exists r f',
             (parse_number_integral fuel b' f1 = Some (r, f')
              \/ (ch = EOF /\ avail f = O))
             /\ (avail f' <= Nat.max (avail f) 1)%nat
             /\ (snd r = 0 -> (avail f' <= avail f)%nat)).
  { intros b'. destruct Hc as [Hc|(H0 & He & Hf)].
    - destruct (IH b' f1) as (r & f' & H1 & H2 & H3); [lia|].
      exists r, f'. split; [auto|]. split; [lia|]. intros Hr.
      specialize (H3 Hr). lia.
    - exists (b', 0), f. split; [auto|]. split; lia. }
  destruct ((ch >=? chr "0") && (ch <=? chr "9")) eqn:Ed.
  { destruct (Hrec (vStringPut b ch)) as (r & f' & [H1|[He _]] & H2).
    - eauto.
    - subst ch. discriminate Ed. }
  destruct (ch =? chr "_") eqn:Eu.
  { destruct (Hrec (vStringPut b ch)) as (r & f' & [H1|[He _]] & H2).
    - eauto.
    - subst ch. discriminate Eu. }
  destruct (ch =? chr ".") eqn:Ep.
  { eexists _, f1. split; [reflexivity|].
    destruct Hc as [?|(? & ? & ?)]; subst; split; intros; lia. }
  eexists _, _. split; [reflexivity|].
  split; [|simpl; intros; lia].
  unfold avail, pending in *. simpl.
  destruct Hc as [?|(? & ? & ?)]; subst; simpl; lia.
Qed.

Lemma parse_number_fraction_total (fuel : nat) :
  forall b f, (avail f < fuel)%nat ->
    exists r f', parse_number_fraction fuel b f = Some (r, f')
      /\ (avail f' <= Nat.max (avail f) 1)%nat.
Proof.
  induction fuel as [|fuel IH]; intros b f Hlt; [lia|].
  cbn [parse_number_fraction].
  destruct (getc_total f) as (ch & f1 & Hg & Hc).
  rewrite (bind_eq _ _ _ _ _ Hg).
  assert (Hrec : forall b', exists r f',
             (parse_number_fraction fuel b' f1 = Some (r, f')
              \/ (ch = EOF /\ avail f = O))
             /\ (avail f' <= Nat.max (avail f) 1)%nat).
  { intros b'. destruct Hc as [Hc|(H0 & He & Hf)].
    - destruct (IH b' f1) as (r & f' & H1 & H2); [lia|].
      exists r, f'. split; [auto|lia].
    - exists b', f. split; [auto|lia]. }
  destruct ((ch >=? chr "0") && (ch <=? chr "9")) eqn:Ed.
  { destruct (Hrec (vStringPut b ch)) as (r & f' & [H1|[He _]] & H2).
    - eauto.
    - subst ch. discriminate Ed. }
  destruct (ch =? chr "_") eqn:Eu.
  { destruct (Hrec (vStringPut b ch)) as (r & f' & [H1|[He _]] & H2).
    - eauto.
    - subst ch. discriminate Eu. }
  destruct (ch =? chr "f") eqn:Ep.
  { eexists _, f1. split; [reflexivity|]. destruct Hc as [?|(? & ? & ?)]; subst; lia. }
  eexists _, _. split; [reflexivity|].
  unfold avail, pending in *. simpl.
  destruct Hc as [?|(? & ? & ?)]; subst; simpl; lia.
Qed.

Lemma parse_number_total (fuel : nat) (t : Token) (f : inputFile) :
  (avail f < fuel)%nat ->
  exists t' f', parse_number fuel t f = Some (t', f')
    /\ token t' = token_number
    /\ (avail f' <= Nat.max (avail f) 1)%nat.
Proof.
  intros Hlt. unfold parse_number.
  destruct (parse_number_integral_total fuel (buffer t) f Hlt)
    as ([b e] & f1 & H1 & H2 & H2').
  rewrite (bind_eq _ _ _ _ _ H1). cbn [fst snd] in *.
  destruct (e =? 0) eqn:Ee.
  - destruct (parse_number_fraction_total fuel b f1) as (b' & f2 & H3 & H4).
    + assert (e = 0) as He by lia. specialize (H2' He). lia.
    + rewrite (bind_eq _ _ _ _ _ H3). eexists _, _.
      split; [reflexivity|]. split; [reflexivity|lia].
  - eexists _, _. split; [reflexivity|]. split; [reflexivity|lia].
Qed.

Lemma parse_token_first_total (fuel : nat) :
  forall f, (avail f < fuel)%nat ->
    exists r f', parse_token_first fuel f = Some (r, f')
      /\ match r with
         | None => (avail f' <= avail f)%nat
         | Some first => (S (avail f') <= avail f)%nat /\ first <> EOF
         end.
Proof.
  induction fuel as [|fuel IH]; intros f Hlt; [lia|].
  cbn [parse_token_first].
  destruct (getc_total f) as (ch & f1 & Hg & Hc).
  rewrite (bind_eq _ _ _ _ _ Hg).
  destruct ((ch =? chr " ") || (ch =? chr "013") || (ch =? chr "010")
            || (ch =? chr "009")) eqn:Eb.
  - destruct Hc as [Hc|(H0 & He & Hf)]; [|subst ch; discriminate Eb].
    destruct (IH f1) as (r & f' & H1 & H2); [lia|].
    exists r, f'. split; [assumption|]. destruct r; lia.
  - destruct (ch =? EOF) eqn:Ee.
    + exists None, f1. split; [reflexivity|].
      destruct Hc as [?|(? & ? & ?)]; subst; lia.
    + exists (Some ch), f1. split; [reflexivity|].
      destruct Hc as [?|(? & ? & ?)]; [|subst; discriminate Ee].
      split; lia.
Qed.

Lemma parse_token_word_total (fuel : nat) :
  forall b f, (avail f < fuel)%nat ->
    exists b' f', parse_token_word fuel b f = Some (b', f')
      /\ (avail f' <= avail f)%nat.
Proof.
  induction fuel as [|fuel IH]; intros b f Hlt; [lia|].
  cbn [parse_token_word].
  destruct (getc_total f) as (ch & f1 & Hg & Hc).
  rewrite (bind_eq _ _ _ _ _ Hg).
  destruct (ch =? EOF) eqn:Ee.
  - exists b, f1. split; [reflexivity|].
    destruct Hc as [?|(? & ? & ?)]; subst; lia.
  - destruct Hc as [Hc|(? & ? & ?)]; [|subst; discriminate Ee].
    destruct (is_delimiter ch).
    + eexists _, _. split; [reflexivity|].
      unfold avail, pending in *. simpl. lia.
    + destruct (IH (vStringPut b ch) f1) as (b' & f' & H1 & H2); [lia|].
      exists b', f'. split; [assumption|lia].
Qed.

Lemma parse_token_total (fuel : nat) (f : inputFile) :
  (avail f < fuel)%nat ->
  exists t f', parse_token fuel f = Some (t, f') /\ (avail f' <= avail f)%nat.
Proof.
  intros Hlt. unfold parse_token.
  cbv [getInputLineNumber getInputFilePosition].
  unfold bind at 1 2.
  destruct (parse_token_first_total fuel f Hlt) as (r & f1 & H1 & H2).
  rewrite (bind_eq _ _ _ _ _ H1).
  destruct r as [first|].
  2:{ eexists _, _. split; [reflexivity|assumption]. }
  destruct H2 as [H2 Hne]. unfold bind at 1 2.
  destruct (single_char_token first).
  { eexists _, _. split; [reflexivity|lia]. }
  destruct (first =? chr "/").
  { destruct (getc_total f1) as (second & f2 & Hg & Hc).
    rewrite (bind_eq _ _ _ _ _ Hg).
    destruct (second =? chr "/"); [|destruct (second =? chr "*")];
      try (eexists _, _; split; [reflexivity|];
           destruct Hc as [?|(? & ? & ?)]; subst; lia).
    eexists _, _. split; [reflexivity|].
    unfold avail, pending in *. simpl.
    destruct Hc as [?|(? & ? & ?)]; subst; simpl; lia. }
  destruct ((first >=? chr "0") && (first <=? chr "9")).
  { match goal with
    | |- context [parse_number fuel ?t f1] =>
        destruct (parse_number_total fuel t f1) as (t' & f' & H3 & _ & H4);
        [lia|]
    end.
    exists t', f'. split; [assumption|lia]. }
  match goal with
  | |- context [parse_token_word fuel ?b] =>
      destruct (parse_token_word_total fuel b f1) as (b' & f' & H3 & H4);
      [lia|]
  end.
  rewrite (bind_eq _ _ _ _ _ H3). cbn [keyword set_keyword].
  destruct (lookupKeyword b');
    (eexists _, _; split; [reflexivity|lia]).
Qed.

(** ** How the lexer classifies *)

Lemma bind_Some_inv {A B : Type} (m : M A) (k : A -> M B) f r :
  bind m k f = Some r -> exists a f1, m f = Some (a, f1) /\ k a f1 = Some r.
Proof.
  unfold bind. destruct (m f) as [[a f1]|]; [|discriminate].
  intros H. exists a, f1. auto.
Qed.

Lemma single_char_token_kind (first : Z) (k : TokenType) :
  single_char_token first = Some k ->
  k <> token_identifier /\ k <> token_keyword.
Proof.
  unfold single_char_token.
  repeat match goal with
         | |- context [if ?c then _ else _] => destruct c
         end;
    intros H; inversion H; subst; split; discriminate.
Qed.

Lemma parse_number_kind (fuel : nat) (t t' : Token) (f f' : inputFile) :
  parse_number fuel t f = Some (t', f') ->
  token t' = token_number /\ keyword t' = keyword t.
Proof.
  unfold parse_number. intros H.
  apply bind_Some_inv in H. destruct H as (r & f1 & _ & H).
  apply bind_Some_inv in H. destruct H as (b & f2 & _ & H).
  inversion H; subst. auto.
Qed.

Lemma parse_token_kind (fuel : nat) (f f' : inputFile) (t : Token) :
  parse_token fuel f = Some (t, f') ->
  identifier_token t \/ keyword_token t \/ plain_token t.
Proof.
  unfold parse_token. cbv [getInputLineNumber getInputFilePosition].
  unfold bind at 1 2. intros H.
  apply bind_Some_inv in H. destruct H as ([first|] & f1 & _ & H).
  2:{ inversion H; subst. right. right. repeat split; discriminate. }
  unfold bind at 1 2 in H.
  destruct (single_char_token first) as [k|] eqn:Ek.
  { inversion H; subst. right. right.
    destruct (single_char_token_kind _ _ Ek). repeat split; assumption. }
  destruct (first =? chr "/").
  { apply bind_Some_inv in H. destruct H as (second & f2 & _ & H).
    destruct (second =? chr "/"); [|destruct (second =? chr "*")];
      inversion H; subst; right; right; repeat split; discriminate. }
  destruct ((first >=? chr "0") && (first <=? chr "9")).
  { apply parse_number_kind in H. destruct H as [H1 H2].
    right. right. unfold plain_token. rewrite H1, H2.
    repeat split; discriminate. }
  apply bind_Some_inv in H. destruct H as (b & f2 & _ & H).
  cbn [keyword set_keyword] in H.
  destruct (lookupKeyword b) as [k|] eqn:El; inversion H; subst.
  - right. left. unfold keyword_token.
    cbn [token keyword buffer set_token set_keyword set_buffer set_location].
    rewrite El. repeat split; discriminate.
  - left. unfold identifier_token.
    cbn [token keyword buffer set_token set_keyword set_buffer set_location].
    auto.
Qed.

Lemma lookupKeyword_val (b : string) :
  lookupKeyword b = Some keyword_val <-> b = "val".
Proof.
  split.
  - unfold lookupKeyword, KotlinKeywordTable. cbn [lookupKeywordIn].
    repeat match goal with
           | |- context [String.eqb b ?s] =>
               let E := fresh "E" in
               destruct (String.eqb b s) eqn:E;
               [ first [ discriminate
                       | intros _; apply String.eqb_eq; exact E ] | ]
           end.
    discriminate.
  - intros ->. reflexivity.
Qed.

(** A token read by [parse_token] carries the code of [val] exactly when it
    is the keyword spelled [val]. *)
Lemma parse_token_val (fuel : nat) (f f' : inputFile) (t : Token) :
  parse_token fuel f = Some (t, f') ->
  (keyword t = Some keyword_val <->
   token t = token_keyword /\ buffer t = "val").
Proof.
  intros H. destruct (parse_token_kind _ _ _ _ H)
    as [(H1 & H2 & H3)|[(H1 & H2 & H3)|(H1 & H2 & H3)]].
  - split.
    + rewrite H2. discriminate.
    + rewrite H1. intros [? _]. discriminate.
  - split.
    + rewrite H3. intros Hv. apply lookupKeyword_val in Hv. auto.
    + intros [_ Hb]. rewrite H3. apply lookupKeyword_val. assumption.
  - split.
    + rewrite H3. discriminate.
    + intros [Hk _]. contradiction.
Qed.

(** ** What the recognizer hands to the tag sink *)

Section Emits.

Variable P : tagCall -> Prop.

Lemma emits_retD {A : Type} (a : A) : emits P (retD a).
Proof. intros f. constructor. Qed.

Lemma emits_lift {A : Type} (m : M A) : emits P (lift m).
Proof. intros f. constructor. Qed.

Lemma emits_out_of_fuelD {A : Type} : emits P (@out_of_fuelD A).
Proof. intros f. constructor. Qed.

Lemma emits_make_tag_entry (t : Token) (k : DeclarationKind) :
  P (t, k) -> emits P (make_tag_entry t k).
Proof. intros H f. constructor; [assumption|constructor]. Qed.

Lemma emits_bindD {A B : Type} (Q : A -> Prop) (m : D A) (k : A -> D B) :
  emits P m -> postD Q m -> (forall a, Q a -> emits P (k a)) ->
  emits P (bindD m k).
Proof.
  intros Hm Hq Hk f. unfold bindD.
  specialize (Hm f).
  destruct (m f) as [calls [[a f1]|]] eqn:E; [|exact Hm].
  specialize (Hk a (Hq _ _ _ _ E) f1).
  destruct (k a f1) as [calls' r]. cbn [fst] in *.
  apply Forall_app. auto.
Qed.

Lemma postD_any {A : Type} (m : D A) : postD (fun _ => True) m.
Proof. intros f calls a f' _. exact I. Qed.

Lemma postD_retD {A : Type} (Q : A -> Prop) (a : A) : Q a -> postD Q (retD a).
Proof. intros H f calls a' f' E. inversion E; subst. assumption. Qed.

Lemma postD_lift {A : Type} (Q : A -> Prop) (m : M A) :
  (forall f a f', m f = Some (a, f') -> Q a) -> postD Q (lift m).
Proof. intros H f calls a f' E. inversion E. eauto. Qed.

Lemma postD_bindD {A B : Type} (Q : B -> Prop) (m : D A) (k : A -> D B) :
  (forall a, postD Q (k a)) -> postD Q (bindD m k).
Proof.
  intros Hk f calls b f'. unfold bindD.
  destruct (m f) as [c [[a f1]|]]; [|discriminate].
  destruct (k a f1) as [c' r] eqn:E. intros H. inversion H; subst.
  exact (Hk _ _ _ _ _ E).
Qed.

End Emits.

Lemma parse_token_lexed (fuel : nat) (f f' : inputFile) (t : Token) :
  parse_token fuel f = Some (t, f') -> lexed t.
Proof.
  intros H Hi. destruct (parse_token_kind _ _ _ _ H)
    as [H1|[(H1 & _)|(H1 & _)]]; [assumption| |contradiction].
  rewrite Hi in H1. discriminate.
Qed.

Ltac emits_step :=
  match goal with
  | |- emits _ (retD _) => apply emits_retD
  | |- emits _ (lift _) => apply emits_lift
  | |- emits _ out_of_fuelD => apply emits_out_of_fuelD
  | |- emits _ (make_tag_entry _ _) =>
      apply emits_make_tag_entry; unfold identifier_call; cbn [fst]; auto
  | |- emits _ (bindD (lift (parse_token _)) _) =>
      apply (emits_bindD _ lexed);
      [ apply emits_lift
      | apply postD_lift; intros ? ? ?; apply parse_token_lexed
      | intros ? ? ]
  | |- emits _ (bindD _ _) =>
      apply (emits_bindD _ (fun _ => True)); [ | apply postD_any | intros ? _ ]
  | |- emits _ (match ?x with _ => _ end) => destruct x eqn:?
  end.

Lemma find_kotlin_tags_dispatch_emits (fuel : nat) (t : Token) :
  emits identifier_call (find_kotlin_tags_dispatch fuel t).
Proof.
  unfold find_kotlin_tags_dispatch.
  destruct (token t); try apply emits_retD; try apply emits_lift.
  destruct (keyword t) as [[]|]; try solve [repeat emits_step].
  (* the [fun] branch: the candidate is the next token or the one after
     the type parameters *)
  apply (emits_bindD _ lexed);
    [ apply emits_lift
    | apply postD_lift; intros ? ? ?; apply parse_token_lexed
    | intros t1 Ht1 ].
  apply (emits_bindD _ lexed).
  - repeat emits_step.
  - destruct (token t1); try (apply postD_retD; assumption).
    apply postD_bindD. intros _. apply postD_lift.
    intros ? ? ?; apply parse_token_lexed.
  - intros t2 Ht2. repeat emits_step.
Qed.

(** C1.  Whatever the input and however far the run gets, every call of
    [make_tag_entry] made by [find_kotlin_tags] passes a token whose kind is
    [token_identifier]: its keyword lookup failed, so it is no keyword, and
    no token of another kind is passed.  The name of the tag record is the
    text of that token. *)
Theorem tag_names_are_identifier_tokens (fuel : nat) (f : inputFile) :
  Forall (fun c : tagCall =>
            token (fst c) = token_identifier
            /\ keyword (fst c) = None
            /\ lookupKeyword (buffer (fst c)) = None
            /\ name (entry_of_call c) = buffer (fst c))
         (fst (find_kotlin_tags fuel f)).
Proof.
  assert (H : emits identifier_call (find_kotlin_tags fuel)).
  { induction fuel as [|fuel IH]; [apply emits_out_of_fuelD|].
    cbn [find_kotlin_tags].
    apply (emits_bindD _ (fun _ => True));
      [apply emits_lift | apply postD_any | intros t _].
    destruct (token t); try apply emits_retD;
      (apply (emits_bindD _ (fun _ => True));
       [ apply find_kotlin_tags_dispatch_emits
       | apply postD_any
       | intros _ _; exact IH ]). }
  specialize (H f). revert H. apply Forall_impl.
  intros [t k] (H1 & H2 & H3). cbn [fst] in *. auto.
Qed.

(** ** The block comment skipper *)

Lemma has_close_tail (a : Z) (l : list Z) :
  has_close (a :: l) = false -> has_close l = false.
Proof.
  destruct l as [|d l]; [reflexivity|].
  cbn [has_close]. intros H. apply orb_false_iff in H. tauto.
Qed.

Lemma has_close_star (d : Z) (l : list Z) :
  has_close (chr "*" :: d :: l) = false -> (d =? chr "/") = false.
Proof.
  cbn [has_close]. intros H. apply orb_false_iff in H.
  destruct H as [H _]. exact H.
Qed.

(** While no [*/] is left to read, the loop of [skip_comment_block] does not
    return; when the flag is set, the next character is the one after a
    star. *)
Lemma skip_comment_block_loop_unterminated (fuel : nat) :
  forall (c : Z) (f : inputFile),
    has_close (pending f) = false ->
    (c = 1 -> forall d l, pending f = d :: l -> (d =? chr "/") = false) ->
    skip_comment_block_loop fuel c f = None.
Proof.
  induction fuel as [|fuel IH]; intros c f Hno Hflag; [reflexivity|].
  cbn [skip_comment_block_loop].
  pose proof (getc_pending f) as Hg.
  destruct (pending f) as [|a l] eqn:Ef.
  { rewrite (bind_eq _ _ _ _ _ Hg).
    change ((EOF =? chr "*") && (c =? 0)) with false.
    change ((EOF =? chr "/") && (c =? 1)) with false. cbv iota.
    apply IH; [rewrite Ef; reflexivity|]. intros H. discriminate H. }
  destruct Hg as (f1 & Hg & Hp1). rewrite (bind_eq _ _ _ _ _ Hg).
  destruct ((a =? chr "*") && (c =? 0)) eqn:E1.
  - apply andb_true_iff in E1. destruct E1 as [Ea _].
    apply Z.eqb_eq in Ea. subst a.
    pose proof (getc_pending f1) as Hg2. rewrite Hp1 in Hg2.
    destruct l as [|d l'].
    { rewrite (bind_eq _ _ _ _ _ Hg2).
      change (EOF =? chr "/") with false. change (EOF =? chr "*") with false.
      cbv iota.
      apply IH; [rewrite Hp1; reflexivity|]. intros H. discriminate H. }
    destruct Hg2 as (f2 & Hg2 & Hp2). rewrite (bind_eq _ _ _ _ _ Hg2).
    rewrite (has_close_star _ _ Hno).
    pose proof (has_close_tail _ _ (has_close_tail _ _ Hno)) as Hl'.
    destruct (d =? chr "*") eqn:Ed.
    + apply IH; [rewrite Hp2; exact Hl'|].
      intros _ d' l'' Hl. rewrite Hp2 in Hl.
      apply Z.eqb_eq in Ed. rewrite Ed in Hno.
      pose proof (has_close_tail _ _ Hno) as Ht. rewrite Hl in Ht.
      exact (has_close_star _ _ Ht).
    + apply IH; [rewrite Hp2; exact Hl'|]. intros H. discriminate H.
  - destruct ((a =? chr "/") && (c =? 1)) eqn:E2.
    + apply andb_true_iff in E2. destruct E2 as [Ea Ec].
      apply Z.eqb_eq in Ec. rewrite (Hflag Ec a l eq_refl) in Ea.
      discriminate Ea.
    + apply IH; [rewrite Hp1; exact (has_close_tail _ _ Hno)|].
      intros H. discriminate H.
Qed.

(** C2.  [skip_comment_block] has no test for the end of the input: while no
    [*/] is left to read, and so when the input ends inside the comment, it
    returns for no amount of fuel.  ([skip_until_eol_total] gives the return
    of the line skipper, which has the test.) *)
Theorem skip_comment_block_never_returns_unterminated
    (fuel : nat) (f : inputFile) :
  has_close (pending f) = false ->
  skip_comment_block fuel f = None.
Proof.
  intros H. unfold skip_comment_block.
  apply skip_comment_block_loop_unterminated; [exact H|].
  intros H1. discriminate H1.
Qed.

Lemma skip_comment_block_never_returns_unterminated_witness :
  skip_comment_block 1000 (openInputFile " never / closed *") = None.
Proof.
  apply (skip_comment_block_never_returns_unterminated 1000
           (openInputFile " never / closed *")).
  vm_compute. reflexivity.
Defined.

(** The result of a run with a given fuel, by evaluation. *)
Ltac run_at m E :=
  let r := eval vm_compute in m in
  assert (E : m = r) by (vm_compute; reflexivity).

(** The recognizer itself never returns on such an input. *)
Lemma find_kotlin_tags_unterminated_comment (fuel : nat) :
  returns fuel "/* never closed" = false.
Proof.
  unfold returns. destruct fuel as [|fuel]; [reflexivity|].
  cbn [find_kotlin_tags].
  run_at (parse_token 1 (openInputFile "/* never closed")) E.
  apply (parse_token_mono 1 (S fuel)) in E; [|lia].
  unfold bindD at 1. unfold lift at 1. rewrite E.
  cbn [token]. unfold bindD at 1.
  unfold find_kotlin_tags_dispatch. cbn [token]. unfold lift at 1.
  unfold skip_comment_block.
  rewrite skip_comment_block_loop_unterminated;
    [reflexivity | vm_compute; reflexivity | intros H; discriminate H].
Qed.

(** The spec's example of nesting: the comment is closed at the first [*/], the
    opener inside it does not nest. *)
Lemma skip_comment_block_does_not_nest (n : nat) :
  exists f',
    skip_comment_block (19 + n)
      (openInputFile " outer /* inner */ still outer */") = Some (tt, f')
    /\ pending f' = pending (openInputFile " still outer */").
Proof.
  run_at (skip_comment_block 19
            (openInputFile " outer /* inner */ still outer */")) E.
  apply (skip_comment_block_mono 19 (19 + n)) in E; [|lia].
  eexists. split; [exact E|]. reflexivity.
Qed.

(** C7.  A [*/] that ends a run of three stars is passed over: after the
    pair [**] has set the flag, the third star clears it and the [/] that
    follows closes nothing.  Skipping the body of [/****/ x */ y] stops only
    after the second [*/], and the recognizer loses the class declared after
    the first one. *)
Theorem skip_comment_block_passes_over_three_stars (n : nat) :
  (exists f',
     skip_comment_block (8 + n) (openInputFile "***/ x */ y") = Some (tt, f')
     /\ pending f' = pending (openInputFile " y")
     /\ pending f' <> pending (openInputFile " x */ y"))
  /\ (returns (25 + n) "/****/ class Hidden /**/" = true
      /\ tags_of (25 + n) "/****/ class Hidden /**/" = []).
Proof.
  split.
  - run_at (skip_comment_block 8 (openInputFile "***/ x */ y")) E.
    apply (skip_comment_block_mono 8 (8 + n)) in E; [|lia].
    eexists. split; [exact E|]. split; [reflexivity|discriminate].
  - run_at (find_kotlin_tags 25 (openInputFile "/****/ class Hidden /**/")) E.
    apply (find_kotlin_tags_mono 25 (25 + n)) in E; [|lia].
    unfold returns, tags_of. rewrite E. split; reflexivity.
Qed.

(** ** The keyword table *)

Lemma KotlinKeywordTable_not_eighteen :
  List.length KotlinKeywordTable <> 18%nat.
Proof. discriminate. Qed.

(** C8, amended.  The keyword table holds twenty-one reserved words, each
    once: they are the spellings listed in the spec's data model, and the
    lookup finds exactly these. *)
Theorem KotlinKeywordTable_reserved_words :
  List.length KotlinKeywordTable = 21%nat
  /\ NoDup (map fst KotlinKeywordTable)
  /\ (forall w, In w (map fst KotlinKeywordTable) <-> In w spec_reserved_words)
  /\ (forall w, lookupKeyword w <> None <-> In w spec_reserved_words).
Proof.
  split; [reflexivity|]. split.
  { cbn. repeat (constructor; [cbn; intuition discriminate|]). constructor. }
  split.
  { intros w. cbn. intuition. }
  intros w. split.
  - unfold lookupKeyword, KotlinKeywordTable. cbn [lookupKeywordIn].
    repeat match goal with
           | |- context [String.eqb w ?s] =>
               let E := fresh "E" in
               destruct (String.eqb w s) eqn:E;
               [ apply String.eqb_eq in E; subst w; intros _; cbn; tauto | ]
           end.
    intros H. contradiction.
  - intros H. cbn in H.
    repeat (destruct H as [H|H]; [subst w; discriminate|]).
    contradiction.
Qed.

(** ** Runs of the recognizer *)

Lemma reported_unique (text : string) (tags tags' : list tagEntryInfo) :
  reported text tags -> reported text tags' -> tags = tags'.
Proof.
  intros (n & calls & r & H & E) (n' & calls' & r' & H' & E').
  destruct (find_kotlin_tags_stable _ _ _ _ _ _ _ H H') as [Hc _].
  subst. reflexivity.
Qed.

(** A run by evaluation: [fuel] is enough for [text]. *)
Ltac reported_by fuel :=
  match goal with
  | |- reported ?text _ =>
      let r := eval vm_compute in
                 (find_kotlin_tags fuel (openInputFile text)) in
      match r with
      | (?calls, Some ?s) =>
          exists fuel, calls, s; split; vm_compute; reflexivity
      end
  end.

Lemma class_with_body_on_one_line :
  reported "class Foo { fun bar() {} }"
    [ {| name := "Foo"; kind := kind_class;
         lineNumber := 1; filePosition := 7 |} ].
Proof. reported_by 30%nat. Qed.

Lemma class_with_body_on_one_line_no_function_tag :
  ~ (exists tags,
        reported "class Foo { fun bar() {} }" tags
        /\ tag_count kind_class "Foo" tags = 1%nat
        /\ tag_count kind_function "bar" tags = 1%nat).
Proof.
  intros (tags & H & _ & Hbar).
  rewrite (reported_unique _ _ _ H class_with_body_on_one_line) in Hbar.
  discriminate Hbar.
Qed.

(** C3, amended.  On [class Foo { fun bar() {} }] the recognizer reports one
    tag only, the class tag named [Foo]: the rest of the line after the class
    name is skipped, and no function tag is reported. *)
Theorem class_with_body_on_one_line_reports_class_only :
  exists tags,
    reported "class Foo { fun bar() {} }" tags
    /\ map label tags = [ (kind_class, "Foo") ]
    /\ tag_count kind_class "Foo" tags = 1%nat
    /\ kind_count kind_function tags = 0%nat.
Proof.
  eexists. split; [exact class_with_body_on_one_line|].
  repeat split.
Qed.

(** ** The branches of the recognizer *)

Lemma bindD_lift_eq {A B : Type} (m : M A) (k : A -> D B) f a f1 :
  m f = Some (a, f1) -> bindD (lift m) k f = k a f1.
Proof.
  intros H. unfold bindD, lift. rewrite H.
  destruct (k a f1). reflexivity.
Qed.

Lemma bindD_eq {A B : Type} (m : D A) (k : A -> D B) f calls a f1 :
  m f = (calls, Some (a, f1)) ->
  bindD m k f = ((calls ++ fst (k a f1))%list, snd (k a f1)).
Proof.
  intros H. unfold bindD. rewrite H.
  destruct (k a f1). reflexivity.
Qed.

Lemma lift_eq {A : Type} (m : M A) f r :
  m f = Some r -> lift m f = ([], Some r).
Proof. intros H. unfold lift. rewrite H. reflexivity. Qed.

(** The [const] branch, under fuel enough for what is left to read. *)
Lemma const_branch (fuel : nat) (t : Token) (f : inputFile) :
  token t = token_keyword ->
  keyword t = Some modifier_const ->
  (avail f < fuel)%nat ->
  exists t1 f1 t2 f2 calls f',
    parse_token fuel f = Some (t1, f1)
    /\ parse_token fuel f1 = Some (t2, f2)
    /\ find_kotlin_tags_dispatch fuel t f = (calls, Some (tt, f'))
    /\ ((token t1 = token_keyword /\ buffer t1 = "val"
         /\ token t2 = token_identifier
         /\ calls = [(t2, kind_const)]
         /\ pending f' = after_eol (pending f2))
        \/ (token t1 = token_keyword /\ buffer t1 = "val"
            /\ token t2 <> token_identifier
            /\ calls = []
            /\ pending f' = after_eol (pending f2))
        \/ (~ (token t1 = token_keyword /\ buffer t1 = "val")
            /\ calls = []
            /\ pending f' = after_eol (pending f1))).
Proof.
  intros Ht Hk Hlt.
  destruct (parse_token_total fuel f Hlt) as (t1 & f1 & E1 & A1).
  destruct (parse_token_total fuel f1) as (t2 & f2 & E2 & A2); [lia|].
  destruct (skip_until_eol_total fuel f1) as (g1 & S1 & P1); [lia|].
  destruct (skip_until_eol_total fuel f2) as (g2 & S2 & P2); [lia|].
  pose proof (parse_token_val _ _ _ _ E1) as Hval.
  exists t1, f1, t2, f2.
  unfold find_kotlin_tags_dispatch. rewrite Ht, Hk.
  rewrite (bindD_lift_eq _ _ _ _ _ E1).
  assert (Hother :
            keyword t1 <> Some keyword_val ->
            exists calls f',
              (retD tt ;;; lift (skip_until_eol fuel)) f1
                = (calls, Some (tt, f'))
              /\ (~ (token t1 = token_keyword /\ buffer t1 = "val")
                  /\ calls = [] /\ pending f' = after_eol (pending f1))).
  { intros Hn. exists [], g1. split.
    - unfold bindD, retD. rewrite (lift_eq _ _ _ S1). reflexivity.
    - split; [|auto]. intros H. apply Hn. apply Hval. exact H. }
  destruct (keyword t1) as [[]|] eqn:Ek;
    try (destruct (Hother ltac:(discriminate)) as (calls & f' & H1 & H2);
         exists calls, f';
         split; [assumption|]; split; [assumption|]; split; [exact H1|];
         right; right; exact H2).
  assert (Hv : token t1 = token_keyword /\ buffer t1 = "val")
    by (apply Hval; reflexivity).
  destruct Hv as [Hv1 Hv2].
  destruct (token t2) eqn:Et2;
    try (exists [], g2; split; [assumption|]; split; [assumption|];
         split;
         [ unfold bindD at 1; rewrite (bindD_lift_eq _ _ _ _ _ E2);
           rewrite Et2; unfold retD; rewrite (lift_eq _ _ _ S2); reflexivity
         | right; left; repeat split; auto; discriminate ]).
  exists [(t2, kind_const)], g2. split; [assumption|]. split; [assumption|].
  split.
  - unfold bindD at 1. rewrite (bindD_lift_eq _ _ _ _ _ E2).
    rewrite Et2. unfold make_tag_entry. rewrite (lift_eq _ _ _ S2).
    reflexivity.
  - left. repeat split; auto.
Qed.

Lemma const_val_MAX :
  reported "const val MAX = 100"
    [ {| name := "MAX"; kind := kind_const;
         lineNumber := 1; filePosition := 11 |} ].
Proof. reported_by 30%nat. Qed.

Lemma val_MAX : reported "val MAX = 100" [].
Proof. reported_by 30%nat. Qed.

(** C4.  After a [const] keyword the recognizer reads the next token and,
    only when that one is the keyword [val], one more; it reports a const
    tag, for that last token, exactly when the first is the keyword [val] and
    the second an identifier.  In every case it then skips to the end of the
    line it has reached.  So [const val MAX = 100] gives one const tag, named
    [MAX], and [val MAX = 100] gives no const tag. *)
Theorem const_tag_iff_val_then_identifier :
  (forall (fuel : nat) (t : Token) (f : inputFile),
      token t = token_keyword ->
      keyword t = Some modifier_const ->
      (avail f < fuel)%nat ->
      exists t1 f1 t2 f2 calls f',
        parse_token fuel f = Some (t1, f1)
        /\ parse_token fuel f1 = Some (t2, f2)
        /\ find_kotlin_tags_dispatch fuel t f = (calls, Some (tt, f'))
        /\ ((token t1 = token_keyword /\ buffer t1 = "val"
             /\ token t2 = token_identifier
             /\ calls = [(t2, kind_const)]
             /\ pending f' = after_eol (pending f2))
            \/ (token t1 = token_keyword /\ buffer t1 = "val"
                /\ token t2 <> token_identifier
                /\ calls = []
                /\ pending f' = after_eol (pending f2))
            \/ (~ (token t1 = token_keyword /\ buffer t1 = "val")
                /\ calls = []
                /\ pending f' = after_eol (pending f1))))
  /\ (exists tags,
         reported "const val MAX = 100" tags
         /\ map label tags = [ (kind_const, "MAX") ])
  /\ (exists tags,
         reported "val MAX = 100" tags
         /\ kind_count kind_const tags = 0%nat).
Proof.
  split; [exact const_branch|]. split.
  - eexists. split; [exact const_val_MAX|reflexivity].
  - eexists. split; [exact val_MAX|reflexivity].
Qed.

Lemma const_tag_iff_val_then_identifier_witness :
  exists t1 f1 t2 f2 calls f',
    parse_token 30 (openInputFile " val MAX = 100") = Some (t1, f1)
    /\ parse_token 30 f1 = Some (t2, f2)
    /\ find_kotlin_tags_dispatch 30 const_keyword_token
         (openInputFile " val MAX = 100") = (calls, Some (tt, f'))
    /\ ((token t1 = token_keyword /\ buffer t1 = "val"
         /\ token t2 = token_identifier
         /\ calls = [(t2, kind_const)]
         /\ pending f' = after_eol (pending f2))
        \/ (token t1 = token_keyword /\ buffer t1 = "val"
            /\ token t2 <> token_identifier
            /\ calls = []
            /\ pending f' = after_eol (pending f2))
        \/ (~ (token t1 = token_keyword /\ buffer t1 = "val")
            /\ calls = []
            /\ pending f' = after_eol (pending f1))).
Proof.
  apply (proj1 const_tag_iff_val_then_identifier 30%nat const_keyword_token
           (openInputFile " val MAX = 100")).
  - reflexivity.
  - reflexivity.
  - vm_compute. lia.
Defined.

(** ** Reading never gives characters back beyond what it took *)

Lemma shrinks_ret {A : Type} (a : A) : shrinks (ret a).
Proof. intros f a' f' H. inversion H; subst. lia. Qed.

Lemma shrinks_out_of_fuel {A : Type} : shrinks (@out_of_fuel A).
Proof. intros f a f' H. discriminate H. Qed.

Lemma shrinks_getc : shrinks getcFromInputFile.
Proof.
  intros f a f' H. destruct (getc_total f) as (ch & f1 & Hg & Hc).
  rewrite Hg in H. inversion H; subst.
  destruct Hc as [?|(? & ? & ?)]; subst; lia.
Qed.

Lemma shrinks_bind {A B : Type} (m : M A) (k : A -> M B) :
  shrinks m -> (forall a, shrinks (k a)) -> shrinks (bind m k).
Proof.
  intros Hm Hk f b f' H. apply bind_Some_inv in H.
  destruct H as (a & f1 & H1 & H2).
  specialize (Hm _ _ _ H1). specialize (Hk _ _ _ _ H2). lia.
Qed.

#[local] Hint Resolve shrinks_ret shrinks_out_of_fuel shrinks_getc
  shrinks_bind : fuel.

Ltac shrinks_cases :=
  repeat match goal with
    | |- shrinks (if ?c then _ else _) => destruct c
    | |- shrinks (bind _ _) => apply shrinks_bind
    | |- forall _, _ => intro
    end;
  auto with fuel.

Lemma skip_until_eol_shrinks (fuel : nat) : shrinks (skip_until_eol fuel).
Proof.
  induction fuel as [|fuel IH]; cbn [skip_until_eol]; shrinks_cases.
Qed.

Lemma skip_comment_block_loop_shrinks (fuel : nat) :
  forall c, shrinks (skip_comment_block_loop fuel c).
Proof.
  induction fuel as [|fuel IH]; intros c; cbn [skip_comment_block_loop];
    shrinks_cases.
Qed.

Lemma skip_comment_block_shrinks (fuel : nat) :
  shrinks (skip_comment_block fuel).
Proof. apply skip_comment_block_loop_shrinks. Qed.

#[local] Hint Resolve skip_until_eol_shrinks skip_comment_block_shrinks : fuel.

Lemma skip_open_close_loop_shrinks (fuel : nat) :
  forall e n, shrinks (skip_open_close_loop fuel e n).
Proof.
  induction fuel as [|fuel IH]; intros e n; cbn [skip_open_close_loop];
    shrinks_cases.
Qed.

Lemma skip_open_close_shrinks (fuel : nat) (e : Z) :
  shrinks (skip_open_close fuel e).
Proof. apply skip_open_close_loop_shrinks. Qed.

Lemma parse_token_shrinks (fuel : nat) : shrinks (parse_token fuel).
Proof.
  intros f t f' H.
  destruct (parse_token_total (Nat.max fuel (S (avail f))) f)
    as (t' & f'' & H1 & H2); [lia|].
  apply (parse_token_mono fuel (Nat.max fuel (S (avail f)))) in H; [|lia].
  rewrite H in H1. inversion H1; subst. assumption.
Qed.

Lemma bindD_retD {A B : Type} (a : A) (k : A -> D B) f :
  bindD (retD a) k f = k a f.
Proof. unfold bindD, retD. destruct (k a f). reflexivity. Qed.

Lemma candidate_without_type_parameters (t1 : Token) (X : D Token) :
  token t1 <> token_arrow_open ->
  match token t1 with
  | token_arrow_open => X
  | _ => retD t1
  end = retD t1.
Proof. intros H. destruct (token t1); try reflexivity. contradiction. Qed.

(** The [fun] branch when the candidate identifier is followed by a dot. *)
Lemma fun_receiver_branch (fuel : nat) (t : Token) (f : inputFile)
    (t1 cand sub : Token) (f1 fc f2 : inputFile) :
  token t = token_keyword ->
  keyword t = Some keyword_fun ->
  (avail f < fuel)%nat ->
  parse_token fuel f = Some (t1, f1) ->
  (token t1 <> token_arrow_open /\ cand = t1 /\ fc = f1)
  \/ (token t1 = token_arrow_open
      /\ exists fs, skip_open_close fuel (chr ">") f1 = Some (tt, fs)
                    /\ parse_token fuel fs = Some (cand, fc)) ->
  token cand = token_identifier ->
  parse_token fuel fc = Some (sub, f2) ->
  token sub = token_dot ->
  exists name_token f3 calls,
    parse_token fuel f2 = Some (name_token, f3)
    /\ find_kotlin_tags_dispatch fuel t f = (calls, Some (tt, f3))
    /\ ((token name_token = token_identifier
         /\ calls = [(name_token, kind_function)])
        \/ (token name_token <> token_identifier /\ calls = [])).
Proof.
  intros Ht Hk Hlt E1 Hcand Hid Esub Hdot.
  assert (A1 : (avail f1 <= avail f)%nat)
    by exact (parse_token_shrinks _ _ _ _ E1).
  assert (Ac : (avail fc <= avail f)%nat).
  { destruct Hcand as [(_ & _ & ->)|(_ & fs & Hs & Hp)]; [assumption|].
    pose proof (skip_open_close_shrinks _ _ _ _ _ Hs).
    pose proof (parse_token_shrinks _ _ _ _ Hp). lia. }
  assert (A2 : (avail f2 <= avail fc)%nat)
    by exact (parse_token_shrinks _ _ _ _ Esub).
  destruct (parse_token_total fuel f2) as (name_token & f3 & E3 & _); [lia|].
  exists name_token, f3.
  assert (Hrun : forall calls,
             (match token name_token with
              | token_identifier => make_tag_entry name_token kind_function
              | _ => retD tt
              end) f3 = (calls, Some (tt, f3)) ->
             find_kotlin_tags_dispatch fuel t f = (calls, Some (tt, f3))).
  { intros calls Hm.
    unfold find_kotlin_tags_dispatch. rewrite Ht, Hk.
    rewrite (bindD_lift_eq _ _ _ _ _ E1).
    destruct Hcand as [(Hn & -> & ->)|(Ha & fs & Hs & Hp)].
    - rewrite (candidate_without_type_parameters _ _ Hn).
      rewrite bindD_retD. rewrite Hid.
      rewrite (bindD_lift_eq _ _ _ _ _ Esub). rewrite Hdot.
      rewrite (bindD_lift_eq _ _ _ _ _ E3). exact Hm.
    - rewrite Ha.
      rewrite (bindD_eq _ _ _ [] cand fc).
      + rewrite Hid.
        rewrite (bindD_lift_eq _ _ _ _ _ Esub). rewrite Hdot.
        rewrite (bindD_lift_eq _ _ _ _ _ E3). rewrite Hm. reflexivity.
      + rewrite (bindD_lift_eq _ _ _ _ _ Hs).
        apply lift_eq. exact Hp. }
  destruct (token name_token) eqn:En;
    try (exists []; split; [assumption|]; split;
         [apply Hrun; reflexivity | right; split; [discriminate|reflexivity]]).
  exists [(name_token, kind_function)]. split; [assumption|]. split.
  - apply Hrun. reflexivity.
  - left. auto.
Qed.

Lemma fun_String_reversed :
  reported "fun String.reversed(): String"
    [ {| name := "reversed"; kind := kind_function;
         lineNumber := 1; filePosition := 12 |} ].
Proof. reported_by 40%nat. Qed.

(** C5.  In the [fun] branch, when the candidate identifier (the token after
    [fun], or the one after the type parameters) is followed by a dot, one
    more token is read; the branch reports a function tag for that token when
    it is an identifier and nothing otherwise, so the candidate, the receiver,
    is not reported.  [fun String.reversed(): String] gives one tag, the
    function [reversed], and no tag named [String]. *)
Theorem fun_receiver_is_not_reported :
  (forall (fuel : nat) (t : Token) (f : inputFile)
          (t1 cand sub : Token) (f1 fc f2 : inputFile),
      token t = token_keyword ->
      keyword t = Some keyword_fun ->
      (avail f < fuel)%nat ->
      parse_token fuel f = Some (t1, f1) ->
      (token t1 <> token_arrow_open /\ cand = t1 /\ fc = f1)
      \/ (token t1 = token_arrow_open
          /\ exists fs, skip_open_close fuel (chr ">") f1 = Some (tt, fs)
                        /\ parse_token fuel fs = Some (cand, fc)) ->
      token cand = token_identifier ->
      parse_token fuel fc = Some (sub, f2) ->
      token sub = token_dot ->
      exists name_token f3 calls,
        parse_token fuel f2 = Some (name_token, f3)
        /\ find_kotlin_tags_dispatch fuel t f = (calls, Some (tt, f3))
        /\ ((token name_token = token_identifier
             /\ calls = [(name_token, kind_function)])
            \/ (token name_token <> token_identifier /\ calls = [])))
  /\ (exists tags,
         reported "fun String.reversed(): String" tags
         /\ map label tags = [ (kind_function, "reversed") ]
         /\ Forall (fun e => name e <> "String") tags).
Proof.
  split; [exact fun_receiver_branch|].
  eexists. split; [exact fun_String_reversed|].
  split; [reflexivity|].
  repeat constructor. discriminate.
Qed.

Lemma fun_receiver_is_not_reported_witness :
  exists name_token f3 calls,
    parse_token 40 after_dot = Some (name_token, f3)
    /\ find_kotlin_tags_dispatch 40 fun_keyword_token
         (openInputFile " String.reversed(): String")
       = (calls, Some (tt, f3))
    /\ ((token name_token = token_identifier
         /\ calls = [(name_token, kind_function)])
        \/ (token name_token <> token_identifier /\ calls = [])).
Proof.
  apply (proj1 fun_receiver_is_not_reported 40%nat fun_keyword_token
           (openInputFile " String.reversed(): String")
           receiver_token receiver_token dot_token
           after_receiver after_receiver after_dot).
  - reflexivity.
  - reflexivity.
  - vm_compute. lia.
  - vm_compute. reflexivity.
  - left. repeat split. discriminate.
  - reflexivity.
  - vm_compute. reflexivity.
  - reflexivity.
Defined.

(** ** The bracket skipper *)

Lemma chr_eqb (a b : ascii) :
  (chr a =? chr b) = if ascii_dec a b then true else false.
Proof.
  destruct (ascii_dec a b) as [->|Hn]; [apply Z.eqb_refl|].
  apply Z.eqb_neq. intros H. apply Hn. apply chr_inj. exact H.
Qed.

Lemma skip_open_close_loop_step (fuel : nat) (e : Z) (n : counters)
    (f f1 : inputFile) (a : ascii) :
  getcFromInputFile f = Some (chr a, f1) ->
  a <> "/"%char ->
  skip_open_close_loop (S fuel) e n f
  = if (chr a =? e) && all_zero (bump (chr a) n) then Some (tt, f1)
    else skip_open_close_loop fuel e (bump (chr a) n) f1.
Proof.
  intros Hg Ha. cbn [skip_open_close_loop].
  rewrite (bind_eq _ _ _ _ _ Hg). rewrite chr_not_EOF.
  assert (Hs : (chr a =? chr "/") = false).
  { rewrite chr_eqb. destruct (ascii_dec a "/"); [contradiction|reflexivity]. }
  unfold bump. rewrite Hs.
  repeat match goal with
         | |- context [chr a =? chr ?x] => destruct (chr a =? chr x)
         end;
    unfold bind, ret;
    match goal with
    | |- context [if ?c then _ else _] => destruct c
    end;
    reflexivity.
Qed.

Lemma depth_snoc (o c a : ascii) (pre : list ascii) :
  depth o c (pre ++ [a])
  = depth o c pre + (if ascii_dec a o then 1 else 0)
    - (if ascii_dec a c then 1 else 0).
Proof.
  unfold depth. rewrite !count_occ_app. cbn [count_occ].
  destruct (ascii_dec a o), (ascii_dec a c); lia.
Qed.

Lemma bump_nesting (e a : ascii) (pre : list ascii) :
  bump (chr a) (nesting e pre) = nesting e (pre ++ [a]).
Proof.
  unfold nesting. rewrite !depth_snoc. unfold bump. rewrite !chr_eqb.
  cbn [curly square pars arrows].
  repeat match goal with
         | |- context [ascii_dec a ?x] =>
             destruct (ascii_dec a x); [subst a|]
         end;
    f_equal;
    repeat match goal with
           | |- context [ascii_dec ?x ?y] =>
               destruct (ascii_dec x y); try congruence
           end;
    lia.
Qed.

Lemma expect_nesting (e : ascii) : expect (chr e) = nesting e [].
Proof.
  unfold expect, nesting, depth. rewrite !chr_eqb. cbn.
  repeat match goal with
         | |- context [ascii_dec e ?x] =>
             destruct (ascii_dec e x); [subst e|]
         end;
    try congruence; reflexivity.
Qed.

Lemma stops_after_snoc (e a : ascii) (done : list ascii) :
  (chr a =? chr e) && all_zero (nesting e (done ++ [a])) = true
  <-> stops_after e (done ++ [a]).
Proof.
  unfold stops_after, all_zero. rewrite chr_eqb.
  rewrite !andb_true_iff, !Z.eqb_eq. split.
  - intros (Ha & ((Hp & Hs) & Hc) & Hr).
    destruct (ascii_dec a e) as [->|]; [|discriminate].
    split; [exists done; reflexivity|auto].
  - intros ((pre' & Hpre) & Hc & Hs & Hp & Hr).
    apply app_inj_tail in Hpre. destruct Hpre as [_ ->].
    destruct (ascii_dec e e); [auto|contradiction].
Qed.

(** Over characters free of [/] that lead to the first point where the loop
    stops, or to the end of the input, the loop returns there. *)
Lemma skip_open_close_loop_prefix (e : ascii) :
  forall (pre done : list ascii) (rest : list Z) (fuel : nat)
         (f : inputFile),
    pending f = (map chr pre ++ rest)%list ->
    ~ In "/"%char pre ->
    (forall p q, (done ++ pre = p ++ q)%list -> q <> [] ->
                 (List.length done < List.length p)%nat ->
                 ~ stops_after e p) ->
    stops_after e (done ++ pre) \/ rest = [] ->
    (pre = [] -> rest = []) ->
    (List.length pre < fuel)%nat ->
    exists f',
      skip_open_close_loop fuel (chr e) (nesting e done) f = Some (tt, f')
      /\ pending f' = rest.
Proof.
  induction pre as [|a pre IH]; intros done rest fuel f Hp Hno Hmin Hend Hnil Hlt;
    (destruct fuel as [|fuel]; [cbn in Hlt; lia|]);
    pose proof (getc_pending f) as Hg; rewrite Hp in Hg; cbn [map app] in Hg.
  - rewrite (Hnil eq_refl) in *. exists f. split; [|exact Hp].
    cbn [skip_open_close_loop]. rewrite (bind_eq _ _ _ _ _ Hg). reflexivity.
  - destruct Hg as (f1 & Hg & Hp1).
    assert (Ha : a <> "/"%char).
    { intros ->. apply Hno. left. reflexivity. }
    rewrite (skip_open_close_loop_step _ _ _ _ _ _ Hg Ha).
    rewrite bump_nesting.
    assert (Hassoc : ((done ++ [a]) ++ pre = done ++ a :: pre)%list)
      by (rewrite <- app_assoc; reflexivity).
    destruct ((chr a =? chr e) && all_zero (nesting e (done ++ [a]))) eqn:Es.
    + apply stops_after_snoc in Es.
      destruct pre as [|b pre].
      * exists f1. split; [reflexivity|exact Hp1].
      * exfalso. apply (Hmin (done ++ [a])%list (b :: pre)); auto.
        -- discriminate.
        -- rewrite length_app. cbn. lia.
    + assert (Hns : ~ stops_after e (done ++ [a])).
      { intros H. apply stops_after_snoc in H. congruence. }
      apply IH.
      * exact Hp1.
      * intros H. apply Hno. right. exact H.
      * intros p q Hpq Hq Hlen. rewrite Hassoc in Hpq.
        apply (Hmin p q Hpq Hq). rewrite length_app in Hlen. cbn in Hlen. lia.
      * destruct Hend as [Hend|Hend]; [left|right; exact Hend].
        rewrite Hassoc. exact Hend.
      * intros ->. destruct Hend as [Hend|Hend]; [|exact Hend].
        contradiction.
      * cbn in Hlt. lia.
Qed.

(** Over characters free of [/] on which the loop does not stop, and which
    lead to the opener of a block comment that nothing closes, the loop
    enters [skip_comment_block] and does not return. *)
Lemma skip_open_close_loop_open_comment (e : ascii) :
  forall (pre done : list ascii) (rest : list Z) (fuel : nat)
         (f : inputFile),
    pending f = (map chr pre ++ chr "/" :: chr "*" :: rest)%list ->
    ~ In "/"%char pre ->
    (forall p q, (done ++ pre = p ++ q)%list ->
                 (List.length done < List.length p)%nat ->
                 ~ stops_after e p) ->
    has_close rest = false ->
    skip_open_close_loop fuel (chr e) (nesting e done) f = None.
Proof.
  induction pre as [|a pre IH]; intros done rest fuel f Hp Hno Hmin Hclose;
    (destruct fuel as [|fuel]; [reflexivity|]);
    pose proof (getc_pending f) as Hg; rewrite Hp in Hg; cbn [map app] in Hg;
    destruct Hg as (f1 & Hg & Hp1).
  - pose proof (getc_pending f1) as Hg2. rewrite Hp1 in Hg2.
    destruct Hg2 as (f2 & Hg2 & Hp2).
    assert (Hc : skip_comment_block (S fuel) f2 = None).
    { unfold skip_comment_block.
      apply skip_comment_block_loop_unterminated;
        [rewrite Hp2; exact Hclose|]. intros H. discriminate H. }
    cbn [skip_open_close_loop].
    rewrite (bind_eq _ _ _ _ _ Hg).
    repeat match goal with
           | |- context [chr "/" =? chr ?x] =>
               let v := eval vm_compute in (chr "/" =? chr x) in
               change (chr "/" =? chr x) with v
           end.
    change (chr "/" =? EOF) with false. cbv iota.
    unfold bind at 1 2. rewrite Hg2.
    change (chr "*" =? chr "/") with false.
    change (chr "*" =? chr "*") with true. cbv iota.
    unfold bind at 1. rewrite Hc. reflexivity.
  - assert (Ha : a <> "/"%char).
    { intros ->. apply Hno. left. reflexivity. }
    rewrite (skip_open_close_loop_step _ _ _ _ _ _ Hg Ha).
    rewrite bump_nesting.
    assert (Hassoc : ((done ++ [a]) ++ pre = done ++ a :: pre)%list)
      by (rewrite <- app_assoc; reflexivity).
    assert (Hns : ~ stops_after e (done ++ [a])).
    { apply (Hmin (done ++ [a])%list pre); [symmetry; exact Hassoc|].
      rewrite length_app. cbn. lia. }
    destruct ((chr a =? chr e) && all_zero (nesting e (done ++ [a]))) eqn:Es.
    { apply stops_after_snoc in Es. contradiction. }
    apply (IH (done ++ [a])%list rest fuel f1).
    + exact Hp1.
    + intros H. apply Hno. right. exact H.
    + intros p q Hpq Hlen. rewrite Hassoc in Hpq.
      apply (Hmin p q Hpq). rewrite length_app in Hlen. cbn in Hlen. lia.
    + exact Hclose.
Qed.

(** C6.  [skip_open_close] counts the four kinds of bracket each on its own,
    the kind of the expected closing character from one: over characters
    free of [/] it stops right after the first one that is the expected
    closing character with the four counters at zero, whatever follows, and
    at the end of the input when there is no such character; skipping
    [T : Comparable<T>> foo] for [>] does not stop at the inner [>] and
    leaves [ foo].  But it does not always stop at the end of the input:
    when a block comment opens before that point and nothing closes it, the
    skipper enters [skip_comment_block], which has no test for the end of
    the input, and returns for no amount of fuel, as on [T /* x]. *)
Theorem skip_open_close_balanced_or_lost_in_comment :
  (forall (fuel : nat) (e : ascii) (pre : list ascii) (rest : list Z)
          (f : inputFile),
      pending f = (map chr pre ++ rest)%list ->
      ~ In "/"%char pre ->
      (forall p q, pre = (p ++ q)%list -> q <> [] -> ~ stops_after e p) ->
      stops_after e pre \/ rest = [] ->
      (List.length pre < fuel)%nat ->
      exists f',
        skip_open_close fuel (chr e) f = Some (tt, f') /\ pending f' = rest)
  /\ (forall (fuel : nat) (e : ascii) (pre : list ascii) (rest : list Z)
             (f : inputFile),
         pending f = (map chr pre ++ chr "/" :: chr "*" :: rest)%list ->
         ~ In "/"%char pre ->
         (forall p q, pre = (p ++ q)%list -> ~ stops_after e p) ->
         has_close rest = false ->
         skip_open_close fuel (chr e) f = None)
  /\ (forall n, exists f',
         skip_open_close (19 + n) (chr ">")
           (openInputFile "T : Comparable<T>> foo") = Some (tt, f')
         /\ ungetchBuf f' = []
         /\ content f' = list_ascii_of_string " foo")
  /\ (forall fuel,
         skip_open_close fuel (chr ">") (openInputFile "T /* x") = None).
Proof.
  assert (Hopen : forall (fuel : nat) (e : ascii) (pre : list ascii)
                         (rest : list Z) (f : inputFile),
             pending f = (map chr pre ++ chr "/" :: chr "*" :: rest)%list ->
             ~ In "/"%char pre ->
             (forall p q, pre = (p ++ q)%list -> ~ stops_after e p) ->
             has_close rest = false ->
             skip_open_close fuel (chr e) f = None).
  { intros fuel e pre rest f Hp Hno Hmin Hclose.
    unfold skip_open_close. rewrite expect_nesting.
    apply (skip_open_close_loop_open_comment e pre [] rest fuel f Hp Hno);
      [|exact Hclose].
    intros p q Hpq _. exact (Hmin p q Hpq). }
  split; [|split; [exact Hopen|split]].
  - intros fuel e pre rest f Hp Hno Hmin Hend Hlt.
    unfold skip_open_close. rewrite expect_nesting.
    apply (skip_open_close_loop_prefix e pre [] rest fuel f Hp Hno);
      [| exact Hend | | exact Hlt].
    + intros p q Hpq Hq _. exact (Hmin p q Hpq Hq).
    + intros ->. destruct Hend as [((pre' & Hpre) & _)|Hend]; [|exact Hend].
      destruct pre'; discriminate Hpre.
  - intros n.
    run_at (skip_open_close 19 (chr ">")
              (openInputFile "T : Comparable<T>> foo")) E.
    apply (skip_open_close_mono 19 (19 + n)) in E; [|lia].
    eexists. split; [exact E|]. split; reflexivity.
  - intros fuel.
    apply (Hopen fuel ">"%char (list_ascii_of_string "T ")
             (map chr (list_ascii_of_string " x"))).
    + reflexivity.
    + cbn. intuition discriminate.
    + intros p q Hpq ((p' & Hp') & _). subst p.
      repeat (destruct p' as [|? p']; [discriminate Hpq|];
              cbn [app] in Hpq; injection Hpq as _ Hpq).
      destruct p'; discriminate Hpq.
    + reflexivity.
Qed.

Lemma skip_open_close_balanced_or_lost_in_comment_witness :
  (exists f',
     skip_open_close 10 (chr ">") (openInputFile "T> f() {} // c")
     = Some (tt, f')
     /\ pending f' = map chr (list_ascii_of_string " f() {} // c"))
  /\ skip_open_close 1000 (chr ">") (openInputFile "K, V /* x * /") = None.
Proof.
  split.
  - apply (proj1 skip_open_close_balanced_or_lost_in_comment 10%nat ">"%char
             (list_ascii_of_string "T>")
             (map chr (list_ascii_of_string " f() {} // c"))
             (openInputFile "T> f() {} // c")).
    + reflexivity.
    + cbn. intuition discriminate.
    + intros p q Hpq Hq ((p' & Hp') & _). subst p.
      destruct p' as [|x p']; [discriminate Hpq|].
      cbn [app list_ascii_of_string] in Hpq. injection Hpq as _ Hpq.
      destruct p' as [|y p'].
      * cbn [app] in Hpq. injection Hpq as Hpq. apply Hq. symmetry. exact Hpq.
      * cbn [app] in Hpq. injection Hpq as _ Hpq. destruct p'; discriminate Hpq.
    + left. split; [exists [ "T"%char ]; reflexivity|].
      repeat split; reflexivity.
    + cbn. lia.
  - apply (proj1 (proj2 skip_open_close_balanced_or_lost_in_comment)
             1000%nat ">"%char
             (list_ascii_of_string "K, V ")
             (map chr (list_ascii_of_string " x * /"))
             (openInputFile "K, V /* x * /")).
    + reflexivity.
    + cbn. intuition discriminate.
    + intros p q Hpq ((p' & Hp') & _). subst p.
      repeat (destruct p' as [|? p']; [discriminate Hpq|];
              cbn [app list_ascii_of_string] in Hpq; injection Hpq as _ Hpq).
      destruct p'; discriminate Hpq.
    + reflexivity.
Defined.

(** ** The word scan of the lexer *)

Lemma is_delimiter_iff (ch : Z) :
  is_delimiter ch = true <-> In ch delimiter_characters.
Proof.
  assert (Htable :
            forallb (fun n => Bool.eqb (is_delimiter (Z.of_nat n))
                                (existsb (Z.eqb (Z.of_nat n))
                                   delimiter_characters))
              (seq 0 128) = true) by (vm_compute; reflexivity).
  rewrite forallb_forall in Htable.
  assert (Hin : In ch delimiter_characters <->
                existsb (Z.eqb ch) delimiter_characters = true).
  { rewrite existsb_exists. split.
    - intros H. exists ch. split; [assumption|apply Z.eqb_refl].
    - intros (x & Hx & Hxe). apply Z.eqb_eq in Hxe. subst. assumption. }
  rewrite Hin.
  destruct (Z_lt_ge_dec ch 0) as [Hneg|Hpos].
  { unfold is_delimiter. replace (ch >=? 0) with false by lia. cbn [andb].
    split; [discriminate|].
    intros H. apply Hin in H. cbn in H.
    pose proof (chr_range " ").
    repeat (destruct H as [H|H];
            [subst ch; vm_compute in Hneg; discriminate|]).
    contradiction. }
  destruct (Z_lt_ge_dec ch 128) as [Hlt|Hge].
  - specialize (Htable (Z.to_nat ch)).
    rewrite Z2Nat.id in Htable by lia.
    apply Bool.eqb_prop in Htable; [rewrite Htable; reflexivity|].
    apply in_seq. lia.
  - unfold is_delimiter. replace (ch <? 128) with false by lia.
    rewrite andb_false_r. cbn [andb].
    split; [discriminate|].
    intros H. apply Hin in H. cbn in H.
    repeat (destruct H as [H|H];
            [subst ch; vm_compute in Hge; contradiction Hge; reflexivity|]).
    contradiction.
Qed.

Lemma append_nil_r (s : string) : String.append s EmptyString = s.
Proof. induction s as [|a s IH]; cbn; [reflexivity|]. rewrite IH. reflexivity. Qed.

Lemma append_snoc (s : string) (a : ascii) (w : string) :
  String.append (String.append s (String a EmptyString)) w
  = String.append s (String a w).
Proof. induction s as [|x s IH]; cbn; [reflexivity|]. rewrite IH. reflexivity. Qed.

(** The word loop takes every character up to the first delimiter, which it
    gives back, or up to the end of the input. *)
Lemma parse_token_word_spec :
  forall (w : list ascii) (fuel : nat) (b : string) (f : inputFile)
         (rest : list ascii),
    ungetchBuf f = [] ->
    content f = (w ++ rest)%list ->
    Forall (fun a => is_delimiter (chr a) = false) w ->
    rest = [] \/ (exists d rest', rest = d :: rest'
                                  /\ is_delimiter (chr d) = true) ->
    (List.length w < fuel)%nat ->
    exists f',
      parse_token_word fuel b f
      = Some (String.append b (string_of_list_ascii w), f')
      /\ pending f' = map chr rest.
Proof.
  induction w as [|a w IH]; intros fuel b f rest Hu Hc Hw Hrest Hlt;
    (destruct fuel as [|fuel]; [cbn in Hlt; lia|]);
    cbn [parse_token_word string_of_list_ascii].
  - cbn [app] in Hc. rewrite append_nil_r.
    destruct Hrest as [->|(d & rest' & -> & Hd)].
    + assert (Hg : getcFromInputFile f = Some (EOF, f)).
      { unfold getcFromInputFile. rewrite Hu, Hc. reflexivity. }
      rewrite (bind_eq _ _ _ _ _ Hg). exists f. split; [reflexivity|].
      unfold pending. rewrite Hu, Hc. reflexivity.
    + unfold bind, getcFromInputFile. rewrite Hu, Hc.
      rewrite chr_not_EOF, Hd. eexists. split; [reflexivity|].
      reflexivity.
  - cbn [app] in Hc. apply Forall_cons_iff in Hw. destruct Hw as [Ha Hw].
    unfold bind at 1. unfold getcFromInputFile at 1. rewrite Hu, Hc.
    rewrite chr_not_EOF, Ha.
    match goal with
    | |- context [parse_token_word fuel ?b' ?f1] =>
        destruct (IH fuel b' f1 rest) as (f' & H1 & H2);
        [ reflexivity | reflexivity | assumption | assumption
        | cbn in Hlt; lia | ]
    end.
    exists f'. split; [|assumption]. rewrite H1.
    unfold vStringPut. rewrite ascii_of_int_chr, append_snoc. reflexivity.
Qed.

Lemma const_val_MAX_Int :
  reported "const val MAX:Int = 1"
    [ {| name := "MAX:Int"; kind := kind_const;
         lineNumber := 1; filePosition := 11 |} ].
Proof. reported_by 30%nat. Qed.

Lemma typealias_A_B :
  reported "typealias A=B"
    [ {| name := "A=B"; kind := kind_typealias;
         lineNumber := 1; filePosition := 11 |} ].
Proof. reported_by 30%nat. Qed.

(** C9.  The delimiter table marks thirteen characters: blank, carriage
    return, newline, tab, semicolon, comma, the parentheses, the braces, the
    angle brackets and the dot.  The word loop of [parse_token] stops only at
    one of them, which it gives back, or at the end of the input; every other
    character goes into the text of the token, and so do [:], [=], the square
    brackets, [$] and [/].  The names of the tags of
    [const val MAX:Int = 1] and of [typealias A=B] carry such characters. *)
Theorem word_scan_stops_only_at_delimiters :
  (forall ch, is_delimiter ch = true <-> In ch delimiter_characters)
  /\ List.length delimiter_characters = 13%nat
  /\ NoDup delimiter_characters
  /\ (forall (w : list ascii) (fuel : nat) (b : string) (f : inputFile)
             (rest : list ascii),
         ungetchBuf f = [] ->
         content f = (w ++ rest)%list ->
         Forall (fun a => is_delimiter (chr a) = false) w ->
         rest = [] \/ (exists d rest', rest = d :: rest'
                                       /\ is_delimiter (chr d) = true) ->
         (List.length w < fuel)%nat ->
         exists f',
           parse_token_word fuel b f
           = Some (String.append b (string_of_list_ascii w), f')
           /\ pending f' = map chr rest)
  /\ Forall (fun ch => is_delimiter ch = false)
       [ chr ":"; chr "="; chr "["; chr "]"; chr "$"; chr "/" ]
  /\ (exists tags,
         reported "const val MAX:Int = 1" tags
         /\ map label tags = [ (kind_const, "MAX:Int") ])
  /\ (exists tags,
         reported "typealias A=B" tags
         /\ map label tags = [ (kind_typealias, "A=B") ]).
Proof.
  split; [exact is_delimiter_iff|].
  split; [reflexivity|].
  split.
  { unfold delimiter_characters.
    repeat (constructor; [cbn; intuition discriminate|]). constructor. }
  split; [exact parse_token_word_spec|].
  split; [repeat constructor|].
  split.
  - eexists. split; [exact const_val_MAX_Int|reflexivity].
  - eexists. split; [exact typealias_A_B|reflexivity].
Qed.

Lemma word_scan_stops_only_at_delimiters_witness :
  exists f',
    parse_token_word 20 "M" (openInputFile "AX:Int = 1")
    = Some (String.append "M"
              (string_of_list_ascii (list_ascii_of_string "AX:Int")), f')
    /\ pending f' = map chr (list_ascii_of_string " = 1").
Proof.
  destruct word_scan_stops_only_at_delimiters as (_ & _ & _ & H & _).
  apply (H (list_ascii_of_string "AX:Int") 20%nat "M"
           (openInputFile "AX:Int = 1") (list_ascii_of_string " = 1")).
  - reflexivity.
  - reflexivity.
  - repeat constructor.
  - right. eexists _, _. split; reflexivity.
  - cbn. lia.
Defined.

(** ** A slash inside the bracket skipper *)

Lemma skip_open_close_loop_slash (fuel : nat) (e : Z) (n : counters)
    (f f1 f2 : inputFile) (next : Z) :
  getcFromInputFile f = Some (chr "/", f1) ->
  getcFromInputFile f1 = Some (next, f2) ->
  next <> chr "/" ->
  next <> chr "*" ->
  skip_open_close_loop (S fuel) e n f
  = if (chr "/" =? e) && all_zero n then Some (tt, f2)
    else skip_open_close_loop fuel e n f2.
Proof.
  intros Hg Hg2 Hn1 Hn2. cbn [skip_open_close_loop].
  rewrite (bind_eq _ _ _ _ _ Hg).
  repeat match goal with
         | |- context [chr "/" =? chr ?x] =>
             let v := eval vm_compute in (chr "/" =? chr x) in
             change (chr "/" =? chr x) with v
         end.
  change (chr "/" =? EOF) with false. cbv iota.
  unfold bind. rewrite Hg2.
  rewrite (proj2 (Z.eqb_neq _ _) Hn1), (proj2 (Z.eqb_neq _ _) Hn2).
  unfold ret. destruct ((chr "/" =? e) && all_zero n); reflexivity.
Qed.

(** C10.  When [skip_open_close] reads a [/] and the character after it is
    neither [/] nor [*], the loop goes on after that character with the
    counters as they were: the character is read, not given back and not
    counted.  In [a/>b> c] the first [>] follows the slash: the counters
    would be zero there, yet the skipper, asked for [>], stops only at the
    second one. *)
Theorem skip_open_close_discards_after_slash :
  (forall (fuel : nat) (e : Z) (n : counters) (f f1 f2 : inputFile)
          (next : Z),
      getcFromInputFile f = Some (chr "/", f1) ->
      getcFromInputFile f1 = Some (next, f2) ->
      next <> chr "/" ->
      next <> chr "*" ->
      skip_open_close_loop (S fuel) e n f
      = if (chr "/" =? e) && all_zero n then Some (tt, f2)
        else skip_open_close_loop fuel e n f2)
  /\ stops_after ">" (list_ascii_of_string "a/>")
  /\ (forall k, exists f',
         skip_open_close (10 + k) (chr ">") (openInputFile "a/>b> c")
         = Some (tt, f')
         /\ ungetchBuf f' = []
         /\ content f' = list_ascii_of_string " c").
Proof.
  split; [exact skip_open_close_loop_slash|].
  split.
  { split; [exists (list_ascii_of_string "a/"); reflexivity|].
    repeat split. }
  intros k.
  run_at (skip_open_close 10 (chr ">") (openInputFile "a/>b> c")) E.
  apply (skip_open_close_mono 10 (10 + k)) in E; [|lia].
  eexists. split; [exact E|]. split; reflexivity.
Qed.

Lemma skip_open_close_discards_after_slash_witness :
  skip_open_close_loop 10 (chr ">") (expect (chr ">"))
    (openInputFile "/>b> c")
  = skip_open_close_loop 9 (chr ">") (expect (chr ">"))
      {| ungetchBuf := []; content := list_ascii_of_string "b> c";
         currentLine := 1; currentPosition := 2 |}.
Proof.
  apply (proj1 skip_open_close_discards_after_slash 9%nat (chr ">")
           (expect (chr ">")) (openInputFile "/>b> c")
           {| ungetchBuf := []; content := list_ascii_of_string ">b> c";
              currentLine := 1; currentPosition := 1 |}
           {| ungetchBuf := []; content := list_ascii_of_string "b> c";
              currentLine := 1; currentPosition := 2 |}
           (chr ">")).
  - reflexivity.
  - reflexivity.
  - discriminate.
  - discriminate.
Defined.

(** * Further properties *)

(** ** Reading never reorders the input *)

Lemma reads_refl (f : inputFile) : reads f f.
Proof. split; [left; exists O; reflexivity|lia]. Qed.

Lemma reads_trans (f f1 f2 : inputFile) :
  reads f f1 -> reads f1 f2 -> reads f f2.
Proof.
  intros [H1 U1] [H2 U2]. split; [|lia].
  destruct H2 as [(k2 & H2)|H2]; [|right; exact H2].
  destruct H1 as [(k1 & H1)|H1].
  - left. exists (k1 + k2)%nat. rewrite H2, H1.
    rewrite skipn_skipn. f_equal. lia.
  - rewrite H1 in H2. destruct k2 as [|k2]; [right; exact H2|].
    left. exists (List.length (pending f)).
    rewrite skipn_all. rewrite H2. cbn. destruct k2; reflexivity.
Qed.

Lemma getc_cases (f f1 : inputFile) (ch : Z) :
  getcFromInputFile f = Some (ch, f1) ->
  (pending f = ch :: pending f1 /\ ungot f1 = Nat.pred (ungot f))
  \/ (pending f = [] /\ ch = EOF /\ f1 = f).
Proof.
  unfold getcFromInputFile, pending, ungot.
  destruct (ungetchBuf f) as [|c u] eqn:Eu.
  - destruct (content f) as [|a rest] eqn:Ec; intros H; inversion H; subst.
    + right. cbn. auto.
    + left. cbn. auto.
  - intros H. inversion H; subst. left. cbn. auto.
Qed.

Lemma getc_reads (f f1 : inputFile) (ch : Z) :
  getcFromInputFile f = Some (ch, f1) -> reads f f1.
Proof.
  intros H. destruct (getc_cases _ _ _ H) as [[Hp Hu]|(_ & _ & ->)];
    [|apply reads_refl].
  split; [|lia]. left. exists 1%nat. rewrite Hp. reflexivity.
Qed.

Lemma getc_unget_reads (f f1 f2 : inputFile) (ch : Z) :
  getcFromInputFile f = Some (ch, f1) ->
  ungetcToInputFile ch f1 = Some (tt, f2) ->
  reads f f2.
Proof.
  intros Hg Hu. unfold ungetcToInputFile in Hu. inversion Hu; subst f2.
  unfold reads, pending, ungot. cbn [ungetchBuf content].
  destruct (getc_cases _ _ _ Hg) as [[Hp Hn]|(Hp & -> & ->)].
  - unfold pending, ungot in *. split; [|cbn [List.length]; lia].
    left. exists O. cbn [skipn app]. rewrite Hp. reflexivity.
  - unfold pending in Hp. apply app_eq_nil in Hp. destruct Hp as [H1 H2].
    rewrite H1. split; [|cbn; lia]. right. cbn. rewrite H2. reflexivity.
Qed.

Lemma follows_ret {A : Type} (a : A) : follows (ret a).
Proof. intros f a' f' H. inversion H; subst. apply reads_refl. Qed.

Lemma follows_out_of_fuel {A : Type} : follows (@out_of_fuel A).
Proof. intros f a f' H. discriminate H. Qed.

Lemma follows_bind {A B : Type} (m : M A) (k : A -> M B) :
  follows m -> (forall a, follows (k a)) -> follows (bind m k).
Proof.
  intros Hm Hk f b f' H. apply bind_Some_inv in H.
  destruct H as (a & f1 & H1 & H2).
  exact (reads_trans _ _ _ (Hm _ _ _ H1) (Hk _ _ _ _ H2)).
Qed.

Lemma follows_getc_bind {A : Type} (k : Z -> M A) :
  (forall ch, follows_after ch (k ch)) -> follows (bind getcFromInputFile k).
Proof.
  intros Hk f a f' H. apply bind_Some_inv in H.
  destruct H as (ch & f1 & H1 & H2). exact (Hk ch _ _ _ _ H1 H2).
Qed.

Lemma follows_after_follows {A : Type} (ch : Z) (m : M A) :
  follows m -> follows_after ch m.
Proof.
  intros Hm f f1 a f' Hg H.
  exact (reads_trans _ _ _ (getc_reads _ _ _ Hg) (Hm _ _ _ H)).
Qed.

Lemma follows_after_unget {A : Type} (ch : Z) (a : A) :
  follows_after ch (bind (ungetcToInputFile ch) (fun _ => ret a)).
Proof.
  intros f f1 a' f' Hg H. apply bind_Some_inv in H.
  destruct H as ([] & f2 & H1 & H2). inversion H2; subst.
  exact (getc_unget_reads _ _ _ _ Hg H1).
Qed.

Lemma follows_getc : follows getcFromInputFile.
Proof. intros f ch f1 H. exact (getc_reads _ _ _ H). Qed.

#[local] Hint Resolve follows_ret follows_out_of_fuel follows_getc
  follows_after_unget : reading.

Ltac follows_cases :=
  repeat match goal with
    | |- follows (bind getcFromInputFile _) => apply follows_getc_bind; intro
    | |- follows (bind _ _) => apply follows_bind; [|intro]
    | |- follows (if ?c then _ else _) => destruct c
    | |- follows (match ?x with _ => _ end) => destruct x
    | |- follows_after _ (if ?c then _ else _) => destruct c
    | |- follows_after _ (bind (ungetcToInputFile _) _) =>
        apply follows_after_unget
    | |- follows_after _ _ => apply follows_after_follows
    end;
  auto with reading.

Lemma parse_number_integral_follows (fuel : nat) :
  forall b, follows (parse_number_integral fuel b).
Proof.
  induction fuel as [|fuel IH]; intros b; cbn [parse_number_integral];
    follows_cases.
Qed.

Lemma parse_number_fraction_follows (fuel : nat) :
  forall b, follows (parse_number_fraction fuel b).
Proof.
  induction fuel as [|fuel IH]; intros b; cbn [parse_number_fraction];
    follows_cases.
Qed.

#[local] Hint Resolve parse_number_integral_follows
  parse_number_fraction_follows : reading.

Lemma parse_number_follows (fuel : nat) (t : Token) :
  follows (parse_number fuel t).
Proof. unfold parse_number. follows_cases. Qed.

Lemma parse_token_word_follows (fuel : nat) :
  forall b, follows (parse_token_word fuel b).
Proof.
  induction fuel as [|fuel IH]; intros b; cbn [parse_token_word];
    follows_cases.
Qed.

Lemma parse_token_first_follows (fuel : nat) :
  follows (parse_token_first fuel).
Proof.
  induction fuel as [|fuel IH]; cbn [parse_token_first]; follows_cases.
Qed.

Lemma skip_until_eol_follows (fuel : nat) : follows (skip_until_eol fuel).
Proof.
  induction fuel as [|fuel IH]; cbn [skip_until_eol]; follows_cases.
Qed.

Lemma skip_comment_block_loop_follows (fuel : nat) :
  forall c, follows (skip_comment_block_loop fuel c).
Proof.
  induction fuel as [|fuel IH]; intros c; cbn [skip_comment_block_loop];
    follows_cases.
Qed.

Lemma skip_comment_block_follows (fuel : nat) :
  follows (skip_comment_block fuel).
Proof. apply skip_comment_block_loop_follows. Qed.

#[local] Hint Resolve parse_number_follows parse_token_word_follows
  parse_token_first_follows skip_until_eol_follows
  skip_comment_block_follows : reading.

Lemma skip_open_close_loop_follows (fuel : nat) :
  forall e n, follows (skip_open_close_loop fuel e n).
Proof.
  induction fuel as [|fuel IH]; intros e n; cbn [skip_open_close_loop];
    follows_cases.
Qed.

Lemma skip_open_close_follows (fuel : nat) (e : Z) :
  follows (skip_open_close fuel e).
Proof. apply skip_open_close_loop_follows. Qed.

Lemma follows_getInputLineNumber : follows getInputLineNumber.
Proof. intros f a f' H. inversion H; subst. apply reads_refl. Qed.

Lemma follows_getInputFilePosition : follows getInputFilePosition.
Proof. intros f a f' H. inversion H; subst. apply reads_refl. Qed.

#[local] Hint Resolve follows_getInputLineNumber follows_getInputFilePosition
  skip_open_close_follows : reading.

Lemma parse_token_follows (fuel : nat) : follows (parse_token fuel).
Proof. unfold parse_token. cbv zeta. follows_cases. Qed.

#[local] Hint Resolve parse_token_follows : reading.

(** When the blanks are skipped and a character is found, it is the next
    character left to read that is no blank. *)
Lemma parse_token_first_start (fuel : nat) :
  forall (f f1 : inputFile) (first : Z),
    parse_token_first fuel f = Some (Some first, f1) ->
    first <> EOF /\ is_blank first = false
    /\ exists ws, pending f = (ws ++ first :: pending f1)%list
                  /\ Forall (fun c => is_blank c = true) ws.
Proof.
  induction fuel as [|fuel IH]; intros f f1 first H; [discriminate H|].
  cbn [parse_token_first] in H. apply bind_Some_inv in H.
  destruct H as (ch & g & Hg & H).
  fold (is_blank ch) in H.
  destruct (is_blank ch) eqn:Eb.
  - destruct (IH _ _ _ H) as (H1 & H2 & ws & H3 & H4).
    split; [assumption|]. split; [assumption|].
    destruct (getc_cases _ _ _ Hg) as [[Hp _]|(_ & -> & _)];
      [|discriminate Eb].
    exists (ch :: ws). split; [rewrite Hp, H3; reflexivity|].
    constructor; assumption.
  - destruct (ch =? EOF) eqn:Ee; inversion H; subst.
    split; [lia|]. split; [assumption|].
    destruct (getc_cases _ _ _ Hg) as [[Hp _]|(_ & -> & _)];
      [|discriminate Ee].
    exists []. split; [exact Hp|constructor].
Qed.

Lemma single_char_token_not_special (first : Z) (k : TokenType) :
  single_char_token first = Some k ->
  k <> token_eof /\ k <> token_comment_start /\ k <> token_comment_line
  /\ k <> token_number /\ k <> token_other.
Proof.
  unfold single_char_token.
  repeat match goal with
         | |- context [if ?c then _ else _] => destruct c
         end;
    intros H; inversion H; subst; repeat split; discriminate.
Qed.

(** The shape of a return of [parse_token]: either the input ended among
    the blanks, or the token starts at the first character that is no blank
    and what follows it is read. *)
Lemma parse_token_shape (fuel : nat) (f f' : inputFile) (t : Token) :
  parse_token fuel f = Some (t, f') ->
  (token t = token_eof /\ buffer t = "" /\ reads f f')
  \/ (exists first g ws,
         pending f = (ws ++ first :: pending g)%list
         /\ Forall (fun c => is_blank c = true) ws
         /\ first <> EOF /\ is_blank first = false
         /\ reads g f'
         /\ token t <> token_eof
         /\ (token t = token_comment_start ->
             exists l, pending g = chr "*" :: l /\ first = chr "/")).
Proof.
  unfold parse_token. cbv [getInputLineNumber getInputFilePosition].
  unfold bind at 1 2. intros H.
  apply bind_Some_inv in H. destruct H as (start & f1 & Hs & H).
  destruct start as [first|].
  2:{ inversion H; subst. left. split; [reflexivity|]. split; [reflexivity|].
      exact (parse_token_first_follows _ _ _ _ Hs). }
  right. destruct (parse_token_first_start _ _ _ _ Hs) as (Hne & Hb & ws & Hp & Hws).
  exists first, f1, ws.
  split; [assumption|]. split; [assumption|].
  split; [assumption|]. split; [assumption|].
  unfold bind at 1 2 in H.
  destruct (single_char_token first) as [k|] eqn:Ek.
  { inversion H; subst.
    destruct (single_char_token_not_special _ _ Ek) as (K1 & K2 & _).
    split; [apply reads_refl|]. cbn [token set_token].
    split; [assumption|]. intros Hc. contradiction. }
  destruct (first =? chr "/") eqn:Es.
  { apply bind_Some_inv in H. destruct H as (second & f2 & Hg & H).
    destruct (second =? chr "/").
    { inversion H; subst. split; [exact (getc_reads _ _ _ Hg)|].
      cbn [token set_token]. split; discriminate. }
    destruct (second =? chr "*") eqn:E2.
    { inversion H; subst. split; [exact (getc_reads _ _ _ Hg)|].
      cbn [token set_token]. split; [discriminate|]. intros _.
      apply Z.eqb_eq in E2. apply Z.eqb_eq in Es.
      destruct (getc_cases _ _ _ Hg) as [[Hq _]|(_ & He & _)].
      - exists (pending f'). rewrite Hq, E2. auto.
      - rewrite He in E2. discriminate E2. }
    apply bind_Some_inv in H. destruct H as ([] & f3 & Hu & H).
    inversion H; subst.
    split; [exact (getc_unget_reads _ _ _ _ Hg Hu)|].
    cbn [token set_token]. split; discriminate. }
  destruct ((first >=? chr "0") && (first <=? chr "9")).
  { split; [exact (parse_number_follows _ _ _ _ _ H)|].
    apply parse_number_kind in H. destruct H as [H _]. rewrite H.
    split; discriminate. }
  apply bind_Some_inv in H. destruct H as (b & f2 & Hw & H).
  split; [|].
  { cbn [keyword set_keyword] in H.
    destruct (lookupKeyword b); inversion H; subst;
      exact (parse_token_word_follows _ _ _ _ _ Hw). }
  cbn [keyword set_keyword] in H.
  destruct (lookupKeyword b); inversion H; subst; cbn [token set_token];
    split; discriminate.
Qed.

Lemma no_open_tail (c : Z) (l : list Z) :
  no_open (c :: l) = true -> no_open l = true.
Proof.
  destruct l as [|d l]; [reflexivity|].
  cbn [no_open]. intros H. apply andb_true_iff in H. tauto.
Qed.

Lemma no_open_skipn (k : nat) :
  forall l, no_open l = true -> no_open (skipn k l) = true.
Proof.
  induction k as [|k IH]; intros l H; [exact H|].
  destruct l as [|c l]; [exact H|]. cbn [skipn].
  apply IH. exact (no_open_tail _ _ H).
Qed.

Lemma no_open_app_r (ws l : list Z) :
  no_open (ws ++ l) = true -> no_open l = true.
Proof.
  induction ws as [|c ws IH]; intros H; [exact H|].
  apply IH. exact (no_open_tail _ _ H).
Qed.

Lemma no_open_reads (f f' : inputFile) :
  reads f f' -> no_open (pending f) = true -> no_open (pending f') = true.
Proof.
  intros [[(k & Hk)|Hk] _] H; rewrite Hk;
    [apply no_open_skipn; exact H|reflexivity].
Qed.

Lemma parse_token_no_comment_start (fuel : nat) (f f' : inputFile) (t : Token) :
  no_open (pending f) = true ->
  parse_token fuel f = Some (t, f') ->
  token t <> token_comment_start.
Proof.
  intros Hno H Hc.
  destruct (parse_token_shape _ _ _ _ H) as [(He & _)|
    (first & g & ws & Hp & _ & _ & _ & _ & _ & Hstart)].
  - rewrite He in Hc. discriminate Hc.
  - destruct (Hstart Hc) as (l & Hl & ->).
    rewrite Hp, Hl in Hno. apply no_open_app_r in Hno.
    cbn in Hno. discriminate Hno.
Qed.

(** ** The bracket skipper, one step at a time *)

Lemma skip_open_close_loop_char (fuel : nat) (e : Z) (n : counters)
    (f f1 : inputFile) (c : Z) :
  getcFromInputFile f = Some (c, f1) ->
  (c =? EOF) = false ->
  (c =? chr "/") = false ->
  skip_open_close_loop (S fuel) e n f
  = if (c =? e) && all_zero (bump c n) then Some (tt, f1)
    else skip_open_close_loop fuel e (bump c n) f1.
Proof.
  intros Hg He Hs. cbn [skip_open_close_loop].
  rewrite (bind_eq _ _ _ _ _ Hg). rewrite He.
  unfold bump. rewrite Hs.
  repeat match goal with
         | |- context [c =? chr ?x] => destruct (c =? chr x)
         end;
    unfold bind, ret;
    match goal with
    | |- context [if ?b then _ else _] => destruct b
    end;
    reflexivity.
Qed.

Lemma skip_open_close_loop_comment (fuel : nat) (e : Z) (n : counters)
    (f f1 f2 f3 : inputFile) (next : Z) :
  getcFromInputFile f = Some (chr "/", f1) ->
  getcFromInputFile f1 = Some (next, f2) ->
  (if next =? chr "/" then skip_until_eol (S fuel)
   else if next =? chr "*" then skip_comment_block (S fuel)
   else ret tt) f2 = Some (tt, f3) ->
  skip_open_close_loop (S fuel) e n f
  = if (chr "/" =? e) && all_zero n then Some (tt, f3)
    else skip_open_close_loop fuel e n f3.
Proof.
  intros Hg Hg2 Hskip. cbn [skip_open_close_loop].
  rewrite (bind_eq _ _ _ _ _ Hg).
  repeat match goal with
         | |- context [chr "/" =? chr ?x] =>
             let v := eval vm_compute in (chr "/" =? chr x) in
             change (chr "/" =? chr x) with v
         end.
  change (chr "/" =? EOF) with false. cbv iota.
  unfold bind at 1 2. rewrite Hg2. unfold bind at 1. rewrite Hskip.
  unfold bind, ret. destruct ((chr "/" =? e) && all_zero n); reflexivity.
Qed.

Lemma skip_open_close_loop_total (fuel : nat) :
  forall (e : Z) (n : counters) (f : inputFile),
    no_open (pending f) = true ->
    (avail f < fuel)%nat ->
    exists f', skip_open_close_loop fuel e n f = Some (tt, f').
Proof.
  induction fuel as [|fuel IH]; intros e n f Hno Hlt; [lia|].
  unfold avail in Hlt.
  pose proof (getc_pending f) as Hg.
  destruct (pending f) as [|c l] eqn:Ef.
  { exists f. cbn [skip_open_close_loop].
    rewrite (bind_eq _ _ _ _ _ Hg). reflexivity. }
  destruct Hg as (f1 & Hg & Hp1). cbn [List.length] in Hlt.
  assert (Hno1 : no_open (pending f1) = true)
    by (rewrite Hp1; exact (no_open_tail _ _ Hno)).
  destruct (c =? EOF) eqn:Ee.
  { exists f1. cbn [skip_open_close_loop].
    rewrite (bind_eq _ _ _ _ _ Hg). rewrite Ee. reflexivity. }
  destruct (c =? chr "/") eqn:Es.
  2:{ rewrite (skip_open_close_loop_char _ _ _ _ _ _ Hg Ee Es).
      destruct ((c =? e) && all_zero (bump c n)); [eexists; reflexivity|].
      apply IH; [assumption|]. unfold avail. rewrite Hp1. lia. }
  apply Z.eqb_eq in Es. subst c.
  pose proof (getc_pending f1) as Hg2. rewrite Hp1 in Hg2.
  assert (Hrest : forall next f2 f3,
             getcFromInputFile f1 = Some (next, f2) ->
             (if next =? chr "/" then skip_until_eol (S fuel)
              else if next =? chr "*" then skip_comment_block (S fuel)
              else ret tt) f2 = Some (tt, f3) ->
             reads f2 f3 ->
             (avail f3 <= avail f2)%nat ->
             (avail f2 <= List.length l)%nat ->
             exists f', skip_open_close_loop (S fuel) e n f = Some (tt, f')).
  { intros next f2 f3 Hn Hsk Hr Hsh Hav.
    rewrite (skip_open_close_loop_comment _ _ _ _ _ _ _ _ Hg Hn Hsk).
    destruct ((chr "/" =? e) && all_zero n); [eexists; reflexivity|].
    apply IH.
    - apply (no_open_reads f1); [|assumption].
      exact (reads_trans _ _ _ (getc_reads _ _ _ Hn) Hr).
    - lia. }
  destruct l as [|d l'].
  { apply (Hrest EOF f1 f1 Hg2); [reflexivity|apply reads_refl|lia|].
    unfold avail. rewrite Hp1. cbn. lia. }
  destruct Hg2 as (f2 & Hg2 & Hp2).
  assert (Hav2 : (avail f2 <= List.length (d :: l'))%nat)
    by (unfold avail; rewrite Hp2; cbn; lia).
  destruct (d =? chr "/") eqn:Ed.
  { destruct (skip_until_eol_total (S fuel) f2) as (f3 & H3 & _).
    { unfold avail. rewrite Hp2. cbn [List.length] in Hlt. lia. }
    apply (Hrest d f2 f3 Hg2); [rewrite Ed; exact H3| | |exact Hav2].
    - exact (skip_until_eol_follows _ _ _ _ H3).
    - exact (skip_until_eol_shrinks _ _ _ _ H3). }
  destruct (d =? chr "*") eqn:Ed2.
  { apply Z.eqb_eq in Ed2. subst d. cbn in Hno. discriminate Hno. }
  apply (Hrest d f2 f2 Hg2);
    [rewrite Ed, Ed2; reflexivity|apply reads_refl|lia|exact Hav2].
Qed.

(** ** Every return of the recognizer is a reading *)

Lemma followsD_retD {A : Type} (a : A) : followsD (retD a).
Proof. intros f calls a' f' H. inversion H; subst. apply reads_refl. Qed.

Lemma followsD_out_of_fuelD {A : Type} : followsD (@out_of_fuelD A).
Proof. intros f calls a f' H. discriminate H. Qed.

Lemma followsD_lift {A : Type} (m : M A) : follows m -> followsD (lift m).
Proof.
  intros Hm f calls a f' H. unfold lift in H. inversion H as [[H1 H2]].
  exact (Hm _ _ _ H2).
Qed.

Lemma followsD_make_tag_entry (t : Token) (k : DeclarationKind) :
  followsD (make_tag_entry t k).
Proof. intros f calls a f' H. inversion H; subst. apply reads_refl. Qed.

Lemma followsD_bindD {A B : Type} (m : D A) (k : A -> D B) :
  followsD m -> (forall a, followsD (k a)) -> followsD (bindD m k).
Proof.
  intros Hm Hk f calls b f'. unfold bindD.
  destruct (m f) as [c [[a f1]|]] eqn:E; [|discriminate].
  destruct (k a f1) as [c' r] eqn:E'. intros H. inversion H; subst.
  exact (reads_trans _ _ _ (Hm _ _ _ _ E) (Hk _ _ _ _ _ E')).
Qed.

#[local] Hint Resolve followsD_retD followsD_out_of_fuelD
  followsD_make_tag_entry : reading.

Ltac followsD_cases :=
  repeat match goal with
    | |- followsD (bindD _ _) => apply followsD_bindD; [|intro]
    | |- followsD (lift _) => apply followsD_lift
    | |- followsD (match ?x with _ => _ end) => destruct x
    end;
  auto with reading.

Lemma find_kotlin_tags_dispatch_follows (fuel : nat) (t : Token) :
  followsD (find_kotlin_tags_dispatch fuel t).
Proof. unfold find_kotlin_tags_dispatch. followsD_cases. Qed.

Lemma find_kotlin_tags_follows (fuel : nat) : followsD (find_kotlin_tags fuel).
Proof.
  induction fuel as [|fuel IH]; cbn [find_kotlin_tags];
    [apply followsD_out_of_fuelD|].
  apply followsD_bindD; [apply followsD_lift; auto with reading|].
  intros t. destruct (token t); try apply followsD_retD;
    (apply followsD_bindD;
     [apply find_kotlin_tags_dispatch_follows|intros _; exact IH]).
Qed.

(** ** Runs without block comments *)

Lemma good_reads (fuel : nat) (f f' : inputFile) :
  good fuel f -> reads f f' -> good fuel f'.
Proof.
  intros (Hno & Hlt & H1) Hr. split; [exact (no_open_reads _ _ Hr Hno)|].
  split; [|assumption].
  destruct Hr as [[(k & Hk)|Hk] _]; unfold avail in *; rewrite Hk.
  - rewrite length_skipn. lia.
  - cbn. lia.
Qed.

Lemma safe_parse_token (fuel : nat) : safe fuel (parse_token fuel).
Proof.
  intros f (_ & Hlt & _).
  destruct (parse_token_total fuel f Hlt) as (t & f' & H & _).
  exists t, f'. split; [assumption|exact (parse_token_follows _ _ _ _ H)].
Qed.

Lemma safe_skip_until_eol (fuel : nat) : safe fuel (skip_until_eol fuel).
Proof.
  intros f (_ & Hlt & _).
  destruct (skip_until_eol_total fuel f Hlt) as (f' & H & _).
  exists tt, f'. split; [assumption|exact (skip_until_eol_follows _ _ _ _ H)].
Qed.

Lemma safe_skip_open_close (fuel : nat) (e : Z) :
  safe fuel (skip_open_close fuel e).
Proof.
  intros f (Hno & Hlt & _). unfold skip_open_close.
  destruct (skip_open_close_loop_total fuel e (expect e) f Hno Hlt)
    as (f' & H).
  exists tt, f'. split; [assumption|].
  exact (skip_open_close_loop_follows _ _ _ _ _ _ H).
Qed.

Lemma safeD_retD (fuel : nat) {A : Type} (a : A) : safeD fuel (retD a).
Proof. intros f _. exists [], a, f. split; [reflexivity|apply reads_refl]. Qed.

Lemma safeD_make_tag_entry (fuel : nat) (t : Token) (k : DeclarationKind) :
  safeD fuel (make_tag_entry t k).
Proof.
  intros f _. exists [(t, k)], tt, f. split; [reflexivity|apply reads_refl].
Qed.

Lemma safeD_lift (fuel : nat) {A : Type} (m : M A) :
  safe fuel m -> safeD fuel (lift m).
Proof.
  intros Hm f Hf. destruct (Hm f Hf) as (a & f' & H & Hr).
  exists [], a, f'. split; [apply lift_eq; exact H|exact Hr].
Qed.

Lemma safeD_bindD (fuel : nat) {A B : Type} (m : D A) (k : A -> D B) :
  safeD fuel m -> (forall a, safeD fuel (k a)) -> safeD fuel (bindD m k).
Proof.
  intros Hm Hk f Hf.
  destruct (Hm f Hf) as (calls & a & f1 & H1 & R1).
  destruct (Hk a f1 (good_reads _ _ _ Hf R1)) as (calls' & b & f2 & H2 & R2).
  exists (calls ++ calls')%list, b, f2. split.
  - rewrite (bindD_eq _ _ _ _ _ _ H1). rewrite H2. reflexivity.
  - exact (reads_trans _ _ _ R1 R2).
Qed.

Ltac safeD_cases :=
  repeat match goal with
    | |- safeD _ (bindD _ _) => apply safeD_bindD; [|intro]
    | |- safeD _ (lift (parse_token _)) =>
        apply safeD_lift; apply safe_parse_token
    | |- safeD _ (lift (skip_until_eol _)) =>
        apply safeD_lift; apply safe_skip_until_eol
    | |- safeD _ (lift (skip_open_close _ _)) =>
        apply safeD_lift; apply safe_skip_open_close
    | |- safeD _ (retD _) => apply safeD_retD
    | |- safeD _ (make_tag_entry _ _) => apply safeD_make_tag_entry
    | |- safeD _ (match ?x with _ => _ end) => destruct x
    end.

Lemma find_kotlin_tags_dispatch_safe (fuel : nat) (t : Token) :
  token t <> token_comment_start ->
  safeD fuel (find_kotlin_tags_dispatch fuel t).
Proof.
  intros Ht. unfold find_kotlin_tags_dispatch.
  destruct (token t); try contradiction; safeD_cases.
Qed.

Lemma parse_token_first_at_EOF (n : nat) (f f1 : inputFile) :
  getcFromInputFile f = Some (EOF, f1) ->
  parse_token_first (S n) f = Some (None, f1).
Proof.
  intros Hg. cbn [parse_token_first]. rewrite (bind_eq _ _ _ _ _ Hg).
  reflexivity.
Qed.

Lemma parse_token_at_EOF (n : nat) (f f1 : inputFile) :
  getcFromInputFile f = Some (EOF, f1) ->
  exists t, parse_token (S n) f = Some (t, f1) /\ token t = token_eof.
Proof.
  intros Hg. unfold parse_token.
  cbv [getInputLineNumber getInputFilePosition]. unfold bind at 1 2.
  rewrite (bind_eq _ _ _ _ _ (parse_token_first_at_EOF n _ _ Hg)).
  eexists. split; reflexivity.
Qed.

Lemma find_kotlin_tags_at_EOF (n : nat) (f : inputFile) :
  pending f = [EOF] ->
  exists f', find_kotlin_tags (S n) f = ([], Some (tt, f')).
Proof.
  intros Hp. pose proof (getc_pending f) as Hg. rewrite Hp in Hg.
  destruct Hg as (f1 & Hg & _).
  destruct (parse_token_at_EOF n _ _ Hg) as (t & Ht & He).
  exists f1. cbn [find_kotlin_tags].
  rewrite (bindD_lift_eq _ _ _ _ _ Ht). rewrite He. reflexivity.
Qed.

Lemma find_kotlin_tags_continue (fuel fuel' : nat) (t : Token) :
  token t <> token_eof ->
  match token t with
  | token_eof => retD tt
  | _ => find_kotlin_tags_dispatch fuel t ;;; find_kotlin_tags fuel'
  end = (find_kotlin_tags_dispatch fuel t ;;; find_kotlin_tags fuel').
Proof. intros H. destruct (token t); try reflexivity. contradiction. Qed.

Lemma find_kotlin_tags_total (n : nat) :
  forall f : inputFile,
    no_open (pending f) = true ->
    (avail f < n)%nat ->
    exists calls f', find_kotlin_tags n f = (calls, Some (tt, f')).
Proof.
  induction n as [|n IH]; intros f Hno Hlt; [lia|].
  destruct (parse_token_total (S n) f Hlt) as (t & f1 & E1 & A1).
  cbn [find_kotlin_tags]. rewrite (bindD_lift_eq _ _ _ _ _ E1).
  destruct (parse_token_shape _ _ _ _ E1) as [(He & _)|
    (first & g & ws & Hp & _ & _ & _ & Hr & Hne & _)].
  { rewrite He. eexists _, _. reflexivity. }
  rewrite (find_kotlin_tags_continue _ _ _ Hne).
  assert (Hg : (S (avail g) <= avail f)%nat).
  { unfold avail. rewrite Hp, length_app. cbn. lia. }
  assert (Hgood : good (S n) f1).
  { split; [exact (no_open_reads _ _ (parse_token_follows _ _ _ _ E1) Hno)|].
    split; lia. }
  destruct (find_kotlin_tags_dispatch_safe (S n) t
              (parse_token_no_comment_start _ _ _ _ Hno E1) f1 Hgood)
    as (calls & [] & f2 & H2 & R2).
  rewrite (bindD_eq _ _ _ _ _ _ H2).
  assert (Hloop : exists calls' f', find_kotlin_tags n f2
                                    = (calls', Some (tt, f'))).
  { destruct (reads_trans _ _ _ Hr R2) as [[(k & Hk)|Hk] _].
    - apply IH; [exact (no_open_reads _ _ R2 (proj1 Hgood))|].
      unfold avail in *. rewrite Hk, length_skipn. lia.
    - destruct n as [|n]; [lia|].
      destruct (find_kotlin_tags_at_EOF n f2 Hk) as (f' & H').
      eexists _, _. exact H'. }
  destruct Hloop as (calls' & f' & H'). rewrite H'.
  eexists _, _. reflexivity.
Qed.

(** X1.  On an input in which no block comment opens, the recognizer
    returns: fuel beyond the number of characters left to read is enough,
    whatever else the input holds. *)
Theorem find_kotlin_tags_returns_without_block_comment
    (fuel : nat) (f : inputFile) :
  no_open (pending f) = true ->
  (avail f < fuel)%nat ->
  exists calls f',
    find_kotlin_tags fuel f = (calls, Some (tt, f')) /\ reads f f'.
Proof.
  intros Hno Hlt.
  destruct (find_kotlin_tags_total fuel f Hno Hlt) as (calls & f' & H).
  exists calls, f'. split; [exact H|].
  exact (find_kotlin_tags_follows _ _ _ _ _ H).
Qed.

Lemma find_kotlin_tags_returns_without_block_comment_witness :
  exists calls f',
    find_kotlin_tags 40 (openInputFile "class A // fun b() * /")
    = (calls, Some (tt, f'))
    /\ reads (openInputFile "class A // fun b() * /") f'.
Proof.
  apply (find_kotlin_tags_returns_without_block_comment 40%nat
           (openInputFile "class A // fun b() * /")).
  - vm_compute. reflexivity.
  - vm_compute. lia.
Defined.

(** X2.  Whatever a function of the parser leaves to read when it returns is
    what was left before from some point on, or the end of input alone,
    pushed back; and it leaves at most one character pushed back when it
    found at most one. *)
Theorem parser_reads_in_order :
  (forall fuel f t f',
      parse_token fuel f = Some (t, f') -> reads f f')
  /\ (forall fuel f u f',
         skip_until_eol fuel f = Some (u, f') -> reads f f')
  /\ (forall fuel f u f',
         skip_comment_block fuel f = Some (u, f') -> reads f f')
  /\ (forall fuel e f u f',
         skip_open_close fuel e f = Some (u, f') -> reads f f')
  /\ (forall fuel f calls u f',
         find_kotlin_tags fuel f = (calls, Some (u, f')) ->
         reads f f' /\ ((ungot f <= 1)%nat -> (ungot f' <= 1)%nat)).
Proof.
  split; [exact parse_token_follows|].
  split; [exact skip_until_eol_follows|].
  split; [exact skip_comment_block_follows|].
  split; [exact skip_open_close_follows|].
  intros fuel f calls u f' H.
  pose proof (find_kotlin_tags_follows _ _ _ _ _ H) as Hr.
  split; [exact Hr|]. destruct Hr as [_ Hu]. lia.
Qed.

Lemma parser_reads_in_order_witness :
  reads (openInputFile "val x = 1")
    {| ungetchBuf := [chr " "];
       content := list_ascii_of_string "x = 1";
       currentLine := 1; currentPosition := 4 |}.
Proof.
  apply (proj1 parser_reads_in_order 10%nat (openInputFile "val x = 1")
           {| keyword := Some keyword_val; token := token_keyword;
              line_number := 1; file_position := 1; buffer := "val" |}).
  vm_compute. reflexivity.
Defined.

Lemma skipn_app_cons {A : Type} (ws : list A) (x : A) (l : list A) (k : nat) :
  skipn (S (List.length ws + k)) (ws ++ x :: l) = skipn k l.
Proof.
  induction ws as [|w ws IH]; [reflexivity|]. cbn [List.length app].
  change (S (S (List.length ws) + k)) with (S (S (List.length ws + k))).
  cbn [skipn]. exact IH.
Qed.

(** X3.  With fuel beyond the characters left to read, [parse_token]
    returns.  Unless the token is the end of input, it has taken at least
    one character: what is left is what was left from a later point on, or
    the end of input alone, pushed back. *)
Theorem parse_token_returns_and_advances (fuel : nat) (f : inputFile) :
  (avail f < fuel)%nat ->
  exists t f',
    parse_token fuel f = Some (t, f')
    /\ (avail f' <= avail f)%nat
    /\ (token t = token_eof
        \/ (exists k, pending f' = skipn (S k) (pending f))
        \/ pending f' = [EOF]).
Proof.
  intros Hlt.
  destruct (parse_token_total fuel f Hlt) as (t & f' & H & Ha).
  exists t, f'. split; [exact H|]. split; [exact Ha|].
  destruct (parse_token_shape _ _ _ _ H) as [(He & _)|
    (first & g & ws & Hp & _ & _ & _ & Hr & _ & _)]; [left; exact He|].
  right. destruct Hr as [[(k & Hk)|Hk] _]; [left|right; exact Hk].
  exists (List.length ws + k)%nat. rewrite Hk, Hp.
  symmetry. apply skipn_app_cons.
Qed.

Lemma parse_token_returns_and_advances_witness :
  exists t f',
    parse_token 10 (openInputFile "  fun f()") = Some (t, f')
    /\ (avail f' <= avail (openInputFile "  fun f()"))%nat
    /\ (token t = token_eof
        \/ (exists k, pending f'
                      = skipn (S k) (pending (openInputFile "  fun f()")))
        \/ pending f' = [EOF]).
Proof.
  apply (parse_token_returns_and_advances 10%nat
           (openInputFile "  fun f()")).
  vm_compute. lia.
Defined.

(** ** Blanks and words *)

Lemma parse_token_first_skips_blanks :
  forall (ws : list ascii) (fuel : nat) (f : inputFile) (l : list ascii),
    ungetchBuf f = [] ->
    content f = (ws ++ l)%list ->
    Forall (fun a => is_blank (chr a) = true) ws ->
    (List.length ws < fuel)%nat ->
    match l with
    | [] => exists f1, parse_token_first fuel f = Some (None, f1)
                       /\ ungetchBuf f1 = [] /\ content f1 = []
    | a :: l' =>
        is_blank (chr a) = false ->
        exists f1, parse_token_first fuel f = Some (Some (chr a), f1)
                   /\ ungetchBuf f1 = [] /\ content f1 = l'
    end.
Proof.
  induction ws as [|w ws IH]; intros fuel f l Hu Hc Hws Hlt;
    (destruct fuel as [|fuel]; [cbn in Hlt; lia|]);
    cbn [parse_token_first]; cbn [app] in Hc.
  - destruct l as [|a l'].
    + exists f. unfold bind, getcFromInputFile. rewrite Hu, Hc. auto.
    + intros Hb. unfold bind, getcFromInputFile. rewrite Hu, Hc.
      fold (is_blank (chr a)). rewrite Hb. rewrite chr_not_EOF.
      eexists. split; [reflexivity|]. split; reflexivity.
  - apply Forall_cons_iff in Hws. destruct Hws as [Hw Hws].
    assert (Hlt' : (List.length ws < fuel)%nat) by (cbn in Hlt; lia).
    destruct l as [|a l']; [|intros Hb];
      unfold bind at 1; unfold getcFromInputFile at 1; rewrite Hu, Hc;
      fold (is_blank (chr w)); rewrite Hw;
      match goal with
      | |- context [parse_token_first fuel ?f1] =>
          pose proof (IH fuel f1 _ eq_refl eq_refl Hws Hlt') as IH'
      end; cbn beta iota in IH'; auto.
Qed.

(** X4.  On an input of blanks alone (spaces, carriage returns, newlines,
    tabs), the empty input among them, the recognizer returns and reports no
    tag. *)
Theorem blank_input_reports_nothing (text : string) :
  Forall (fun a => is_blank (chr a) = true) (list_ascii_of_string text) ->
  reported text [].
Proof.
  intros Hws.
  pose proof (parse_token_first_skips_blanks (list_ascii_of_string text)
                (S (List.length (list_ascii_of_string text)))
                (openInputFile text) [] eq_refl) as H.
  cbn [openInputFile content] in H. rewrite app_nil_r in H.
  destruct (H eq_refl Hws (Nat.lt_succ_diag_r _)) as (f1 & H1 & _ & _).
  exists (S (List.length (list_ascii_of_string text))), [], (tt, f1).
  split; [|reflexivity].
  cbn [find_kotlin_tags].
  assert (Ht : exists t,
             parse_token (S (List.length (list_ascii_of_string text)))
               (openInputFile text) = Some (t, f1)
             /\ token t = token_eof).
  { unfold parse_token. cbv [getInputLineNumber getInputFilePosition].
    unfold bind at 1 2. rewrite (bind_eq _ _ _ _ _ H1).
    eexists. split; reflexivity. }
  destruct Ht as (t & Ht & He).
  rewrite (bindD_lift_eq _ _ _ _ _ Ht). rewrite He. reflexivity.
Qed.

Lemma blank_input_reports_nothing_witness :
  reported (String " " (String "010" (String "009" (String "013" "")))) [].
Proof.
  apply (blank_input_reports_nothing
           (String " " (String "010" (String "009" (String "013" ""))))).
  repeat constructor.
Defined.

(** The same over what is left to read, a pushed-back character included. *)
Lemma parse_token_first_passes_blanks :
  forall (ws : list ascii) (fuel : nat) (f : inputFile) (l : list ascii),
    pending f = map chr (ws ++ l) ->
    Forall (fun a => is_blank (chr a) = true) ws ->
    (List.length ws < fuel)%nat ->
    match l with
    | [] => exists f1, parse_token_first fuel f = Some (None, f1)
                       /\ pending f1 = []
    | a :: l' =>
        is_blank (chr a) = false ->
        exists f1, parse_token_first fuel f = Some (Some (chr a), f1)
                   /\ pending f1 = map chr l'
    end.
Proof.
  induction ws as [|w ws IH]; intros fuel f l Hp Hws Hlt;
    (destruct fuel as [|fuel]; [cbn in Hlt; lia|]);
    cbn [parse_token_first]; pose proof (getc_pending f) as Hg;
    rewrite Hp in Hg; cbn [app map] in Hg.
  - destruct l as [|a l']; cbn [map] in Hg.
    + rewrite (bind_eq _ _ _ _ _ Hg). exists f. split; [reflexivity|exact Hp].
    + intros Hb. destruct Hg as (f1 & Hg & Hp1).
      rewrite (bind_eq _ _ _ _ _ Hg).
      fold (is_blank (chr a)). rewrite Hb. rewrite chr_not_EOF.
      exists f1. split; [reflexivity|exact Hp1].
  - apply Forall_cons_iff in Hws. destruct Hws as [Hw Hws].
    assert (Hlt' : (List.length ws < fuel)%nat) by (cbn in Hlt; lia).
    destruct Hg as (f1 & Hg & Hp1).
    rewrite (bind_eq _ _ _ _ _ Hg). fold (is_blank (chr w)). rewrite Hw.
    exact (IH fuel f1 l Hp1 Hws Hlt').
Qed.

Lemma parse_token_word_takes :
  forall (w : list ascii) (fuel : nat) (b : string) (f : inputFile)
         (rest : list ascii),
    pending f = map chr (w ++ rest) ->
    Forall (fun a => is_delimiter (chr a) = false) w ->
    rest = [] \/ (exists d rest', rest = d :: rest'
                                  /\ is_delimiter (chr d) = true) ->
    (List.length w < fuel)%nat ->
    exists f',
      parse_token_word fuel b f
      = Some (String.append b (string_of_list_ascii w), f')
      /\ pending f' = map chr rest.
Proof.
  induction w as [|a w IH]; intros fuel b f rest Hp Hw Hrest Hlt;
    (destruct fuel as [|fuel]; [cbn in Hlt; lia|]);
    cbn [parse_token_word string_of_list_ascii];
    pose proof (getc_pending f) as Hg; rewrite Hp in Hg; cbn [app map] in Hg.
  - rewrite append_nil_r.
    destruct Hrest as [->|(d & rest' & -> & Hd)]; cbn [map] in Hg.
    + rewrite (bind_eq _ _ _ _ _ Hg). exists f. split; [reflexivity|exact Hp].
    + destruct Hg as (f1 & Hg & Hp1). rewrite (bind_eq _ _ _ _ _ Hg).
      rewrite chr_not_EOF, Hd.
      destruct (ungetc_pending (chr d) f1) as (f2 & Hu & Hp2).
      rewrite (bind_eq _ _ _ _ _ Hu). exists f2. split; [reflexivity|].
      rewrite Hp2, Hp1. reflexivity.
  - apply Forall_cons_iff in Hw. destruct Hw as [Ha Hw].
    destruct Hg as (f1 & Hg & Hp1). rewrite (bind_eq _ _ _ _ _ Hg).
    rewrite chr_not_EOF, Ha.
    destruct (IH fuel (vStringPut b (chr a)) f1 rest Hp1 Hw Hrest)
      as (f' & H1 & H2); [cbn in Hlt; lia|].
    exists f'. split; [|assumption]. rewrite H1.
    unfold vStringPut. rewrite ascii_of_int_chr, append_snoc. reflexivity.
Qed.

(** X5.  A word is taken whole.  When what is left to read, a pushed-back
    character included, is blanks, then a character that starts a word, then
    characters that are no delimiters, and then a delimiter or the end of the
    input, [parse_token] returns the word as the text of the token: a keyword
    token with its code when the keyword table has the word, an identifier
    token otherwise.  The delimiter is left to read. *)
Theorem parse_token_takes_whole_word
    (fuel : nat) (f : inputFile) (ws : list ascii) (a : ascii)
    (w rest : list ascii) :
  pending f = map chr (ws ++ a :: w ++ rest) ->
  Forall (fun c => is_blank (chr c) = true) ws ->
  starts_word (chr a) = true ->
  Forall (fun c => is_delimiter (chr c) = false) w ->
  rest = [] \/ (exists d rest', rest = d :: rest'
                                /\ is_delimiter (chr d) = true) ->
  (List.length ws < fuel)%nat ->
  (List.length w < fuel)%nat ->
  exists t f',
    parse_token fuel f = Some (t, f')
    /\ buffer t = string_of_list_ascii (a :: w)
    /\ keyword t = lookupKeyword (buffer t)
    /\ token t = match lookupKeyword (buffer t) with
                  | Some _ => token_keyword
                  | None => token_identifier
                  end
    /\ pending f' = map chr rest.
Proof.
  intros Hp Hws Ha Hw Hrest Hlt1 Hlt2.
  unfold starts_word in Ha. apply andb_true_iff in Ha. destruct Ha as [Ha Hd].
  apply andb_true_iff in Ha. destruct Ha as [Ha Hs].
  apply andb_true_iff in Ha. destruct Ha as [Hb Hk].
  apply negb_true_iff in Hb, Hs, Hd.
  pose proof (parse_token_first_passes_blanks ws fuel f (a :: w ++ rest)
                Hp Hws Hlt1 Hb) as (f1 & H1 & Hp1).
  destruct (parse_token_word_takes w fuel (vStringPut "" (chr a)) f1 rest
              Hp1 Hw Hrest Hlt2) as (f' & H2 & Hp').
  unfold parse_token. cbv [getInputLineNumber getInputFilePosition].
  unfold bind at 1 2. rewrite (bind_eq _ _ _ _ _ H1).
  unfold bind at 1 2.
  destruct (single_char_token (chr a)); [discriminate Hk|].
  rewrite Hs, Hd.
  cbn [buffer set_location]. rewrite (bind_eq _ _ _ _ _ H2).
  unfold vStringPut. rewrite ascii_of_int_chr.
  cbn [String.append keyword set_keyword string_of_list_ascii].
  destruct (lookupKeyword (String a (string_of_list_ascii w))) eqn:El;
    eexists _, _; (split; [reflexivity|]);
    cbn [buffer keyword token set_token set_keyword set_buffer set_location];
    rewrite El; auto.
Qed.

Lemma parse_token_takes_whole_word_witness :
  exists t f',
    parse_token 10
      {| ungetchBuf := [chr " "];
         content := list_ascii_of_string "Foo {";
         currentLine := 1; currentPosition := 6 |}
    = Some (t, f')
    /\ buffer t = string_of_list_ascii (list_ascii_of_string "Foo")
    /\ keyword t = lookupKeyword (buffer t)
    /\ token t = match lookupKeyword (buffer t) with
                  | Some _ => token_keyword
                  | None => token_identifier
                  end
    /\ pending f' = map chr (list_ascii_of_string " {").
Proof.
  apply (parse_token_takes_whole_word 10%nat
           {| ungetchBuf := [chr " "];
              content := list_ascii_of_string "Foo {";
              currentLine := 1; currentPosition := 6 |}
           (list_ascii_of_string " ") "F"%char
           (list_ascii_of_string "oo") (list_ascii_of_string " {")).
  - reflexivity.
  - repeat constructor.
  - reflexivity.
  - repeat constructor.
  - right. eexists _, _. split; reflexivity.
  - cbn. lia.
  - cbn. lia.
Defined.

(** ** The kinds of tokens *)

Lemma single_char_token_plain (first : Z) (k : TokenType) :
  single_char_token first = Some k -> In k plain_kinds.
Proof.
  unfold single_char_token, plain_kinds.
  repeat match goal with
         | |- context [if ?c then _ else _] => destruct c
         end;
    intros H; inversion H; subst; cbn; tauto.
Qed.

Lemma parse_token_word_extends (fuel : nat) :
  forall b f b' f',
    parse_token_word fuel b f = Some (b', f') ->
    exists s, b' = String.append b s.
Proof.
  induction fuel as [|fuel IH]; intros b f b' f' H; [discriminate H|].
  cbn [parse_token_word] in H. apply bind_Some_inv in H.
  destruct H as (ch & f1 & _ & H).
  destruct (ch =? EOF).
  { inversion H; subst. exists "". symmetry. apply append_nil_r. }
  destruct (is_delimiter ch).
  { apply bind_Some_inv in H. destruct H as (_ & f2 & _ & H).
    inversion H; subst. exists "". symmetry. apply append_nil_r. }
  destruct (IH _ _ _ _ H) as (s & ->).
  exists (String (ascii_of_int ch) s). unfold vStringPut.
  apply append_snoc.
Qed.

Lemma parse_number_integral_extends (fuel : nat) :
  forall b f r f',
    parse_number_integral fuel b f = Some (r, f') ->
    exists s, fst r = String.append b s.
Proof.
  induction fuel as [|fuel IH]; intros b f r f' H; [discriminate H|].
  cbn [parse_number_integral] in H. apply bind_Some_inv in H.
  destruct H as (ch & f1 & _ & H).
  assert (Hrec : forall r f',
             parse_number_integral fuel (vStringPut b ch) f1 = Some (r, f') ->
             exists s, fst r = String.append b s).
  { intros r0 f0 H0. destruct (IH _ _ _ _ H0) as (s & Hs).
    exists (String (ascii_of_int ch) s). rewrite Hs. apply append_snoc. }
  destruct ((ch >=? chr "0") && (ch <=? chr "9")); [eauto|].
  destruct (ch =? chr "_"); [eauto|].
  destruct (ch =? chr ".").
  { inversion H; subst. eexists. reflexivity. }
  apply bind_Some_inv in H. destruct H as (_ & f2 & _ & H).
  inversion H; subst. exists "". symmetry. apply append_nil_r.
Qed.

Lemma parse_number_fraction_extends (fuel : nat) :
  forall b f b' f',
    parse_number_fraction fuel b f = Some (b', f') ->
    exists s, b' = String.append b s.
Proof.
  induction fuel as [|fuel IH]; intros b f b' f' H; [discriminate H|].
  cbn [parse_number_fraction] in H. apply bind_Some_inv in H.
  destruct H as (ch & f1 & _ & H).
  assert (Hrec : forall b' f',
             parse_number_fraction fuel (vStringPut b ch) f1 = Some (b', f') ->
             exists s, b' = String.append b s).
  { intros b0 f0 H0. destruct (IH _ _ _ _ H0) as (s & Hs).
    exists (String (ascii_of_int ch) s). rewrite Hs. apply append_snoc. }
  destruct ((ch >=? chr "0") && (ch <=? chr "9")); [eauto|].
  destruct (ch =? chr "_"); [eauto|].
  destruct (ch =? chr "f").
  { inversion H; subst. eexists. reflexivity. }
  apply bind_Some_inv in H. destruct H as (_ & f2 & _ & H).
  inversion H; subst. exists "". symmetry. apply append_nil_r.
Qed.

Lemma append_assoc (a b c : string) :
  String.append (String.append a b) c = String.append a (String.append b c).
Proof. induction a as [|x a IH]; cbn; [reflexivity|]. rewrite IH. reflexivity. Qed.

Lemma parse_number_extends (fuel : nat) (t t' : Token) (f f' : inputFile) :
  parse_number fuel t f = Some (t', f') ->
  exists s, buffer t' = String.append (buffer t) s.
Proof.
  unfold parse_number. intros H.
  apply bind_Some_inv in H. destruct H as (r & f1 & H1 & H).
  apply bind_Some_inv in H. destruct H as (b & f2 & H2 & H).
  inversion H; subst. cbn [buffer set_token set_buffer].
  destruct (parse_number_integral_extends _ _ _ _ _ H1) as (s1 & Hs1).
  destruct (snd r =? 0).
  - destruct (parse_number_fraction_extends _ _ _ _ _ H2) as (s2 & ->).
    rewrite Hs1. exists (String.append s1 s2). apply append_assoc.
  - inversion H2; subst. exists s1. exact Hs1.
Qed.

Lemma lookupKeyword_not_other (w : string) :
  lookupKeyword w <> Some keyword_other.
Proof.
  unfold lookupKeyword, KotlinKeywordTable. cbn [lookupKeywordIn].
  repeat match goal with
         | |- context [String.eqb w ?s] =>
             destruct (String.eqb w s); [discriminate|]
         end.
  discriminate.
Qed.

(** X6.  Every token [parse_token] returns is of one of four sorts: an
    identifier, with a text that is no keyword; a keyword, with its code,
    which is never [keyword_other]; a number; or one of seventeen kinds
    without text.  The kinds [token_string], [token_star] and
    [token_comment_end] are never given. *)
Theorem parse_token_sorts (fuel : nat) (f f' : inputFile) (t : Token) :
  parse_token fuel f = Some (t, f') ->
  ((token t = token_identifier /\ keyword t = None
    /\ lookupKeyword (buffer t) = None /\ buffer t <> "")
   \/ (token t = token_keyword
       /\ exists k, keyword t = Some k /\ lookupKeyword (buffer t) = Some k
                    /\ k <> keyword_other)
   \/ (token t = token_number /\ keyword t = Some keyword_other
       /\ buffer t <> "")
   \/ (In (token t) plain_kinds /\ keyword t = Some keyword_other
       /\ buffer t = ""))
  /\ token t <> token_string /\ token t <> token_star
  /\ token t <> token_comment_end.
Proof.
  intros H.
  assert (Hsorts :
    (token t = token_identifier /\ keyword t = None
     /\ lookupKeyword (buffer t) = None /\ buffer t <> "")
    \/ (token t = token_keyword
        /\ exists k, keyword t = Some k /\ lookupKeyword (buffer t) = Some k
                     /\ k <> keyword_other)
    \/ (token t = token_number /\ keyword t = Some keyword_other
        /\ buffer t <> "")
    \/ (In (token t) plain_kinds /\ keyword t = Some keyword_other
        /\ buffer t = "")).
  { revert H. unfold parse_token.
    cbv [getInputLineNumber getInputFilePosition].
    unfold bind at 1 2. intros H.
    apply bind_Some_inv in H. destruct H as ([first|] & f1 & _ & H).
    2:{ inversion H; subst. right. right. right. cbn. tauto. }
    unfold bind at 1 2 in H.
    destruct (single_char_token first) as [k|] eqn:Ek.
    { inversion H; subst. right. right. right.
      cbn [token keyword buffer set_token set_location].
      split; [exact (single_char_token_plain _ _ Ek)|]. auto. }
    destruct (first =? chr "/").
    { apply bind_Some_inv in H. destruct H as (second & f2 & _ & H).
      destruct (second =? chr "/"); [|destruct (second =? chr "*")];
        try (apply bind_Some_inv in H; destruct H as (_ & f3 & _ & H));
        inversion H; subst; right; right; right; cbn; tauto. }
    destruct ((first >=? chr "0") && (first <=? chr "9")).
    { right. right. left.
      destruct (parse_number_kind _ _ _ _ _ H) as [H1 H2].
      destruct (parse_number_extends _ _ _ _ _ H) as (s & Hs).
      split; [assumption|]. split; [rewrite H2; reflexivity|].
      rewrite Hs. cbn. discriminate. }
    apply bind_Some_inv in H. destruct H as (b & f2 & Hw & H).
    destruct (parse_token_word_extends _ _ _ _ _ Hw) as (s & Hs).
    assert (Hb : b <> "") by (rewrite Hs; cbn; discriminate).
    cbn [keyword set_keyword] in H.
    destruct (lookupKeyword b) as [k|] eqn:El; inversion H; subst t f2;
      cbn [token keyword buffer set_token set_keyword set_buffer set_location].
    - right. left. split; [reflexivity|]. exists k.
      split; [reflexivity|]. split; [assumption|].
      intros ->. exact (lookupKeyword_not_other _ El).
    - left. auto. }
  split; [exact Hsorts|].
  destruct Hsorts as [(H1 & _)|[(H1 & _)|[(H1 & _)|(H1 & _)]]];
    try (rewrite H1; repeat split; discriminate).
  cbn in H1. repeat split; intros E; rewrite E in H1;
    intuition discriminate.
Qed.

Lemma parse_token_sorts_witness :
  ((token dot_token = token_identifier /\ keyword dot_token = None
    /\ lookupKeyword (buffer dot_token) = None /\ buffer dot_token <> "")
   \/ (token dot_token = token_keyword
       /\ exists k, keyword dot_token = Some k
                    /\ lookupKeyword (buffer dot_token) = Some k
                    /\ k <> keyword_other)
   \/ (token dot_token = token_number
       /\ keyword dot_token = Some keyword_other
       /\ buffer dot_token <> "")
   \/ (In (token dot_token) plain_kinds
       /\ keyword dot_token = Some keyword_other
       /\ buffer dot_token = ""))
  /\ token dot_token <> token_string /\ token dot_token <> token_star
  /\ token dot_token <> token_comment_end.
Proof.
  apply (parse_token_sorts 40%nat after_receiver after_dot dot_token).
  vm_compute. reflexivity.
Defined.

(** ** The tables of the registration *)

Lemma lookupKeyword_in_table (w : string) (k : KeywordType) :
  lookupKeyword w = Some k -> In (w, k) KotlinKeywordTable.
Proof.
  unfold lookupKeyword, KotlinKeywordTable. cbn [lookupKeywordIn].
  repeat match goal with
         | |- context [String.eqb w ?s] =>
             let E := fresh "E" in
             destruct (String.eqb w s) eqn:E;
             [ apply String.eqb_eq in E; subst w; intros H; inversion H;
               subst k; cbn; tauto | ]
         end.
  discriminate.
Qed.

Lemma in_table_lookupKeyword (w : string) (k : KeywordType) :
  In (w, k) KotlinKeywordTable -> lookupKeyword w = Some k.
Proof.
  intros H. cbn in H.
  repeat (destruct H as [H|H]; [inversion H; subst; reflexivity|]).
  contradiction.
Qed.

(** X7.  The keyword lookup over [KotlinKeywordTable] finds a word exactly
    when the table pairs it with a code, and then gives that code; no two
    words share a code, every code but [keyword_other] has its word, and
    [keyword_other] has none. *)
Theorem KotlinKeywordTable_lookup :
  (forall w k, lookupKeyword w = Some k <-> In (w, k) KotlinKeywordTable)
  /\ (forall w w' k,
         lookupKeyword w = Some k -> lookupKeyword w' = Some k -> w = w')
  /\ (forall k, k <> keyword_other -> exists w, lookupKeyword w = Some k)
  /\ (forall w, lookupKeyword w <> Some keyword_other).
Proof.
  split.
  { intros w k. split;
      [apply lookupKeyword_in_table|apply in_table_lookupKeyword]. }
  split.
  { intros w w' k H H'.
    apply lookupKeyword_in_table in H. apply lookupKeyword_in_table in H'.
    cbn in H, H'.
    repeat (destruct H as [H|H]; [inversion H; subst w k; clear H|]);
      try contradiction;
      repeat (destruct H' as [H'|H']; [inversion H'; reflexivity|]);
      contradiction. }
  split.
  { intros k Hk. destruct k; try congruence.
    all: first
      [ exists "package"; reflexivity | exists "import"; reflexivity
      | exists "class"; reflexivity | exists "interface"; reflexivity
      | exists "typealias"; reflexivity | exists "fun"; reflexivity
      | exists "val"; reflexivity | exists "var"; reflexivity
      | exists "object"; reflexivity | exists "private"; reflexivity
      | exists "protected"; reflexivity | exists "public"; reflexivity
      | exists "internal"; reflexivity | exists "sealed"; reflexivity
      | exists "enum"; reflexivity | exists "abstract"; reflexivity
      | exists "open"; reflexivity | exists "override"; reflexivity
      | exists "final"; reflexivity | exists "suspend"; reflexivity
      | exists "const"; reflexivity ]. }
  exact lookupKeyword_not_other.
Qed.

(** X8.  The registration is consistent with the enumeration of the kinds:
    [kindCount] is four, every enumerator of [DeclarationKind] is an index
    into [KotlinKinds], its entry is enabled and carries the name of the
    enumerator, and the four kind letters differ; [keywordCount] is the
    length of the keyword table. *)
Theorem KotlinParser_tables :
  kindCount KotlinParser = 4%nat
  /\ (forall k : DeclarationKind, (kind_index k < kindCount KotlinParser)%nat)
  /\ (forall k : DeclarationKind,
         exists d, nth_error (kindTable KotlinParser) (kind_index k) = Some d
                   /\ enabled d = true
                   /\ kindName d = match k with
                                   | kind_class => "class"
                                   | kind_function => "function"
                                   | kind_typealias => "typealias"
                                   | kind_const => "const"
                                   end)
  /\ NoDup (map letter (kindTable KotlinParser))
  /\ keywordCount KotlinParser = List.length KotlinKeywordTable
  /\ parserExtensions KotlinParser = [ "kt"; "kts" ].
Proof.
  split; [reflexivity|].
  split; [intros []; cbn; lia|].
  split; [intros []; eexists; repeat split|].
  split; [|split; reflexivity].
  cbn. repeat (constructor; [cbn; intuition discriminate|]). constructor.
Qed.

(** ** Numbers *)

Lemma chr_ascii_of_int (c : Z) : 0 <= c < 256 -> chr (ascii_of_int c) = c.
Proof.
  intros H. unfold chr, ascii_of_int.
  rewrite N_ascii_embedding by lia. lia.
Qed.

Lemma digit_is_digit_or_underscore (ch : Z) :
  (ch >=? chr "0") && (ch <=? chr "9") = true ->
  is_digit_or_underscore (ascii_of_int ch) = true.
Proof.
  intros H. unfold is_digit_or_underscore.
  assert (Hr : 0 <= ch < 256).
  { apply andb_true_iff in H. destruct H as [H1 H2].
    change (chr "0") with 48 in H1. change (chr "9") with 57 in H2. lia. }
  rewrite (chr_ascii_of_int _ Hr). rewrite H. reflexivity.
Qed.

Lemma underscore_is_digit_or_underscore (ch : Z) :
  (ch =? chr "_") = true -> is_digit_or_underscore (ascii_of_int ch) = true.
Proof.
  intros H. apply Z.eqb_eq in H. subst ch. reflexivity.
Qed.

Lemma append_string_of_list (b : string) (a : ascii) (l : list ascii) :
  String.append (vStringPut b (chr a)) (string_of_list_ascii l)
  = String.append b (string_of_list_ascii (a :: l)).
Proof.
  unfold vStringPut. rewrite ascii_of_int_chr. apply append_snoc.
Qed.

Lemma parse_number_integral_text (fuel : nat) :
  forall b f b' e f',
    parse_number_integral fuel b f = Some ((b', e), f') ->
    exists ds,
      Forall (fun a => is_digit_or_underscore a = true) ds
      /\ ((e = 1 /\ b' = String.append b (string_of_list_ascii ds))
          \/ (e = 0
              /\ b' = String.append b
                        (string_of_list_ascii (ds ++ [ "."%char ])))).
Proof.
  induction fuel as [|fuel IH]; intros b f b' e f' H; [discriminate H|].
  cbn [parse_number_integral] in H. apply bind_Some_inv in H.
  destruct H as (ch & f1 & _ & H).
  assert (Hrec :
            is_digit_or_underscore (ascii_of_int ch) = true ->
            parse_number_integral fuel (vStringPut b ch) f1
              = Some ((b', e), f') ->
            exists ds,
              Forall (fun a => is_digit_or_underscore a = true) ds
              /\ ((e = 1 /\ b' = String.append b (string_of_list_ascii ds))
                  \/ (e = 0
                      /\ b' = String.append b
                                (string_of_list_ascii (ds ++ [ "."%char ]))))).
  { intros Ha H0. destruct (IH _ _ _ _ _ H0) as (ds & Hds & Hb).
    exists (ascii_of_int ch :: ds). split; [constructor; assumption|].
    unfold vStringPut in Hb. rewrite !append_snoc in Hb. exact Hb. }
  destruct ((ch >=? chr "0") && (ch <=? chr "9")) eqn:Ed.
  { exact (Hrec (digit_is_digit_or_underscore _ Ed) H). }
  destruct (ch =? chr "_") eqn:Eu.
  { exact (Hrec (underscore_is_digit_or_underscore _ Eu) H). }
  destruct (ch =? chr ".") eqn:Ep.
  { inversion H; subst. exists []. split; [constructor|]. right.
    split; [reflexivity|]. apply Z.eqb_eq in Ep. subst ch. reflexivity. }
  apply bind_Some_inv in H. destruct H as (_ & f2 & _ & H).
  inversion H; subst. exists []. split; [constructor|]. left.
  split; [reflexivity|]. symmetry. apply append_nil_r.
Qed.

Lemma parse_number_fraction_text (fuel : nat) :
  forall b f b' f',
    parse_number_fraction fuel b f = Some (b', f') ->
    exists fs e,
      Forall (fun a => is_digit_or_underscore a = true) fs
      /\ (e = [] \/ e = [ "f"%char ])
      /\ b' = String.append b (string_of_list_ascii (fs ++ e)).
Proof.
  induction fuel as [|fuel IH]; intros b f b' f' H; [discriminate H|].
  cbn [parse_number_fraction] in H. apply bind_Some_inv in H.
  destruct H as (ch & f1 & _ & H).
  assert (Hrec :
            is_digit_or_underscore (ascii_of_int ch) = true ->
            parse_number_fraction fuel (vStringPut b ch) f1 = Some (b', f') ->
            exists fs e,
              Forall (fun a => is_digit_or_underscore a = true) fs
              /\ (e = [] \/ e = [ "f"%char ])
              /\ b' = String.append b (string_of_list_ascii (fs ++ e))).
  { intros Ha H0. destruct (IH _ _ _ _ H0) as (fs & e & Hfs & He & Hb).
    exists (ascii_of_int ch :: fs), e. split; [constructor; assumption|].
    split; [assumption|].
    unfold vStringPut in Hb. rewrite append_snoc in Hb. exact Hb. }
  destruct ((ch >=? chr "0") && (ch <=? chr "9")) eqn:Ed.
  { exact (Hrec (digit_is_digit_or_underscore _ Ed) H). }
  destruct (ch =? chr "_") eqn:Eu.
  { exact (Hrec (underscore_is_digit_or_underscore _ Eu) H). }
  destruct (ch =? chr "f") eqn:Ep.
  { inversion H; subst. exists [], [ "f"%char ]. split; [constructor|].
    split; [right; reflexivity|].
    apply Z.eqb_eq in Ep. subst ch. reflexivity. }
  apply bind_Some_inv in H. destruct H as (_ & f2 & _ & H).
  inversion H; subst. exists [], []. split; [constructor|].
  split; [left; reflexivity|]. symmetry. apply append_nil_r.
Qed.

Lemma list_ascii_of_append (a b : string) :
  list_ascii_of_string (String.append a b)
  = (list_ascii_of_string a ++ list_ascii_of_string b)%list.
Proof. induction a as [|x a IH]; cbn; [reflexivity|]. rewrite IH. reflexivity. Qed.

(** X9.  The text of a number token is a digit and a run of digits and
    underscores, followed by nothing or by a dot, a second such run and,
    possibly, one [f]: no sign, no exponent, no second dot and no letter
    other than that [f] is ever taken into a number. *)
Theorem number_token_text (fuel : nat) (f f' : inputFile) (t : Token) :
  parse_token fuel f = Some (t, f') ->
  token t = token_number ->
  number_text (buffer t).
Proof.
  unfold parse_token. cbv [getInputLineNumber getInputFilePosition].
  unfold bind at 1 2. intros H Hn.
  apply bind_Some_inv in H. destruct H as ([first|] & f1 & _ & H).
  2:{ inversion H; subst. discriminate Hn. }
  unfold bind at 1 2 in H.
  destruct (single_char_token first) as [k|] eqn:Ek.
  { inversion H; subst. cbn [token set_token] in Hn.
    destruct (single_char_token_not_special _ _ Ek) as (_ & _ & _ & K & _).
    contradiction. }
  destruct (first =? chr "/").
  { apply bind_Some_inv in H. destruct H as (second & f2 & _ & H).
    destruct (second =? chr "/"); [|destruct (second =? chr "*")];
      try (apply bind_Some_inv in H; destruct H as (_ & f3 & _ & H));
      inversion H; subst; discriminate Hn. }
  destruct ((first >=? chr "0") && (first <=? chr "9")) eqn:Ed.
  2:{ apply bind_Some_inv in H. destruct H as (b & f2 & _ & H).
      cbn [keyword set_keyword] in H.
      destruct (lookupKeyword b); inversion H; subst; discriminate Hn. }
  clear Hn. unfold parse_number in H.
  apply bind_Some_inv in H. destruct H as ([b e] & g1 & H1 & H).
  apply bind_Some_inv in H. destruct H as (b2 & g2 & H2 & H).
  inversion H; subst t f'. cbn [buffer set_token set_buffer set_location] in *.
  cbn [fst snd] in H2.
  destruct (parse_number_integral_text _ _ _ _ _ _ H1) as (ds & Hds & Hb).
  assert (Hr : 0 <= first < 256).
  { apply andb_true_iff in Ed. destruct Ed as [E1 E2].
    change (chr "0") with 48 in E1. change (chr "9") with 57 in E2. lia. }
  assert (Hd : (chr (ascii_of_int first) >=? chr "0")
               && (chr (ascii_of_int first) <=? chr "9") = true)
    by (rewrite (chr_ascii_of_int _ Hr); exact Ed).
  unfold number_text. exists (ascii_of_int first), ds.
  destruct Hb as [[-> ->]|[-> ->]].
  - cbn [Z.eqb] in H2. inversion H2; subst b2.
    exists []. split.
    { cbn [list_ascii_of_string].
      rewrite list_ascii_of_string_of_list_ascii, app_nil_r. reflexivity. }
    split; [assumption|]. split; [assumption|]. left. reflexivity.
  - cbn [Z.eqb] in H2.
    destruct (parse_number_fraction_text _ _ _ _ _ H2) as (fs & x & Hfs & Hx & ->).
    exists ("."%char :: fs ++ x)%list. split.
    { rewrite !list_ascii_of_append.
      rewrite !list_ascii_of_string_of_list_ascii.
      unfold vStringPut. cbn [String.append list_ascii_of_string app].
      rewrite <- app_assoc. reflexivity. }
    split; [assumption|]. split; [assumption|]. right.
    exists fs, x. auto.
Qed.

Lemma number_token_text_witness :
  number_text "1_000.5f".
Proof.
  apply (number_token_text 20%nat (openInputFile "1_000.5f + 2")
           {| ungetchBuf := []; content := list_ascii_of_string " + 2";
              currentLine := 1; currentPosition := 8 |}
           {| keyword := Some keyword_other; token := token_number;
              line_number := 1; file_position := 1; buffer := "1_000.5f" |}).
  - vm_compute. reflexivity.
  - reflexivity.
Defined.

(** ** The branches that report a tag *)

(** X10.  After [class], [interface] or [object] the recognizer reads one
    token, reports a class tag for it exactly when it is an identifier, and
    skips the rest of the line that token ends on. *)
Theorem class_branch_reports_next_identifier
    (fuel : nat) (t : Token) (f : inputFile) :
  token t = token_keyword ->
  keyword t = Some keyword_class \/ keyword t = Some keyword_interface
  \/ keyword t = Some keyword_object ->
  (avail f < fuel)%nat ->
  exists t1 f1 f',
    parse_token fuel f = Some (t1, f1)
    /\ find_kotlin_tags_dispatch fuel t f
       = (match token t1 with
          | token_identifier => [(t1, kind_class)]
          | _ => []
          end, Some (tt, f'))
    /\ pending f' = after_eol (pending f1).
Proof.
  intros Ht Hk Hlt.
  destruct (parse_token_total fuel f Hlt) as (t1 & f1 & E1 & A1).
  destruct (skip_until_eol_total fuel f1) as (f' & S1 & P1); [lia|].
  exists t1, f1, f'. split; [assumption|]. split; [|assumption].
  unfold find_kotlin_tags_dispatch. rewrite Ht.
  assert (Hrun :
            (t0 <~ lift (parse_token fuel) ;;
             (match token t0 with
              | token_identifier => make_tag_entry t0 kind_class
              | _ => retD tt
              end) ;;;
             lift (skip_until_eol fuel)) f
            = (match token t1 with
               | token_identifier => [(t1, kind_class)]
               | _ => []
               end, Some (tt, f'))).
  { rewrite (bindD_lift_eq _ _ _ _ _ E1).
    destruct (token t1); unfold bindD, retD, make_tag_entry;
      rewrite (lift_eq _ _ _ S1); reflexivity. }
  destruct Hk as [Hk|[Hk|Hk]]; rewrite Hk; exact Hrun.
Qed.

Lemma class_branch_reports_next_identifier_witness :
  exists t1 f1 f',
    parse_token 30 (openInputFile " Shape { }") = Some (t1, f1)
    /\ find_kotlin_tags_dispatch 30
         {| keyword := Some keyword_interface; token := token_keyword;
            line_number := 1; file_position := 1; buffer := "interface" |}
         (openInputFile " Shape { }")
       = (match token t1 with
          | token_identifier => [(t1, kind_class)]
          | _ => []
          end, Some (tt, f'))
    /\ pending f' = after_eol (pending f1).
Proof.
  apply (class_branch_reports_next_identifier 30%nat
           {| keyword := Some keyword_interface; token := token_keyword;
              line_number := 1; file_position := 1; buffer := "interface" |}
           (openInputFile " Shape { }")).
  - reflexivity.
  - right. left. reflexivity.
  - vm_compute. lia.
Defined.

(** X11.  After [typealias] the recognizer reads one token and reports a
    typealias tag for it exactly when it is an identifier; it reads nothing
    more, so what follows on the line is scanned as usual. *)
Theorem typealias_branch_reports_next_identifier
    (fuel : nat) (t : Token) (f : inputFile) :
  token t = token_keyword ->
  keyword t = Some keyword_typealias ->
  (avail f < fuel)%nat ->
  exists t1 f1,
    parse_token fuel f = Some (t1, f1)
    /\ find_kotlin_tags_dispatch fuel t f
       = (match token t1 with
          | token_identifier => [(t1, kind_typealias)]
          | _ => []
          end, Some (tt, f1)).
Proof.
  intros Ht Hk Hlt.
  destruct (parse_token_total fuel f Hlt) as (t1 & f1 & E1 & A1).
  exists t1, f1. split; [assumption|].
  unfold find_kotlin_tags_dispatch. rewrite Ht, Hk.
  rewrite (bindD_lift_eq _ _ _ _ _ E1).
  destruct (token t1); reflexivity.
Qed.

Lemma typealias_branch_reports_next_identifier_witness :
  exists t1 f1,
    parse_token 30 (openInputFile " Name = String") = Some (t1, f1)
    /\ find_kotlin_tags_dispatch 30
         {| keyword := Some keyword_typealias; token := token_keyword;
            line_number := 1; file_position := 1; buffer := "typealias" |}
         (openInputFile " Name = String")
       = (match token t1 with
          | token_identifier => [(t1, kind_typealias)]
          | _ => []
          end, Some (tt, f1)).
Proof.
  apply (typealias_branch_reports_next_identifier 30%nat
           {| keyword := Some keyword_typealias; token := token_keyword;
              line_number := 1; file_position := 1; buffer := "typealias" |}
           (openInputFile " Name = String")).
  - reflexivity.
  - reflexivity.
  - vm_compute. lia.
Defined.

(** The start of the [fun] branch: the candidate is the next token, or the
    token after the type parameters when the next token is [<]. *)
Lemma fun_branch_candidate (fuel : nat) (t : Token) (f : inputFile)
    (t1 cand : Token) (f1 fc : inputFile) (k : Token -> D unit) :
  parse_token fuel f = Some (t1, f1) ->
  (token t1 <> token_arrow_open /\ cand = t1 /\ fc = f1)
  \/ (token t1 = token_arrow_open
      /\ exists fs, skip_open_close fuel (chr ">") f1 = Some (tt, fs)
                    /\ parse_token fuel fs = Some (cand, fc)) ->
  (t0 <~ lift (parse_token fuel) ;;
   t2 <~ (match token t0 with
          | token_arrow_open =>
              lift (skip_open_close fuel (chr ">")) ;;;
              lift (parse_token fuel)
          | _ => retD t0
          end) ;;
   k t2) f = k cand fc.
Proof.
  intros E1 Hcand. rewrite (bindD_lift_eq _ _ _ _ _ E1).
  destruct Hcand as [(Hn & -> & ->)|(Ha & fs & Hs & Hp)].
  - rewrite (candidate_without_type_parameters _ _ Hn).
    apply bindD_retD.
  - rewrite Ha. rewrite (bindD_eq _ _ _ [] cand fc).
    + destruct (k cand fc). reflexivity.
    + rewrite (bindD_lift_eq _ _ _ _ _ Hs). apply lift_eq. exact Hp.
Qed.

(** X12.  In the [fun] branch, when the candidate (the token after [fun], or
    the one after the type parameters) is an identifier and the token after
    it is an opening parenthesis, the candidate is reported as a function;
    nothing more is read. *)
Theorem fun_branch_reports_name_before_parenthesis
    (fuel : nat) (t : Token) (f : inputFile)
    (t1 cand sub : Token) (f1 fc f2 : inputFile) :
  token t = token_keyword ->
  keyword t = Some keyword_fun ->
  parse_token fuel f = Some (t1, f1) ->
  (token t1 <> token_arrow_open /\ cand = t1 /\ fc = f1)
  \/ (token t1 = token_arrow_open
      /\ exists fs, skip_open_close fuel (chr ">") f1 = Some (tt, fs)
                    /\ parse_token fuel fs = Some (cand, fc)) ->
  token cand = token_identifier ->
  parse_token fuel fc = Some (sub, f2) ->
  token sub = token_par_open ->
  find_kotlin_tags_dispatch fuel t f
  = ([(cand, kind_function)], Some (tt, f2)).
Proof.
  intros Ht Hk E1 Hcand Hid Esub Hpar.
  unfold find_kotlin_tags_dispatch. rewrite Ht, Hk.
  rewrite (fun_branch_candidate _ t _ _ _ _ _ _ E1 Hcand).
  rewrite Hid. rewrite (bindD_lift_eq _ _ _ _ _ Esub). rewrite Hpar.
  reflexivity.
Qed.

Lemma fun_branch_reports_name_before_parenthesis_witness :
  find_kotlin_tags_dispatch 30 fun_keyword_token
    (openInputFile " <T> identity(x: T): T")
  = ([({| keyword := None; token := token_identifier; line_number := 1;
          file_position := 6; buffer := "identity" |}, kind_function)],
     Some (tt, {| ungetchBuf := [];
                  content := list_ascii_of_string "x: T): T";
                  currentLine := 1; currentPosition := 14 |})).
Proof.
  apply (fun_branch_reports_name_before_parenthesis 30%nat fun_keyword_token
           (openInputFile " <T> identity(x: T): T")
           {| keyword := Some keyword_other; token := token_arrow_open;
              line_number := 1; file_position := 2; buffer := "" |}
           {| keyword := None; token := token_identifier; line_number := 1;
              file_position := 6; buffer := "identity" |}
           {| keyword := Some keyword_other; token := token_par_open;
              line_number := 1; file_position := 14; buffer := "" |}
           {| ungetchBuf := [];
              content := list_ascii_of_string "T> identity(x: T): T";
              currentLine := 1; currentPosition := 2 |}
           {| ungetchBuf := [chr "("];
              content := list_ascii_of_string "x: T): T";
              currentLine := 1; currentPosition := 14 |}
           {| ungetchBuf := [];
              content := list_ascii_of_string "x: T): T";
              currentLine := 1; currentPosition := 14 |}).
  - reflexivity.
  - reflexivity.
  - vm_compute. reflexivity.
  - right. split; [reflexivity|].
    exists {| ungetchBuf := [];
              content := list_ascii_of_string " identity(x: T): T";
              currentLine := 1; currentPosition := 4 |}.
    split; vm_compute; reflexivity.
  - reflexivity.
  - vm_compute. reflexivity.
  - reflexivity.
Defined.

Lemma match_not_identifier {A : Type} (X Y : A) (t : Token) :
  token t <> token_identifier ->
  match token t with
  | token_identifier => X
  | _ => Y
  end = Y.
Proof. intros H. destruct (token t); try reflexivity. contradiction. Qed.

Lemma match_not_dot_nor_parenthesis {A : Type} (X Y Z : A) (t : Token) :
  token t <> token_dot ->
  token t <> token_par_open ->
  match token t with
  | token_dot => X
  | token_par_open => Y
  | _ => Z
  end = Z.
Proof. intros H1 H2. destruct (token t); try reflexivity; contradiction. Qed.

(** X13.  In the [fun] branch, when the candidate is no identifier, or is an
    identifier followed by a token that is neither a dot nor an opening
    parenthesis, nothing is reported and the rest of the line reached is
    skipped. *)
Theorem fun_branch_skips_unrecognized_shape
    (fuel : nat) (t : Token) (f : inputFile)
    (t1 cand : Token) (f1 fc last : inputFile) :
  token t = token_keyword ->
  keyword t = Some keyword_fun ->
  (avail f < fuel)%nat ->
  parse_token fuel f = Some (t1, f1) ->
  (token t1 <> token_arrow_open /\ cand = t1 /\ fc = f1)
  \/ (token t1 = token_arrow_open
      /\ exists fs, skip_open_close fuel (chr ">") f1 = Some (tt, fs)
                    /\ parse_token fuel fs = Some (cand, fc)) ->
  (token cand <> token_identifier /\ last = fc)
  \/ (token cand = token_identifier
      /\ exists sub, parse_token fuel fc = Some (sub, last)
                     /\ token sub <> token_dot
                     /\ token sub <> token_par_open) ->
  exists f',
    find_kotlin_tags_dispatch fuel t f = ([], Some (tt, f'))
    /\ pending f' = after_eol (pending last).
Proof.
  intros Ht Hk Hlt E1 Hcand Hshape.
  assert (A1 : (avail f1 <= avail f)%nat)
    by exact (parse_token_shrinks _ _ _ _ E1).
  assert (Ac : (avail fc <= avail f)%nat).
  { destruct Hcand as [(_ & _ & ->)|(_ & fs & Hs & Hp)]; [assumption|].
    pose proof (skip_open_close_shrinks _ _ _ _ _ Hs).
    pose proof (parse_token_shrinks _ _ _ _ Hp). lia. }
  assert (Al : (avail last <= avail f)%nat).
  { destruct Hshape as [(_ & ->)|(_ & sub & Hsub & _)]; [assumption|].
    pose proof (parse_token_shrinks _ _ _ _ Hsub). lia. }
  destruct (skip_until_eol_total fuel last) as (f' & S1 & P1); [lia|].
  exists f'. split; [|assumption].
  unfold find_kotlin_tags_dispatch. rewrite Ht, Hk.
  rewrite (fun_branch_candidate _ t _ _ _ _ _ _ E1 Hcand).
  destruct Hshape as [(Hn & ->)|(Hid & sub & Hsub & Hd & Hp)].
  - rewrite (match_not_identifier _ _ _ Hn). apply lift_eq. exact S1.
  - rewrite Hid. rewrite (bindD_lift_eq _ _ _ _ _ Hsub).
    rewrite (match_not_dot_nor_parenthesis _ _ _ _ Hd Hp).
    apply lift_eq. exact S1.
Qed.

Lemma fun_branch_skips_unrecognized_shape_witness :
  exists f',
    find_kotlin_tags_dispatch 30 fun_keyword_token
      (openInputFile " interface Runnable")
    = ([], Some (tt, f'))
    /\ pending f'
       = after_eol
           (pending {| ungetchBuf := [chr " "];
                       content := list_ascii_of_string "Runnable";
                       currentLine := 1; currentPosition := 11 |}).
Proof.
  apply (fun_branch_skips_unrecognized_shape 30%nat fun_keyword_token
           (openInputFile " interface Runnable")
           {| keyword := Some keyword_interface; token := token_keyword;
              line_number := 1; file_position := 2; buffer := "interface" |}
           {| keyword := Some keyword_interface; token := token_keyword;
              line_number := 1; file_position := 2; buffer := "interface" |}
           {| ungetchBuf := [chr " "];
              content := list_ascii_of_string "Runnable";
              currentLine := 1; currentPosition := 11 |}
           {| ungetchBuf := [chr " "];
              content := list_ascii_of_string "Runnable";
              currentLine := 1; currentPosition := 11 |}).
  - reflexivity.
  - reflexivity.
  - vm_compute. lia.
  - vm_compute. reflexivity.
  - left. repeat split. discriminate.
  - left. split; [discriminate|reflexivity].
Defined.

(** ** One step of the recognizer reports at most one tag *)

Lemma emits_at_most_retD (n : nat) {A : Type} (a : A) :
  emits_at_most n (retD a).
Proof. intros f. cbn. lia. Qed.

Lemma emits_at_most_lift (n : nat) {A : Type} (m : M A) :
  emits_at_most n (lift m).
Proof. intros f. cbn. lia. Qed.

Lemma emits_at_most_make_tag_entry (t : Token) (k : DeclarationKind) :
  emits_at_most 1 (make_tag_entry t k).
Proof. intros f. cbn. lia. Qed.

Lemma emits_at_most_bindD (a b : nat) {A B : Type} (m : D A) (k : A -> D B) :
  emits_at_most a m -> (forall x, emits_at_most b (k x)) ->
  emits_at_most (a + b) (bindD m k).
Proof.
  intros Hm Hk f. unfold bindD. specialize (Hm f).
  destruct (m f) as [calls [[x f1]|]]; cbn [fst] in *; [|lia].
  specialize (Hk x f1). destruct (k x f1) as [calls' r]. cbn [fst] in *.
  rewrite length_app. lia.
Qed.

Ltac at_most_zero :=
  repeat match goal with
    | |- emits_at_most 0 (bindD _ _) =>
        apply (emits_at_most_bindD 0 0); [|intro]
    | |- emits_at_most _ (lift _) => apply emits_at_most_lift
    | |- emits_at_most _ (retD _) => apply emits_at_most_retD
    | |- emits_at_most 0 (match ?x with _ => _ end) => destruct x
    end.

Ltac at_most_one :=
  repeat match goal with
    | |- emits_at_most 1 (bindD (lift _) _) =>
        apply (emits_at_most_bindD 0 1); [apply emits_at_most_lift|intro]
    | |- emits_at_most 1 (bindD _ (fun _ => lift _)) =>
        apply (emits_at_most_bindD 1 0); [|intro; apply emits_at_most_lift]
    | |- emits_at_most 1 (bindD _ _) =>
        apply (emits_at_most_bindD 0 1); [solve [at_most_zero]|intro]
    | |- emits_at_most _ (lift _) => apply emits_at_most_lift
    | |- emits_at_most _ (retD _) => apply emits_at_most_retD
    | |- emits_at_most 1 (make_tag_entry _ _) =>
        apply emits_at_most_make_tag_entry
    | |- emits_at_most 1 (match ?x with _ => _ end) => destruct x
    end.

Lemma find_kotlin_tags_dispatch_at_most_one (fuel : nat) (t : Token) :
  emits_at_most 1 (find_kotlin_tags_dispatch fuel t).
Proof. unfold find_kotlin_tags_dispatch. at_most_one. Qed.

Ltac kind_step t :=
  match goal with
  | |- emits _ (retD _) => apply emits_retD
  | |- emits _ (lift _) => apply emits_lift
  | |- emits _ (make_tag_entry _ _) =>
      apply emits_make_tag_entry; cbn [fst snd]; auto
  | |- emits _ (bindD _ _) =>
      apply (emits_bindD _ (fun _ => True)); [ | apply postD_any | intros ? _ ]
  | |- emits _ (match token ?x with _ => _ end) => destruct (token x)
  | |- emits _ (match ?x with _ => _ end) => destruct x
  end.

Lemma find_kotlin_tags_dispatch_kind (fuel : nat) (t : Token) :
  emits (fun c => token t = token_keyword
                  /\ declares (keyword t) = Some (snd c))
    (find_kotlin_tags_dispatch fuel t).
Proof.
  unfold find_kotlin_tags_dispatch.
  destruct (token t) eqn:Et; try apply emits_retD; try apply emits_lift.
  destruct (keyword t) as [[]|] eqn:Ek; cbn [declares];
    repeat kind_step t.
Qed.

(** X14.  One turn of the recognizer's loop reports at most one tag, and
    only for a keyword that starts a declaration: [class], [interface] and
    [object] give a class tag, [typealias] a typealias tag, [const] a const
    tag and [fun] a function tag.  No other token, and no other keyword,
    gives a tag. *)
Theorem dispatch_reports_at_most_one_tag
    (fuel : nat) (t : Token) (f : inputFile) :
  (List.length (fst (find_kotlin_tags_dispatch fuel t f)) <= 1)%nat
  /\ Forall (fun c : tagCall =>
               token t = token_keyword
               /\ declares (keyword t) = Some (snd c))
       (fst (find_kotlin_tags_dispatch fuel t f)).
Proof.
  split.
  - apply find_kotlin_tags_dispatch_at_most_one.
  - apply find_kotlin_tags_dispatch_kind.
Qed.

(** ** Comments *)

(** X15.  [skip_until_eol] reads through the first newline and stops there;
    when no newline is left it reads to the end of the input.  Fuel beyond
    the length of the line is enough. *)
Theorem skip_until_eol_stops_after_newline
    (fuel : nat) (f : inputFile) (line rest : list Z) :
  Forall (fun c => c <> chr "010" /\ c <> EOF) line ->
  pending f = (line ++ chr "010" :: rest)%list
  \/ (pending f = line /\ rest = []) ->
  (List.length line < fuel)%nat ->
  exists f', skip_until_eol fuel f = Some (tt, f') /\ pending f' = rest.
Proof.
  revert fuel f.
  induction line as [|c line IH]; intros fuel f Hline Hp Hlt;
    (destruct fuel as [|fuel]; [cbn in Hlt; lia|]);
    cbn [skip_until_eol]; pose proof (getc_pending f) as Hg.
  - destruct Hp as [Hp|[Hp ->]]; rewrite Hp in Hg; cbn [app] in Hg.
    + destruct Hg as (f1 & Hg & Hp1). rewrite (bind_eq _ _ _ _ _ Hg).
      exists f1. split; [reflexivity|assumption].
    + rewrite (bind_eq _ _ _ _ _ Hg). exists f. split; [reflexivity|assumption].
  - apply Forall_cons_iff in Hline. destruct Hline as [[Hc1 Hc2] Hline].
    assert (Hc : (c =? EOF) || (c =? chr "010") = false)
      by (apply orb_false_iff; split; apply Z.eqb_neq; assumption).
    destruct Hp as [Hp|[Hp Hr]]; rewrite Hp in Hg; cbn [app] in Hg;
      destruct Hg as (f1 & Hg & Hp1); rewrite (bind_eq _ _ _ _ _ Hg);
      rewrite Hc;
      (apply IH; [assumption| |cbn in Hlt; lia]);
      [left|right; split]; assumption.
Qed.

Lemma skip_until_eol_stops_after_newline_witness :
  exists f',
    skip_until_eol 4
      {| ungetchBuf := [chr "x"; chr "y"];
         content := list_ascii_of_string
                      (String "z" (String "010" (String "a" "")));
         currentLine := 1; currentPosition := 2 |}
    = Some (tt, f')
    /\ pending f' = [chr "a"].
Proof.
  apply (skip_until_eol_stops_after_newline 4%nat _
           [chr "x"; chr "y"; chr "z"] [chr "a"]).
  - repeat constructor; discriminate.
  - left. reflexivity.
  - cbn. lia.
Defined.

(** X16.  A block comment whose text holds no star is closed by its [*/]:
    entered after the opener, [skip_comment_block] returns with what follows
    the [*/] left to read. *)
Theorem skip_comment_block_closes_plain_comment
    (fuel : nat) (f : inputFile) (body rest : list Z) :
  pending f = (body ++ chr "*" :: chr "/" :: rest)%list ->
  Forall (fun c => c <> chr "*") body ->
  (List.length body < fuel)%nat ->
  exists f', skip_comment_block fuel f = Some (tt, f') /\ pending f' = rest.
Proof.
  unfold skip_comment_block. revert fuel f.
  induction body as [|c body IH]; intros fuel f Hp Hbody Hlt;
    (destruct fuel as [|fuel]; [cbn in Hlt; lia|]);
    cbn [skip_comment_block_loop]; pose proof (getc_pending f) as Hg;
    rewrite Hp in Hg; cbn [app] in Hg; destruct Hg as (f1 & Hg & Hp1);
    rewrite (bind_eq _ _ _ _ _ Hg).
  - change ((chr "*" =? chr "*") && (0 =? 0)) with true. cbv iota.
    pose proof (getc_pending f1) as Hg2. rewrite Hp1 in Hg2.
    destruct Hg2 as (f2 & Hg2 & Hp2). rewrite (bind_eq _ _ _ _ _ Hg2).
    exists f2. split; [reflexivity|assumption].
  - apply Forall_cons_iff in Hbody. destruct Hbody as [Hc Hbody].
    replace (c =? chr "*") with false by (symmetry; apply Z.eqb_neq; exact Hc).
    cbn [andb]. rewrite andb_false_r.
    apply IH; [assumption|assumption|cbn in Hlt; lia].
Qed.

Lemma skip_comment_block_closes_plain_comment_witness :
  exists f',
    skip_comment_block 20 (openInputFile " class Old { } */ class New")
    = Some (tt, f')
    /\ pending f' = map chr (list_ascii_of_string " class New").
Proof.
  apply (skip_comment_block_closes_plain_comment 20%nat
           (openInputFile " class Old { } */ class New")
           (map chr (list_ascii_of_string " class Old { } "))
           (map chr (list_ascii_of_string " class New"))).
  - reflexivity.
  - repeat constructor; discriminate.
  - cbn. lia.
Defined.

(** X17.  A line comment is passed over by the recognizer: when what is
    left to read, a pushed-back character included, is blanks and then
    [//], the run goes on as the run from the state after the end of that
    line, and reports nothing for the comment. *)
Theorem find_kotlin_tags_passes_line_comment
    (n : nat) (f : inputFile) (ws l : list ascii) :
  pending f = map chr (ws ++ "/"%char :: "/"%char :: l) ->
  Forall (fun a => is_blank (chr a) = true) ws ->
  (avail f < S n)%nat ->
  exists f2,
    pending f2 = after_eol (map chr l)
    /\ find_kotlin_tags (S n) f = find_kotlin_tags n f2.
Proof.
  intros Hp Hws Hlt.
  assert (Hlen : (List.length ws < S n)%nat).
  { unfold avail in Hlt. rewrite Hp in Hlt.
    rewrite length_map, length_app in Hlt. lia. }
  pose proof (parse_token_first_passes_blanks ws (S n) f _ Hp Hws Hlen
                eq_refl) as (f0 & H0 & Hp0).
  pose proof (getc_pending f0) as Hg. rewrite Hp0 in Hg. cbn [map] in Hg.
  destruct Hg as (f1 & Hg & Hp1).
  assert (Ht : exists t, parse_token (S n) f = Some (t, f1)
                         /\ token t = token_comment_line).
  { unfold parse_token. cbv [getInputLineNumber getInputFilePosition].
    unfold bind at 1 2. rewrite (bind_eq _ _ _ _ _ H0).
    unfold bind at 1 2.
    change (single_char_token (chr "/")) with (@None TokenType). cbv iota.
    change (chr "/" =? chr "/") with true. cbv iota.
    rewrite (bind_eq _ _ _ _ _ Hg).
    eexists. split; reflexivity. }
  destruct Ht as (t & Ht & Hk).
  destruct (skip_until_eol_total (S n) f1) as (f2 & H2 & P2).
  { pose proof (parse_token_shrinks _ _ _ _ Ht). lia. }
  exists f2. split; [rewrite P2, Hp1; reflexivity|].
  cbn [find_kotlin_tags]. rewrite (bindD_lift_eq _ _ _ _ _ Ht). rewrite Hk.
  unfold find_kotlin_tags_dispatch. rewrite Hk.
  rewrite (bindD_eq _ _ _ [] tt f2 (lift_eq _ _ _ H2)).
  destruct (find_kotlin_tags n f2). reflexivity.
Qed.

Lemma find_kotlin_tags_passes_line_comment_witness :
  exists f2,
    pending f2
    = after_eol (map chr (list_ascii_of_string
                            (String " " (String "c" (String "010" "x")))))
    /\ find_kotlin_tags 10
         {| ungetchBuf := [chr " "];
            content := list_ascii_of_string
                         (String "/" (String "/" (String " "
                            (String "c" (String "010" "x")))));
            currentLine := 1; currentPosition := 7 |}
       = find_kotlin_tags 9 f2.
Proof.
  apply (find_kotlin_tags_passes_line_comment 9%nat
           {| ungetchBuf := [chr " "];
              content := list_ascii_of_string
                           (String "/" (String "/" (String " "
                              (String "c" (String "010" "x")))));
              currentLine := 1; currentPosition := 7 |}
           [ " "%char ]
           (list_ascii_of_string
              (String " " (String "c" (String "010" "x"))))).
  - reflexivity.
  - repeat constructor.
  - vm_compute. lia.
Defined.

(** X18.  Inside [skip_open_close] a line comment is skipped whole: after
    [//] the loop goes on from the end of that line with the counters as
    they were, so the brackets in the comment are not counted. *)
Theorem skip_open_close_passes_line_comment
    (fuel : nat) (e : Z) (n : counters) (f : inputFile) (l : list Z) :
  pending f = chr "/" :: chr "/" :: l ->
  (avail f < S fuel)%nat ->
  e <> chr "/" ->
  exists f3,
    pending f3 = after_eol l
    /\ skip_open_close_loop (S fuel) e n f
       = skip_open_close_loop fuel e n f3.
Proof.
  intros Hp Hlt He.
  pose proof (getc_pending f) as Hg. rewrite Hp in Hg.
  destruct Hg as (f1 & Hg & Hp1).
  pose proof (getc_pending f1) as Hg2. rewrite Hp1 in Hg2.
  destruct Hg2 as (f2 & Hg2 & Hp2).
  destruct (skip_until_eol_total (S fuel) f2) as (f3 & H3 & P3).
  { unfold avail in *. rewrite Hp in Hlt. rewrite Hp2. cbn in Hlt. lia. }
  exists f3. split; [rewrite P3, Hp2; reflexivity|].
  rewrite (skip_open_close_loop_comment _ _ _ _ _ _ _ (chr "/") Hg Hg2 H3).
  replace (chr "/" =? e) with false
    by (symmetry; apply Z.eqb_neq; intros E; apply He; symmetry; exact E).
  reflexivity.
Qed.

Lemma skip_open_close_passes_line_comment_witness :
  exists f3,
    pending f3
    = after_eol (map chr (list_ascii_of_string
                            (String ">" (String "010" "T>"))))
    /\ skip_open_close_loop 10 (chr ">") (expect (chr ">"))
         (openInputFile (String "/" (String "/" (String ">"
            (String "010" "T>")))))
       = skip_open_close_loop 9 (chr ">") (expect (chr ">")) f3.
Proof.
  apply (skip_open_close_passes_line_comment 9%nat (chr ">")
           (expect (chr ">"))
           (openInputFile (String "/" (String "/" (String ">"
              (String "010" "T>")))))).
  - reflexivity.
  - vm_compute. lia.
  - discriminate.
Defined.

(** X19.  On an input in which no block comment opens, [skip_open_close]
    returns, whatever the expected closing character and however the
    brackets are nested: at the latest it stops at the end of the input. *)
Theorem skip_open_close_returns_without_block_comment
    (fuel : nat) (e : Z) (f : inputFile) :
  no_open (pending f) = true ->
  (avail f < fuel)%nat ->
  exists f', skip_open_close fuel e f = Some (tt, f') /\ reads f f'.
Proof.
  intros Hno Hlt. unfold skip_open_close.
  destruct (skip_open_close_loop_total fuel e (expect e) f Hno Hlt)
    as (f' & H).
  exists f'. split; [exact H|].
  exact (skip_open_close_loop_follows _ _ _ _ _ _ H).
Qed.

Lemma skip_open_close_returns_without_block_comment_witness :
  exists f',
    skip_open_close 20 (chr ">") (openInputFile "T : List<(A") = Some (tt, f')
    /\ reads (openInputFile "T : List<(A") f'.
Proof.
  apply (skip_open_close_returns_without_block_comment 20%nat (chr ">")
           (openInputFile "T : List<(A")).
  - vm_compute. reflexivity.
  - vm_compute. lia.
Defined.

(** ** Tokens that start no declaration *)

(** X20.  A modifier and a token that is no keyword and opens no comment
    make the recognizer read nothing and report nothing; a keyword that is
    neither a modifier nor the start of a reported declaration ([package],
    [import], [val], [var], [enum]) makes it skip the rest of the line and
    report nothing. *)
Theorem dispatch_without_declaration
    (fuel : nat) (t : Token) (f : inputFile) :
  (avail f < fuel)%nat ->
  (token t = token_keyword -> is_modifier (keyword t) = true ->
   find_kotlin_tags_dispatch fuel t f = ([], Some (tt, f)))
  /\ (token t <> token_keyword -> token t <> token_comment_start ->
      token t <> token_comment_line ->
      find_kotlin_tags_dispatch fuel t f = ([], Some (tt, f)))
  /\ (token t = token_keyword -> is_modifier (keyword t) = false ->
      declares (keyword t) = None ->
      exists f', find_kotlin_tags_dispatch fuel t f = ([], Some (tt, f'))
                 /\ pending f' = after_eol (pending f)).
Proof.
  intros Hlt. unfold find_kotlin_tags_dispatch. split; [|split].
  - intros Ht Hm. rewrite Ht.
    destruct (keyword t) as [[]|]; try discriminate Hm; reflexivity.
  - intros H1 H2 H3.
    destruct (token t); try reflexivity; contradiction.
  - intros Ht Hm Hd. rewrite Ht.
    destruct (skip_until_eol_total fuel f Hlt) as (f' & S1 & P1).
    exists f'. split; [|assumption].
    destruct (keyword t) as [[]|]; try discriminate Hm; try discriminate Hd;
      apply lift_eq; exact S1.
Qed.

Lemma dispatch_without_declaration_witness :
  exists f',
    find_kotlin_tags_dispatch 30
      {| keyword := Some keyword_val; token := token_keyword;
         line_number := 1; file_position := 1; buffer := "val" |}
      (openInputFile " x = object { }")
    = ([], Some (tt, f'))
    /\ pending f' = after_eol (pending (openInputFile " x = object { }")).
Proof.
  refine (proj2 (proj2 (dispatch_without_declaration 30%nat
           {| keyword := Some keyword_val; token := token_keyword;
              line_number := 1; file_position := 1; buffer := "val" |}
           (openInputFile " x = object { }") _)) _ _ _).
  - vm_compute. lia.
  - reflexivity.
  - reflexivity.
  - reflexivity.
Defined.

(** X21.  A token of one character takes exactly that character: when
    what is left to read, a pushed-back character included, is blanks and
    then a parenthesis, a brace, a square or an angle bracket, a dot, a
    comma, a semicolon, a colon or a dollar, the token has the matching kind
    and no text, and what follows that character is left to read. *)
Theorem parse_token_takes_one_character
    (fuel : nat) (f : inputFile) (ws : list ascii) (a : ascii)
    (rest : list ascii) (k : TokenType) :
  pending f = map chr (ws ++ a :: rest) ->
  Forall (fun c => is_blank (chr c) = true) ws ->
  single_char_token (chr a) = Some k ->
  (List.length ws < fuel)%nat ->
  exists t f',
    parse_token fuel f = Some (t, f')
    /\ token t = k /\ buffer t = ""
    /\ pending f' = map chr rest.
Proof.
  intros Hp Hws Hk Hlt.
  assert (Hb : is_blank (chr a) = false).
  { revert Hk. unfold single_char_token, is_blank.
    destruct (chr a =? chr " ") eqn:E1; [apply Z.eqb_eq in E1; rewrite E1; discriminate|].
    destruct (chr a =? chr "013") eqn:E2; [apply Z.eqb_eq in E2; rewrite E2; discriminate|].
    destruct (chr a =? chr "010") eqn:E3; [apply Z.eqb_eq in E3; rewrite E3; discriminate|].
    destruct (chr a =? chr "009") eqn:E4; [apply Z.eqb_eq in E4; rewrite E4; discriminate|].
    reflexivity. }
  pose proof (parse_token_first_passes_blanks ws fuel f (a :: rest)
                Hp Hws Hlt Hb) as (f1 & H1 & Hp1).
  unfold parse_token. cbv [getInputLineNumber getInputFilePosition].
  unfold bind at 1 2. rewrite (bind_eq _ _ _ _ _ H1).
  unfold bind at 1 2. rewrite Hk.
  eexists _, _. split; [reflexivity|]. auto.
Qed.

Lemma parse_token_takes_one_character_witness :
  exists t f',
    parse_token 10
      {| ungetchBuf := [chr "("];
         content := list_ascii_of_string ") {}";
         currentLine := 1; currentPosition := 8 |}
    = Some (t, f')
    /\ token t = token_par_open /\ buffer t = ""
    /\ pending f' = map chr (list_ascii_of_string ") {}").
Proof.
  apply (parse_token_takes_one_character 10%nat
           {| ungetchBuf := [chr "("];
              content := list_ascii_of_string ") {}";
              currentLine := 1; currentPosition := 8 |}
           [] "("%char (list_ascii_of_string ") {}")).
  - reflexivity.
  - repeat constructor.
  - reflexivity.
  - cbn. lia.
Defined.

(** ** What a return of the block comment skipper means *)

Lemma skip_comment_block_loop_sound (fuel : nat) :
  forall (c : Z) (f f' : inputFile),
    skip_comment_block_loop fuel c f = Some (tt, f') ->
    (exists pre, pending f = (pre ++ chr "*" :: chr "/" :: pending f')%list)
    \/ (c = 1 /\ pending f = chr "/" :: pending f').
Proof.
  induction fuel as [|fuel IH]; intros c f f' H; [discriminate H|].
  cbn [skip_comment_block_loop] in H. apply bind_Some_inv in H.
  destruct H as (first & f1 & Hg & H).
  destruct ((first =? chr "*") && (c =? 0)) eqn:E1.
  - apply andb_true_iff in E1. destruct E1 as [Ef _].
    apply Z.eqb_eq in Ef. subst first.
    destruct (getc_cases _ _ _ Hg) as [[Hp _]|(_ & He & _)];
      [|discriminate He].
    apply bind_Some_inv in H. destruct H as (second & f2 & Hg2 & H).
    destruct (second =? chr "/") eqn:E2.
    { apply Z.eqb_eq in E2. subst second. inversion H; subst f'.
      destruct (getc_cases _ _ _ Hg2) as [[Hp2 _]|(_ & He & _)];
        [|discriminate He].
      left. exists []. rewrite Hp, Hp2. reflexivity. }
    assert (Hrec : forall c',
               skip_comment_block_loop fuel c' f2 = Some (tt, f') ->
               (c' = 1 -> second = chr "*") ->
               exists pre,
                 pending f = (pre ++ chr "*" :: chr "/" :: pending f')%list).
    { intros c' H' Hc'.
      destruct (IH _ _ _ H') as [(pre & Hpre)|(Hc1 & Hpre)].
      - destruct (getc_cases _ _ _ Hg2) as [[Hp2 _]|(Hp2 & _ & Hf)].
        + exists (chr "*" :: second :: pre). rewrite Hp, Hp2, Hpre.
          reflexivity.
        + subst f2. rewrite Hp2 in Hpre. destruct pre; discriminate Hpre.
      - specialize (Hc' Hc1). subst second.
        destruct (getc_cases _ _ _ Hg2) as [[Hp2 _]|(_ & He & _)];
          [|discriminate He].
        exists [chr "*"]. rewrite Hp, Hp2, Hpre. reflexivity. }
    left. destruct (second =? chr "*") eqn:E3.
    + apply (Hrec 1 H). intros _. apply Z.eqb_eq. exact E3.
    + apply (Hrec 0 H). intros E. discriminate E.
  - destruct ((first =? chr "/") && (c =? 1)) eqn:E2.
    + apply andb_true_iff in E2. destruct E2 as [Ef Ec].
      apply Z.eqb_eq in Ef. apply Z.eqb_eq in Ec. subst first.
      inversion H; subst f'.
      destruct (getc_cases _ _ _ Hg) as [[Hp _]|(_ & He & _)];
        [|discriminate He].
      right. auto.
    + left. destruct (IH _ _ _ H) as [(pre & Hpre)|(Hc1 & _)];
        [|discriminate Hc1].
      destruct (getc_cases _ _ _ Hg) as [[Hp _]|(_ & _ & Hf)].
      * exists (first :: pre). rewrite Hp, Hpre. reflexivity.
      * subst f1. exists pre. exact Hpre.
Qed.

(** X22.  [skip_comment_block] returns only when it has just read a [*/]:
    what it has taken ends with that pair, so it never stops inside the
    text of a comment. *)
Theorem skip_comment_block_returns_after_close
    (fuel : nat) (f f' : inputFile) :
  skip_comment_block fuel f = Some (tt, f') ->
  exists pre, pending f = (pre ++ chr "*" :: chr "/" :: pending f')%list.
Proof.
  intros H. unfold skip_comment_block in H.
  destruct (skip_comment_block_loop_sound _ _ _ _ H) as [Hp|[Hc _]];
    [exact Hp|discriminate Hc].
Qed.

Lemma skip_comment_block_returns_after_close_witness :
  exists pre,
    pending (openInputFile "a **/ b")
    = (pre ++ chr "*" :: chr "/"
           :: pending {| ungetchBuf := [];
                         content := list_ascii_of_string " b";
                         currentLine := 1; currentPosition := 5 |})%list.
Proof.
  apply (skip_comment_block_returns_after_close 10%nat
           (openInputFile "a **/ b")).
  vm_compute. reflexivity.
Defined.

(** ** A run that returns has read everything *)

Lemma proper_reads (f f' : inputFile) :
  reads f f' -> proper (pending f) -> proper (pending f').
Proof.
  intros [[(k & Hk)|Hk] _] Hp; rewrite Hk; [|right; reflexivity].
  destruct Hp as [Hp|Hp].
  - left. rewrite <- (firstn_skipn k (pending f)) in Hp.
    apply Forall_app in Hp. tauto.
  - rewrite Hp. destruct k as [|k]; [right; reflexivity|].
    left. cbn. destruct k; constructor.
Qed.

Lemma parse_token_first_none (fuel : nat) :
  forall (f f1 : inputFile),
    parse_token_first fuel f = Some (None, f1) ->
    exists ws,
      Forall (fun c => is_blank c = true) ws
      /\ ((pending f = ws /\ pending f1 = [])
          \/ pending f = (ws ++ EOF :: pending f1)%list).
Proof.
  induction fuel as [|fuel IH]; intros f f1 H; [discriminate H|].
  cbn [parse_token_first] in H. apply bind_Some_inv in H.
  destruct H as (ch & g & Hg & H).
  fold (is_blank ch) in H.
  destruct (is_blank ch) eqn:Eb.
  - destruct (IH _ _ H) as (ws & Hws & Hp).
    destruct (getc_cases _ _ _ Hg) as [[Hq _]|(_ & He & _)];
      [|subst ch; discriminate Eb].
    exists (ch :: ws). split; [constructor; assumption|].
    rewrite Hq. destruct Hp as [[Hp1 Hp2]|Hp];
      [left; split; [rewrite Hp1; reflexivity|assumption]
      |right; rewrite Hp; reflexivity].
  - destruct (ch =? EOF) eqn:Ee; inversion H; subst g.
    apply Z.eqb_eq in Ee. subst ch. exists []. split; [constructor|].
    destruct (getc_cases _ _ _ Hg) as [[Hq _]|(Hq & _ & Hf)].
    + right. exact Hq.
    + left. subst f1. auto.
Qed.

Lemma parse_token_eof_first (fuel : nat) (f f' : inputFile) (t : Token) :
  parse_token fuel f = Some (t, f') ->
  token t = token_eof ->
  parse_token_first fuel f = Some (None, f').
Proof.
  unfold parse_token. cbv [getInputLineNumber getInputFilePosition].
  unfold bind at 1 2. intros H He.
  apply bind_Some_inv in H. destruct H as ([first|] & f1 & Hs & H).
  2:{ inversion H; subst. exact Hs. }
  exfalso. unfold bind at 1 2 in H.
  destruct (single_char_token first) as [k|] eqn:Ek.
  { inversion H; subst.
    destruct (single_char_token_not_special _ _ Ek) as (K & _).
    cbn [token set_token] in He. contradiction. }
  destruct (first =? chr "/").
  { apply bind_Some_inv in H. destruct H as (second & f2 & _ & H).
    destruct (second =? chr "/"); [|destruct (second =? chr "*")];
      try (apply bind_Some_inv in H; destruct H as (_ & f3 & _ & H));
      inversion H; subst; discriminate He. }
  destruct ((first >=? chr "0") && (first <=? chr "9")).
  { apply parse_number_kind in H. destruct H as [H _].
    rewrite H in He. discriminate He. }
  apply bind_Some_inv in H. destruct H as (b & f2 & _ & H).
  cbn [keyword set_keyword] in H.
  destruct (lookupKeyword b); inversion H; subst; discriminate He.
Qed.

Lemma parse_token_eof_end (fuel : nat) (f f' : inputFile) (t : Token) :
  proper (pending f) ->
  parse_token fuel f = Some (t, f') ->
  token t = token_eof ->
  pending f' = [].
Proof.
  intros Hp H He.
  pose proof (parse_token_eof_first _ _ _ _ H He) as Hfirst.
  destruct (parse_token_first_none _ _ _ Hfirst) as (ws & Hws & [[_ Hq]|Hq]);
    [exact Hq|].
  destruct Hp as [Hp|Hp].
  - rewrite Hq in Hp. apply Forall_app in Hp. destruct Hp as [_ Hp].
    apply Forall_cons_iff in Hp. destruct Hp as [Hp _]. contradiction.
  - rewrite Hp in Hq. destruct ws as [|w ws].
    + injection Hq as Hr. symmetry. exact Hr.
    + injection Hq as Hw Hr. destruct ws; discriminate Hr.
Qed.

Lemma bindD_Some_inv {A B : Type} (m : D A) (k : A -> D B) f calls r :
  bindD m k f = (calls, Some r) ->
  exists c1 a f1 c2,
    m f = (c1, Some (a, f1)) /\ k a f1 = (c2, Some r)
    /\ calls = (c1 ++ c2)%list.
Proof.
  unfold bindD. destruct (m f) as [c1 [[a f1]|]]; [|discriminate].
  destruct (k a f1) as [c2 r'] eqn:E. intros H. inversion H; subst.
  exists c1, a, f1, c2. auto.
Qed.

Lemma find_kotlin_tags_end (n : nat) :
  forall (f f' : inputFile) calls,
    proper (pending f) ->
    find_kotlin_tags n f = (calls, Some (tt, f')) ->
    pending f' = [].
Proof.
  induction n as [|n IH]; intros f f' calls Hp H; [discriminate H|].
  cbn [find_kotlin_tags] in H. apply bindD_Some_inv in H.
  destruct H as (c1 & t & f1 & c2 & H1 & H2 & _).
  unfold lift in H1. inversion H1 as [[Hc Ht]]. clear H1 Hc.
  assert (Hp1 : proper (pending f1))
    by exact (proper_reads _ _ (parse_token_follows _ _ _ _ Ht) Hp).
  destruct (token t) eqn:Et;
    try (apply bindD_Some_inv in H2;
         destruct H2 as (c3 & [] & f2 & c4 & H3 & H4 & _);
         apply (IH _ _ _ (proper_reads _ _
                            (find_kotlin_tags_dispatch_follows _ _ _ _ _ _ H3)
                            Hp1) H4)).
  inversion H2; subst. exact (parse_token_eof_end _ _ _ _ Hp Ht Et).
Qed.

(** X23.  When the recognizer returns it has read the whole input: it never
    stops before the end, whatever it meets. *)
Theorem find_kotlin_tags_reads_whole_input
    (fuel : nat) (f f' : inputFile) (calls : list tagCall) :
  proper (pending f) ->
  find_kotlin_tags fuel f = (calls, Some (tt, f')) ->
  pending f' = [].
Proof. intros Hp H. exact (find_kotlin_tags_end _ _ _ _ Hp H). Qed.

Lemma find_kotlin_tags_reads_whole_input_witness :
  pending {| ungetchBuf := []; content := [];
             currentLine := 1; currentPosition := 14 |} = [].
Proof.
  apply (find_kotlin_tags_reads_whole_input 30%nat
           (openInputFile "class A { } 1/")
           {| ungetchBuf := []; content := [];
              currentLine := 1; currentPosition := 14 |}
           [({| keyword := None; token := token_identifier;
                line_number := 1; file_position := 7; buffer := "A" |},
             kind_class)]).
  - left. vm_compute. repeat constructor; discriminate.
  - vm_compute. reflexivity.
Defined.
